(** * The ETF ingestion pipeline of awesomeProject

    A shallow embedding of [internal/updater.go] (the daily updater: the
    scheduler [Run], the batch [UpdateData], the item pipeline [updateETF]
    and the extractor [buildETF] with [findHoldings], [findSectors] and
    [findCountries], and the discovery [getPaths]), of [models/models.go]
    (the record types and [ToJson]), of the storage gateway ([Upsert],
    [GetByID], [GetAllIDs], [UserExists]) and of the handlers of the API
    ([internal/handlers.go], [internal/server.go]).

    Conventions.
    - A Go [string] is a [string] of bytes.  [strings.TrimSpace] trims the
      white space of Unicode in its UTF-8 encoding; [strings.ToLower] is
      given on every rune whose lower case is an ASCII letter, which is all
      a selector with an ASCII text can tell apart.  [encoding/json] writes a string with U+FFFD in the place of
      every byte that is not part of a UTF-8 encoding.
    - A JSON document is the tree of its values.  The table [etfs] keeps a
      document in a column of type JSONB, which gives it back with the
      members of its objects in an order of its own.
    - A Go slice is an [option (list A)]: [None] is the nil slice and
      [Some []] an allocated empty one; [encoding/json] tells them apart.
    - A Go [error] is [error]; the sentinel [ErrNotFound] is a constructor of
      its own because the code compares against it by identity.
    - A parsed document is the tree of [html.Node]s.  A node's identity (the
      pointer, in Go) is its path from the root; a located node carries the
      chain of its ancestors, which is what the parent pointers give the
      selector engine.
    - The CSS selectors are constants of the source; they are embedded as the
      matchers the selector compiler builds from them. *)

From Stdlib Require Import Ascii String.
From stdpp Require Import base option list strings gmap.

Local Open Scope string_scope.
Local Open Scope list_scope.

Set Warnings "-register-all".

(** ** Errors and results *)

Inductive error :=
| ErrNotFound                (* var ErrNotFound = errors.New("not found") *)
| ErrNew (msg : string).     (* any other error value *)

Definition Error (e : error) : string :=
  match e with
  | ErrNotFound => "not found"
  | ErrNew msg => msg
  end.

(** [fmt.Errorf(prefix + "%s", err)] and [fmt.Errorf(prefix + "%v", err)]. *)
Definition Errorf (prefix : string) (e : error) : error :=
  ErrNew (prefix +:+ Error e).

Definition is_ErrNotFound (e : error) : bool :=
  match e with ErrNotFound => true | ErrNew _ => false end.

Inductive Result (A : Type) :=
| Ok (a : A)
| Err (e : error).
Arguments Ok {A} a.
Arguments Err {A} e.

Definition is_Ok {A} (r : Result A) : bool :=
  match r with Ok _ => true | Err _ => false end.

(** ** Slices *)

Definition slice (A : Type) := option (list A).

Definition nil_slice {A} : slice A := None.

Definition append {A} (s : slice A) (x : A) : slice A :=
  match s with
  | None => Some [x]
  | Some l => Some (l ++ [x])
  end.

Definition len {A} (s : slice A) : nat :=
  match s with
  | None => 0
  | Some l => length l
  end.

Definition elems {A} (s : slice A) : list A :=
  match s with
  | None => []
  | Some l => l
  end.

(** ** The [unicode/utf8] package *)

Module utf8.

Definition between (lo hi : N) (c : ascii) : bool :=
  ((lo <=? N_of_ascii c) && (N_of_ascii c <=? hi))%N.

(** The table [first] and the [acceptRanges]: for the first byte of an
    encoding of two bytes or more, its size and the range of its second
    byte; [None] for a byte that starts no such encoding. *)
Definition accept (size : nat) (lo hi : N) : option (nat * (N * N)) :=
  Some (size, (lo, hi)).

Definition first (c : ascii) : option (nat * (N * N)) :=
  if between 194 223 c then accept 2 128 191           (* C2..DF *)
  else if between 224 224 c then accept 3 160 191      (* E0 *)
  else if between 225 236 c then accept 3 128 191      (* E1..EC *)
  else if between 237 237 c then accept 3 128 159      (* ED *)
  else if between 238 239 c then accept 3 128 191      (* EE..EF *)
  else if between 240 240 c then accept 4 144 191      (* F0 *)
  else if between 241 243 c then accept 4 128 191      (* F1..F3 *)
  else if between 244 244 c then accept 4 128 143      (* F4 *)
  else None.

(** [DecodeRuneInString] on a string that does not start with an ASCII
    byte: the size of the encoding the string starts with, and [None] where
    Go returns [(RuneError, 1)], for bytes that are no encoding. *)
Definition DecodeRuneInString (s : string) : option nat :=
  match s with
  | EmptyString => None
  | String s0 rest =>
      match first s0 with
      | None => None
      | Some (sz, (lo, hi)) =>
          match rest with
          | EmptyString => None
          | String s1 rest1 =>
              if negb (between lo hi s1) then None
              else if (sz <=? 2)%nat then Some 2
              else
                match rest1 with
                | EmptyString => None
                | String s2 rest2 =>
                    if negb (between 128 191 s2) then None
                    else if (sz <=? 3)%nat then Some 3
                    else
                      match rest2 with
                      | EmptyString => None
                      | String s3 _ =>
                          if negb (between 128 191 s3) then None else Some 4
                      end
                end
          end
      end
  end.

(** The encoding of U+FFFD, the replacement character. *)
Definition RuneError : string :=
  String (ascii_of_N 239) (String (ascii_of_N 191) (String (ascii_of_N 189) "")).

(** [ValidString], with [skip] bytes of the current encoding still to pass. *)
Fixpoint valid_from (skip : nat) (s : string) : bool :=
  match s with
  | EmptyString => true
  | String b rest =>
      match skip with
      | S skip' => valid_from skip' rest
      | O =>
          if (N_of_ascii b <? 128)%N then valid_from 0 rest
          else
            match DecodeRuneInString s with
            | Some size => valid_from (size - 1) rest
            | None => false
            end
      end
  end.

Definition ValidString (s : string) : bool := valid_from 0 s.

End utf8.

(** ** The [strings] package *)

Module strings.

Definition lower (c : ascii) : ascii :=
  let n := nat_of_ascii c in
  if (65 <=? n)%nat && (n <=? 90)%nat then ascii_of_nat (n + 32) else c.

(** [unicode.ToLower] on a rune outside ASCII, given by its encoding.  The
    lower case of the Kelvin sign (U+212A) is k and that of the capital I
    with a dot (U+0130) is i: these are the two runes outside ASCII whose
    lower case is an ASCII letter.  The other letters outside ASCII are left
    as they are; their lower case is outside ASCII as well. *)
Definition lower_rune (r : string) : string :=
  if String.eqb r (String (ascii_of_N 226)
                     (String (ascii_of_N 132) (String (ascii_of_N 170) "")))
  then "k"
  else if String.eqb r (String (ascii_of_N 196) (String (ascii_of_N 176) ""))
  then "i"
  else r.

(** [ToLower], rune by rune as [strings.Map] goes: a byte that is no
    encoding is written as U+FFFD.  [skip] counts the bytes of the current
    rune still to pass. *)
Fixpoint mapLower (skip : nat) (s : string) : string :=
  match s with
  | EmptyString => EmptyString
  | String c rest =>
      match skip with
      | S skip' => mapLower skip' rest
      | O =>
          if (N_of_ascii c <? 128)%N then String (lower c) (mapLower 0 rest)
          else
            match utf8.DecodeRuneInString s with
            | Some size =>
                String.append (lower_rune (substring 0 size s))
                              (mapLower (size - 1) rest)
            | None => String.append utf8.RuneError (mapLower 0 rest)
            end
      end
  end.

Definition ToLower (s : string) : string := mapLower 0 s.

Fixpoint HasPrefix (s prefix : string) : bool :=
  match prefix, s with
  | EmptyString, _ => true
  | String _ _, EmptyString => false
  | String a p', String b s' => Ascii.eqb a b && HasPrefix s' p'
  end.

Fixpoint Contains (s substr : string) : bool :=
  HasPrefix s substr ||
  match s with
  | EmptyString => false
  | String _ s' => Contains s' substr
  end.

(** The table [asciiSpace]: tab, newline, vertical tab, form feed, carriage
    return and space. *)
Definition asciiSpace (c : ascii) : bool :=
  let n := nat_of_ascii c in
  ((9 <=? n)%nat && (n <=? 13)%nat) || (n =? 32)%nat.

(** [unicode.IsSpace] beyond ASCII, on the UTF-8 encoding: U+0085 and U+00A0
    take two bytes; U+1680, U+2000 to U+200A, U+2028, U+2029, U+202F, U+205F
    and U+3000 take three. *)
Definition isSpace2 (a b : ascii) : bool :=
  let a := nat_of_ascii a in
  let b := nat_of_ascii b in
  (a =? 194)%nat && ((b =? 133)%nat || (b =? 160)%nat).

Definition isSpace3 (a b c : ascii) : bool :=
  let a := nat_of_ascii a in
  let b := nat_of_ascii b in
  let c := nat_of_ascii c in
  ((a =? 225)%nat && (b =? 154)%nat && (c =? 128)%nat)
  || ((a =? 226)%nat && (b =? 128)%nat &&
      (((128 <=? c)%nat && (c <=? 138)%nat) || (c =? 168)%nat || (c =? 169)%nat
       || (c =? 175)%nat))
  || ((a =? 226)%nat && (b =? 129)%nat && (c =? 159)%nat)
  || ((a =? 227)%nat && (b =? 128)%nat && (c =? 128)%nat).

(** The string without its leading white space.  With [backwards] the
    string is read from its end, its bytes in reverse, as the scan for the
    trailing white space reads it. *)
Fixpoint trimFront (backwards : bool) (s : string) : string :=
  match s with
  | EmptyString => EmptyString
  | String a s1 =>
      if asciiSpace a then trimFront backwards s1
      else
        match s1 with
        | EmptyString => s
        | String b s2 =>
            if (if backwards then isSpace2 b a else isSpace2 a b)
            then trimFront backwards s2
            else
              match s2 with
              | EmptyString => s
              | String c s3 =>
                  if (if backwards then isSpace3 c b a else isSpace3 a b c)
                  then trimFront backwards s3
                  else s
              end
        end
  end.

Definition TrimSpace (s : string) : string :=
  String.rev (trimFront true (String.rev (trimFront false s))).

End strings.

(** ** The tree of [html.Node]s *)

Inductive NodeType :=
| ErrorNode | TextNode | DocumentNode | ElementNode | CommentNode | DoctypeNode.

Definition NodeType_eqb (a b : NodeType) : bool :=
  match a, b with
  | ErrorNode, ErrorNode | TextNode, TextNode | DocumentNode, DocumentNode
  | ElementNode, ElementNode | CommentNode, CommentNode
  | DoctypeNode, DoctypeNode => true
  | _, _ => false
  end.

Record Attribute := { Key : string; Val : string }.

Inductive Node :=
| mkNode (Type_ : NodeType) (Data_ : string) (Attr_ : list Attribute)
         (Children_ : list Node).

Definition Type' (n : Node) : NodeType := let 'mkNode t _ _ _ := n in t.
Definition Data (n : Node) : string := let 'mkNode _ d _ _ := n in d.
Definition Attr (n : Node) : list Attribute := let 'mkNode _ _ a _ := n in a.
Definition Children (n : Node) : list Node := let 'mkNode _ _ _ c := n in c.

(** A node in its document: the path of child indices from the root stands
    for the pointer, [loc_anc] lists the ancestors, nearest first. *)
Record Loc := { loc_path : list nat; loc_anc : list Node; loc_node : Node }.

Definition same_node (a b : Loc) : bool :=
  bool_decide (loc_path a = loc_path b).

(** The node and everything below it, in document order. *)
Fixpoint subtree (p : list nat) (anc : list Node) (n : Node) : list Loc :=
  match n with
  | mkNode _ _ _ cs =>
      {| loc_path := p; loc_anc := anc; loc_node := n |} ::
      (fix go (i : nat) (l : list Node) : list Loc :=
         match l with
         | [] => []
         | c :: l' => subtree (p ++ [i]) (n :: anc) c ++ go (S i) l'
         end) 0%nat cs
  end.

Fixpoint children_from (p : list nat) (anc : list Node) (i : nat)
    (l : list Node) : list Loc :=
  match l with
  | [] => []
  | c :: l' =>
      {| loc_path := p ++ [i]; loc_anc := anc; loc_node := c |} ::
      children_from p anc (S i) l'
  end.

(** [n.FirstChild], [c.NextSibling], ... *)
Definition children (l : Loc) : list Loc :=
  children_from (loc_path l) (loc_node l :: loc_anc l) 0 (Children (loc_node l)).

Definition subtree_of (l : Loc) : list Loc :=
  subtree (loc_path l) (loc_anc l) (loc_node l).

Definition descendants (l : Loc) : list Loc :=
  flat_map subtree_of (children l).

(** [n.Parent], [n.Parent.Parent], ... *)
Fixpoint ancestors_from (p : list nat) (anc : list Node) : list Loc :=
  match anc with
  | [] => []
  | a :: rest =>
      let p' := removelast p in
      {| loc_path := p'; loc_anc := rest; loc_node := a |} ::
      ancestors_from p' rest
  end.

Definition ancestors (l : Loc) : list Loc :=
  ancestors_from (loc_path l) (loc_anc l).

Definition is_element (n : Node) : bool := NodeType_eqb (Type' n) ElementNode.

(** ** The selector engine (cascadia)

    One constructor for each kind of matcher that the selectors of this
    program compile to. *)

Inductive Sel :=
| SelTag (tag : string)                  (* [tag] *)
| SelClass (class : string)              (* [.class] *)
| SelID (id : string)                    (* [#id] *)
| SelAttrEq (key val : string)           (* [[key='val']] *)
| SelHas (inner : Sel)                   (* [:has(inner)] *)
| SelContains (value : string)           (* [:contains('value')] *)
| SelAnd (a b : Sel)                     (* compound selector [ab] *)
| SelDescendant (a d : Sel).             (* descendant combinator [a d] *)

Module cascadia.

Definition is_class_sep (c : ascii) : bool :=
  let n := nat_of_ascii c in
  (n =? 32)%nat || (n =? 9)%nat || (n =? 13)%nat || (n =? 10)%nat
  || (n =? 12)%nat.

(** [matchInclude]: [val] is one of the white-space separated words of [s];
    [tok] is the word being read. *)
Fixpoint matchInclude (val s tok : string) : bool :=
  match s with
  | EmptyString =>
      match tok with
      | EmptyString => false
      | _ => String.eqb tok val
      end
  | String c s' =>
      if is_class_sep c
      then String.eqb tok val || matchInclude val s' EmptyString
      else matchInclude val s' (tok +:+ String c EmptyString)
  end.

Definition matchAttribute (n : Node) (key : string) (f : string -> bool)
    : bool :=
  is_element n &&
  existsb (fun a => String.eqb (Key a) key && f (Val a)) (Attr n).

(** [nodeText]: the text below a text or element node. *)
Fixpoint nodeText (n : Node) : string :=
  match n with
  | mkNode TextNode d _ _ => d
  | mkNode ElementNode _ _ cs =>
      (fix go (l : list Node) : string :=
         match l with
         | [] => EmptyString
         | c :: l' => nodeText c +:+ go l'
         end) cs
  | mkNode _ _ _ _ => EmptyString
  end.

Fixpoint Match (s : Sel) (l : Loc) : bool :=
  let n := loc_node l in
  match s with
  | SelTag tag => is_element n && String.eqb (Data n) tag
  | SelClass class =>
      matchAttribute n "class" (fun v => matchInclude class v EmptyString)
  | SelID id => matchAttribute n "id" (fun v => String.eqb v id)
  | SelAttrEq key val => matchAttribute n key (fun v => String.eqb v val)
  | SelHas inner => is_element n && existsb (Match inner) (descendants l)
  | SelContains value =>
      strings.Contains (strings.ToLower (nodeText n)) (strings.ToLower value)
  | SelAnd a b => Match a l && Match b l
  | SelDescendant a d => Match d l && existsb (Match a) (ancestors l)
  end.

(** [MatchAll]: the matching nodes of a subtree, in document order. *)
Definition MatchAll (s : Sel) (l : Loc) : list Loc :=
  List.filter (Match s) (subtree_of l).

End cascadia.

(** ** Selections (goquery) *)

Definition Selection := list Loc.

Module goquery.

Fixpoint appendWithoutDuplicates (target nodes : list Loc) : list Loc :=
  match nodes with
  | [] => target
  | n :: ns =>
      if existsb (same_node n) target
      then appendWithoutDuplicates target ns
      else appendWithoutDuplicates (target ++ [n]) ns
  end.

Definition mapNodes (nodes : list Loc) (f : Loc -> list Loc) : list Loc :=
  fold_left (fun result n => appendWithoutDuplicates result (f n)) nodes [].

(** [Selection.Find]: the matches among the descendants of each node of
    the selection, each node once. *)
Definition Find (s : Selection) (sel : Sel) : Selection :=
  mapNodes s (fun n =>
    flat_map (fun c => if is_element (loc_node c)
                       then cascadia.MatchAll sel c else [])
             (children n)).

Definition Length (s : Selection) : nat := length s.

(** [Selection.Eq] at a non-negative index. *)
Definition Eq (s : Selection) (index : nat) : Selection :=
  match s !! index with
  | Some n => [n]
  | None => []
  end.

(** The text nodes below a node, concatenated. *)
Fixpoint text_of (n : Node) : string :=
  match n with
  | mkNode t d _ cs =>
      (match t with TextNode => d | _ => EmptyString end) +:+
      (fix go (l : list Node) : string :=
         match l with
         | [] => EmptyString
         | c :: l' => text_of c +:+ go l'
         end) cs
  end.

Fixpoint Text (s : Selection) : string :=
  match s with
  | [] => EmptyString
  | n :: s' => text_of (loc_node n) +:+ Text s'
  end.

Fixpoint getAttributeValue (attrName : string) (attrs : list Attribute)
    : option string :=
  match attrs with
  | [] => None
  | a :: attrs' =>
      if String.eqb (Key a) attrName then Some (Val a)
      else getAttributeValue attrName attrs'
  end.

Definition AttrOr (s : Selection) (attrName defaultValue : string) : string :=
  match s with
  | [] => defaultValue
  | n :: _ => default defaultValue (getAttributeValue attrName (Attr (loc_node n)))
  end.

(** [Selection.Each]: the callback runs on every node with its index; what
    the closure mutates is threaded as [st]. *)
Fixpoint Each_from {St : Type} (f : nat -> Selection -> St -> St)
    (index : nat) (s : Selection) (st : St) : St :=
  match s with
  | [] => st
  | n :: s' => Each_from f (S index) s' (f index [n] st)
  end.

Definition Each {St : Type} (s : Selection) (f : nat -> Selection -> St -> St)
    (st : St) : St :=
  Each_from f 0 s st.

End goquery.

(** A parsed document is its root node; the document's own selection holds
    just that node. *)
Definition Document := Node.

Definition doc_selection (doc : Document) : Selection :=
  [{| loc_path := []; loc_anc := []; loc_node := doc |}].

(** ** models/models.go *)

Module json.

(** What [json.Marshal] writes, as a tree; the members of an object are in
    the order in which they are written. *)
Inductive value :=
| Null
| Str (s : string)
| Arr (l : list value)
| Obj (members : list (string * value)).

(** The text of the JSON string that the encoder writes for a Go string
    ([appendString]): the bytes are kept, but every byte at which
    [DecodeRuneInString] gives [(RuneError, 1)] is written as U+FFFD.
    [skip] counts the bytes of the current encoding still to pass. *)
Fixpoint appendString (skip : nat) (s : string) : string :=
  match s with
  | EmptyString => EmptyString
  | String b rest =>
      match skip with
      | S skip' => String b (appendString skip' rest)
      | O =>
          if (N_of_ascii b <? 128)%N then String b (appendString 0 rest)
          else
            match utf8.DecodeRuneInString s with
            | Some size => String b (appendString (size - 1) rest)
            | None => utf8.RuneError +:+ appendString 0 rest
            end
      end
  end.

Definition Marshal_string (s : string) : value := Str (appendString 0 s).

(** A slice marshals to [null] when nil and to an array otherwise. *)
Definition Marshal_slice {A} (f : A -> value) (s : slice A) : value :=
  match s with
  | None => Null
  | Some l => Arr (map f l)
  end.

(** A field tagged [omitempty] is left out when its slice has length 0. *)
Definition omitempty {A} (key : string) (f : A -> value) (s : slice A)
    : list (string * value) :=
  if (len s =? 0)%nat then [] else [(key, Marshal_slice f s)].

Definition member (key : string) (v : value) : option value :=
  match v with
  | Obj members => snd <$> List.find (fun kv => String.eqb (fst kv) key) members
  | _ => None
  end.

(** *** A document in a column of type JSONB

    The column [data] of the table [etfs] is JSONB: a document written to
    it comes back with the members of every object ordered by the length of
    their keys and then by their bytes, and with the last of the members
    that share a key. *)

Definition key_before (a b : string) : bool :=
  (String.length a <? String.length b)%nat
  || ((String.length a =? String.length b)%nat && String.ltb a b).

Fixpoint put_member (kv : string * value) (members : list (string * value))
    : list (string * value) :=
  match members with
  | [] => [kv]
  | m :: rest =>
      if String.eqb (fst kv) (fst m) then kv :: rest
      else if key_before (fst kv) (fst m) then kv :: m :: rest
      else m :: put_member kv rest
  end.

Definition sort_members (members : list (string * value)) : list (string * value) :=
  fold_left (fun sorted kv => put_member kv sorted) members [].

Fixpoint jsonb (v : value) : value :=
  match v with
  | Null => Null
  | Str s => Str s
  | Arr l => Arr (map jsonb l)
  | Obj members =>
      Obj (sort_members (map (fun kv => let '(k, v') := kv in (k, jsonb v')) members))
  end.

End json.

(** ** The [time] package *)

Module time.

(** A point in time (a [time.Time], a TIMESTAMP of the database), counted
    in seconds from the zero value of [time.Time]. *)
Definition Time := Z.

Definition zero : Time := 0%Z.

End time.

Module models.

Record Holding := {
  h_Name : string;          (* `json:"name"` *)
  h_SharesHeld : string;    (* `json:"shares_held"` *)
  h_Weight : string         (* `json:"weight"` *)
}.

Record WeightData := {
  w_Name : string;          (* `json:"name"` *)
  w_Weight : string         (* `json:"weight"` *)
}.

Record ETFData := {
  Name : string;                  (* `json:"name"` *)
  Description : string;           (* `json:"description"` *)
  TopHoldings : slice Holding;    (* `json:"top_holdings"` *)
  Countries : slice WeightData;   (* `json:"countries"` *)
  Sectors : slice WeightData      (* `json:"sectors,omitempty"` *)
}.

Record ETF := {
  ID : string;
  Data : json.value;      (* the bytes of a JSON document *)
  CreatedAt : time.Time;
  UpdatedAt : time.Time
}.

Record CountryWeight := {
  cw_Name_Value : string;             (* name.value *)
  cw_Weight_Value : string;           (* weight.value *)
  cw_Weight_OriginalValue : string    (* weight.originalValue *)
}.

Record GeographicalData := { AttributeArray : slice CountryWeight }.

Definition Holding_json (h : Holding) : json.value :=
  json.Obj [("name", json.Marshal_string (h_Name h));
            ("shares_held", json.Marshal_string (h_SharesHeld h));
            ("weight", json.Marshal_string (h_Weight h))].

Definition WeightData_json (w : WeightData) : json.value :=
  json.Obj [("name", json.Marshal_string (w_Name w));
            ("weight", json.Marshal_string (w_Weight w))].

Definition ToJson (m : ETFData) : json.value :=
  json.Obj ([("name", json.Marshal_string (Name m));
             ("description", json.Marshal_string (Description m));
             ("top_holdings", json.Marshal_slice Holding_json (TopHoldings m));
             ("countries", json.Marshal_slice WeightData_json (Countries m))]
            ++ json.omitempty "sectors" WeightData_json (Sectors m)).

End models.

(** ** internal/updater.go: the selectors *)

Definition tableSelector : Sel :=                 (* "table.data-table" *)
  SelAnd (SelTag "table") (SelClass "data-table").
Definition labelCellSelector : Sel :=             (* "td.label" *)
  SelAnd (SelTag "td") (SelClass "label").
Definition dataCellSelector : Sel :=              (* "td.data" *)
  SelAnd (SelTag "td") (SelClass "data").
Definition rowSelector : Sel := SelTag "tr".      (* "tr" *)

Definition tickerSelector : Sel :=                (* "span.ticker" *)
  SelAnd (SelTag "span") (SelClass "ticker").

(** "section.comp-text:has(h2.comp-title:contains('About this Benchmark'))
     div.ssmp-richtext" *)
Definition descriptionSelector : Sel :=
  SelDescendant
    (SelAnd (SelAnd (SelTag "section") (SelClass "comp-text"))
            (SelHas (SelAnd (SelAnd (SelTag "h2") (SelClass "comp-title"))
                            (SelContains "About this Benchmark"))))
    (SelAnd (SelTag "div") (SelClass "ssmp-richtext")).

(** "section:has(h3:contains('Top Holdings'))" *)
Definition topHoldingsSectionSelector : Sel :=
  SelAnd (SelTag "section")
         (SelHas (SelAnd (SelTag "h3") (SelContains "Top Holdings"))).

(** "div[data-fundComponent='true']:has(h3:contains('<title>'))"; the
    selector compiler lower-cases the attribute name, as the HTML parser
    does in the document. *)
Definition fundComponentDiv (title : string) : Sel :=
  SelAnd (SelAnd (SelTag "div") (SelAttrEq "data-fundcomponent" "true"))
         (SelHas (SelAnd (SelTag "h3") (SelContains title))).

Definition sectorFundBreakdownDivSelector : Sel :=
  fundComponentDiv "Fund Sector Breakdown".
Definition sectorBreakdownDivSelector : Sel :=
  fundComponentDiv "Sector Breakdown".
Definition sectorIndustryDivSelector : Sel :=
  fundComponentDiv "Fund Industry Allocation".
Definition sectorSubIndustryDivSelector : Sel :=
  fundComponentDiv "Fund Sub-Industry Allocation".

(** "input#fund-geographical-breakdown" *)
Definition geographicalSelector : Sel :=
  SelAnd (SelTag "input") (SelID "fund-geographical-breakdown").

Definition semaphoreCapacity : nat := 50.

(** ** internal/updater.go: the extractor *)

Import goquery.

Definition nonempty (s : string) : bool := negb (String.eqb s "").

(** The callback of [findHoldings]; [fundHoldings] is the slice the closure
    appends to. *)
Definition holdingsRow (index : nat) (rowHtml : Selection)
    (fundHoldings : slice models.Holding) : slice models.Holding :=
  if (0 <? index)%nat && nonempty (Text (Find rowHtml labelCellSelector)) then
    if nonempty (Text (Eq (Find rowHtml dataCellSelector) 1)) then
      let holdingName := Text (Find rowHtml labelCellSelector) in
      let sharesHeld := Text (Eq (Find rowHtml dataCellSelector) 0) in
      let weight := Text (Eq (Find rowHtml dataCellSelector) 1) in
      append fundHoldings
        {| models.h_Name := holdingName;
           models.h_SharesHeld := sharesHeld;
           models.h_Weight := weight |}
    else fundHoldings
  else fundHoldings.

Definition findHoldings (doc : Document) : Result (slice models.Holding) :=
  let div := Find (doc_selection doc) topHoldingsSectionSelector in
  if (Length div =? 0)%nat then Err ErrNotFound
  else
    Ok (Each (Find (Find div tableSelector) rowSelector) holdingsRow nil_slice).

(** The callback of [findSectors]. *)
Definition sectorsRow (index : nat) (rowHtml : Selection)
    (sectors : slice models.WeightData) : slice models.WeightData :=
  if (0 <? index)%nat && nonempty (Text (Find rowHtml labelCellSelector)) then
    let name := Text (Find rowHtml labelCellSelector) in
    let weight := Text (Eq (Find rowHtml dataCellSelector) 0) in
    append sectors {| models.w_Name := name; models.w_Weight := weight |}
  else sectors.

(** The candidates in the order of the slice literal in [findSectors]. *)
Definition sectorDivs : list Sel :=
  [ sectorBreakdownDivSelector;
    sectorIndustryDivSelector;
    sectorSubIndustryDivSelector;
    sectorFundBreakdownDivSelector ].

(** The loop [for i := range sectorDivs]: [sectorDiv] is overwritten by each
    lookup and the loop is left on the first one that is not empty. *)
Fixpoint sectorDiv_loop (doc : Document) (candidates : list Sel)
    (sectorDiv : Selection) : Selection :=
  match candidates with
  | [] => sectorDiv
  | sel :: rest =>
      let sectorDiv := Find (doc_selection doc) sel in
      if negb (Length sectorDiv =? 0)%nat then sectorDiv
      else sectorDiv_loop doc rest sectorDiv
  end.

Definition findSectors (doc : Document) : Result (slice models.WeightData) :=
  let sectorDiv := sectorDiv_loop doc sectorDivs [] in
  if (Length sectorDiv =? 0)%nat then Err ErrNotFound
  else
    Ok (Each (Find (Find sectorDiv tableSelector) rowSelector) sectorsRow (Some [])).

Definition processGeographicalData (geoData : models.GeographicalData)
    : slice models.WeightData :=
  Some (map (fun a => {| models.w_Name := models.cw_Name_Value a;
                         models.w_Weight := models.cw_Weight_Value a |})
            (elems (models.AttributeArray geoData))).

Notation "'let?' x := r 'in' k" :=
  (match r with Ok x => k | Err e => Err e end)
  (at level 10, x name, r at level 100, k at level 200).

Definition wrap {A} (prefix : string) (r : Result A) : Result A :=
  match r with
  | Ok a => Ok a
  | Err e => Err (Errorf prefix e)
  end.

Section Extractor.

(** [json.Unmarshal] into a [GeographicalData]: the decoded value, or the
    message of the decoder's error. *)
Variable Unmarshal : string -> string + models.GeographicalData.

Definition findCountries (doc : Document) : Result (slice models.WeightData) :=
  let inputElement := Find (doc_selection doc) geographicalSelector in
  if (Length inputElement =? 0)%nat then Err ErrNotFound
  else
    let value := AttrOr inputElement "value" "" in
    match Unmarshal value with
    | inl msg => Err (ErrNew msg)
    | inr geoData => Ok (processGeographicalData geoData)
    end.

(** It is no error for [findCountries] to come back with [ErrNotFound]:
    the countries are then the nil slice it returned. *)
Definition countries_or_absent (r : Result (slice models.WeightData))
    : Result (slice models.WeightData) :=
  match r with
  | Ok c => Ok c
  | Err e => if is_ErrNotFound e then Ok nil_slice else Err e
  end.

Definition buildETF (doc : Document) : Result models.ETF :=
  let name := strings.TrimSpace (Text (Find (doc_selection doc) tickerSelector)) in
  if String.eqb name "" then Err (ErrNew "not found name")
  else
    let description := Text (Find (doc_selection doc) descriptionSelector) in
    if String.eqb description "" then Err (ErrNew "description found name")
    else
      let? topHoldings := wrap "findHoldings returns: " (findHoldings doc) in
      let? sectors := wrap "findSectors returns: " (findSectors doc) in
      let? countries := wrap "findCountries returns: "
                          (countries_or_absent (findCountries doc)) in
      let etfData :=
        {| models.Name := name;
           models.Description := description;
           models.TopHoldings := topHoldings;
           models.Countries := countries;
           models.Sectors := sectors |} in
      Ok {| models.ID := models.Name etfData;
            models.Data := models.ToJson etfData;
            models.CreatedAt := time.zero;
            models.UpdatedAt := time.zero |}.

End Extractor.

(** ** Sample documents *)

Module Sample.

Definition attr (k v : string) : Attribute := {| Key := k; Val := v |}.
Definition el (tag : string) (attrs : list Attribute) (cs : list Node) : Node :=
  mkNode ElementNode tag attrs cs.
Definition tx (s : string) : Node := mkNode TextNode s [] [].
Definition page (body : list Node) : Document :=
  mkNode DocumentNode "" []
    [ el "html" [] [ el "head" [] []; el "body" [] body ] ].

Definition ticker (name : string) : Node :=
  el "span" [attr "class" "ticker"] [tx name].

Definition about (descr : string) : Node :=
  el "section" [attr "class" "comp-text"]
    [ el "h2" [attr "class" "comp-title"] [tx "About this Benchmark"];
      el "div" [attr "class" "ssmp-richtext"] [tx descr] ].

Definition header_row (cols : list string) : Node :=
  el "tr" [] (map (fun c => el "th" [] [tx c]) cols).

(** A table row: a label cell and data cells. *)
Definition row (label : string) (data : list string) : Node :=
  el "tr" []
    (el "td" [attr "class" "label"] [tx label] ::
     map (fun d => el "td" [attr "class" "data"] [tx d]) data).

Definition table (rows : list Node) : Node :=
  el "table" [attr "class" "data-table"] [ el "tbody" [] rows ].

Definition holdings_section (title : string) (rows : list Node) : Node :=
  el "section" [] [ el "h3" [] [tx title]; table rows ].

Definition fund_component (title : string) (rows : list Node) : Node :=
  el "div" [attr "data-fundcomponent" "true"]
    [ el "h3" [] [tx title]; table rows ].

Definition geo_input (value : string) : Node :=
  el "input" [attr "id" "fund-geographical-breakdown"; attr "value" value] [].

End Sample.

(** ** The storage gateway and the item pipeline *)

Inductive LogEntry :=
| LogInfo (msg : string)
| LogError (msg : string)
| LogFatal (msg : string).

(** A row of the table [etfs] (migrations/1_init.up.sql), under its [id]:
    the document written to [data], and the two timestamps. *)
Record Row := {
  col_data : json.value;
  col_created_at : time.Time;
  col_updated_at : time.Time
}.

(** What the pipelines act on: the table [etfs], the calls of [Upsert] made
    so far, and the log. *)
Record World := {
  etfs : gmap string Row;
  upserts : list models.ETF;
  log : list LogEntry
}.

(** The column [data] of the table: the document written last under each
    [id]. *)
Definition store (w : World) : gmap string json.value := col_data <$> etfs w.

Arguments store : simpl never.

Definition logged (entry : LogEntry) (w : World) : World :=
  {| etfs := etfs w; upserts := upserts w; log := log w ++ [entry] |}.

Definition logged_all (entries : list LogEntry) (w : World) : World :=
  fold_left (fun w entry => logged entry w) entries w.

(** Where a transaction of [Upsert] can fail. *)
Inductive db_fault :=
| BeginFails (e : error)
| QueryFails (e : error)
| ExecFails (e : error)
| CommitFails (e : error).

Definition fault_error (f : db_fault) : error :=
  match f with
  | BeginFails e | QueryFails e | ExecFails e | CommitFails e => e
  end.

Record Response := {
  StatusCode : nat;
  Body : Result string        (* what [io.ReadAll(resp.Body)] gives *)
}.

(** The outside world during one batch. *)
Record Env := {
  (** the outcome of the browser session of [getPaths]: the keys of the map
      it returns, in the order in which [range] visits them *)
  getPaths : Result (list string);
  (** what that session writes to the log: [getPaths] logs the errors of
      [browser.Close] and of [pw.Stop] *)
  getPaths_logged : list LogEntry;
  http_Get : string -> Result Response;
  NewDocumentFromReader : string -> Result Document;
  Unmarshal : string -> string + models.GeographicalData;
  db_faults : models.ETF -> option db_fault;
  (** [NOW()] in the transaction of the n-th call of [Upsert], counted
      from 0 *)
  NOW : nat -> time.Time
}.

Section Updater.

Variable host : string.
Variable env : Env.

(** [Database.Upsert]: one transaction; on any failure nothing is
    committed. *)
Definition Upsert (etf : models.ETF) (w : World) : Result unit * World :=
  let now := NOW env (length (upserts w)) in
  let w := {| etfs := etfs w; upserts := upserts w ++ [etf]; log := log w |} in
  match db_faults env etf with
  | Some f => (Err (fault_error f), w)
  | None =>
      let count := match etfs w !! models.ID etf with
                   | Some _ => 1 | None => 0 end in
      let rows :=
        if (0 <? count)%nat
        then (* UPDATE etfs SET data = $1, updated_at = NOW() WHERE id = $2 *)
          alter (fun row => {| col_data := models.Data etf;
                               col_created_at := col_created_at row;
                               col_updated_at := now |})
                (models.ID etf) (etfs w)
        else (* INSERT INTO etfs (id, data, created_at, updated_at)
                VALUES ($1, $2, NOW(), NOW()) *)
          <[models.ID etf := {| col_data := models.Data etf;
                                col_created_at := now;
                                col_updated_at := now |}]> (etfs w) in
      (Ok (), {| etfs := rows; upserts := upserts w; log := log w |})
  end.

Definition updateETF (path : string) (w : World) : World :=
  let url := host +:+ path in
  match http_Get env url with
  | Err err => logged (LogError (Error err)) w
  | Ok resp =>
      match Body resp with
      | Err err => logged (LogError (Error err)) w
      | Ok htmlContent =>
          match NewDocumentFromReader env htmlContent with
          | Err err => logged (LogError (Error err)) w
          | Ok doc =>
              match buildETF (Unmarshal env) doc with
              | Err err =>
                  logged (LogError ("Could not build ETF, error: " +:+ Error err
                                    +:+ ", URL: " +:+ url)) w
              | Ok etf =>
                  match Upsert etf w with
                  | (Err err, w') =>
                      logged (LogError ("Could not upsert ETF, error: "
                                        +:+ Error err +:+ ", URL: " +:+ url)) w'
                  | (Ok _, w') => w'
                  end
              end
          end
      end
  end.

End Updater.

(** ** [UpdateData]: the batch

    [UpdateData] starts one goroutine for each path.  Its runs are the
    interleavings of the steps of the main goroutine and of the workers; a
    step that would block (a send on the full semaphore channel, a receive
    from the empty one, [wg.Wait] on a counter that is not zero) is not
    enabled.  A run of [updateETF] is one step: what it does to the shared
    world is a single log write or a single transaction. *)

(** Where the main goroutine stands. *)
Inductive MainPc :=
| AtGetPaths                      (* fetchPaths, err := u.getPaths() *)
| AtRange                         (* for path := range fetchPaths *)
| AtAcquire (path : string)       (* wg.Add(1) done; semaphore <- struct{}{} *)
| AtGo (path : string)            (* slot acquired; go func(path string) {...}(path) *)
| AtWait                          (* wg.Wait() *)
| Returned (err : option error).  (* return err *)

(** Where a worker stands. *)
Inductive WorkerPc :=
| InUpdateETF      (* u.updateETF(path) *)
| AtRelease        (* deferred: <-semaphore *)
| AtDone.          (* deferred: wg.Done() *)

Record Batch := {
  main : MainPc;
  remaining : list string;          (* the paths the loop has yet to visit *)
  semaphore : nat;                  (* the tokens in the channel's buffer *)
  wg : nat;                         (* the counter of the WaitGroup *)
  workers : list (string * WorkerPc);   (* the live worker goroutines *)
  completed : list string;          (* the paths whose updateETF has returned *)
  world : World
}.

Inductive Action :=
| StepMain
| StepWorker (i : nat).      (* the i-th live worker *)

Section Batch.

Variable host : string.
Variable env : Env.

Definition start (w : World) : Batch :=
  {| main := AtGetPaths; remaining := []; semaphore := 0; wg := 0;
     workers := []; completed := []; world := w |}.

Definition step_main (s : Batch) : option Batch :=
  match main s with
  | AtGetPaths =>
      match getPaths env with
      | Err err =>
          Some {| main := Returned (Some (Errorf "failed to get data paths: " err));
                  remaining := remaining s; semaphore := semaphore s; wg := wg s;
                  workers := workers s; completed := completed s;
                  world := logged_all (getPaths_logged env) (world s) |}
      | Ok fetchPaths =>
          Some {| main := AtRange;
                  remaining := fetchPaths; semaphore := semaphore s; wg := wg s;
                  workers := workers s; completed := completed s;
                  world := logged_all (getPaths_logged env) (world s) |}
      end
  | AtRange =>
      match remaining s with
      | path :: rest =>
          Some {| main := AtAcquire path;
                  remaining := rest; semaphore := semaphore s; wg := S (wg s);
                  workers := workers s; completed := completed s; world := world s |}
      | [] =>
          Some {| main := AtWait;
                  remaining := []; semaphore := semaphore s; wg := wg s;
                  workers := workers s; completed := completed s; world := world s |}
      end
  | AtAcquire path =>
      if (semaphore s <? semaphoreCapacity)%nat
      then Some {| main := AtGo path;
                   remaining := remaining s; semaphore := S (semaphore s); wg := wg s;
                   workers := workers s; completed := completed s; world := world s |}
      else None
  | AtGo path =>
      Some {| main := AtRange;
              remaining := remaining s; semaphore := semaphore s; wg := wg s;
              workers := workers s ++ [(path, InUpdateETF)];
              completed := completed s; world := world s |}
  | AtWait =>
      if (wg s =? 0)%nat
      then Some {| main := Returned None;
                   remaining := remaining s; semaphore := semaphore s; wg := wg s;
                   workers := workers s; completed := completed s; world := world s |}
      else None
  | Returned _ => None
  end.

Definition step_worker (i : nat) (s : Batch) : option Batch :=
  match workers s !! i with
  | None => None
  | Some (path, InUpdateETF) =>
      Some {| main := main s;
              remaining := remaining s; semaphore := semaphore s; wg := wg s;
              workers := <[i := (path, AtRelease)]> (workers s);
              completed := completed s ++ [path];
              world := updateETF host env path (world s) |}
  | Some (path, AtRelease) =>
      match semaphore s with
      | O => None
      | S n =>
          Some {| main := main s;
                  remaining := remaining s; semaphore := n; wg := wg s;
                  workers := <[i := (path, AtDone)]> (workers s);
                  completed := completed s; world := world s |}
      end
  | Some (path, AtDone) =>
      match wg s with
      | O => None
      | S n =>
          Some {| main := main s;
                  remaining := remaining s; semaphore := semaphore s; wg := n;
                  workers := delete i (workers s);
                  completed := completed s; world := world s |}
      end
  end.

Definition step (a : Action) (s : Batch) : option Batch :=
  match a with
  | StepMain => step_main s
  | StepWorker i => step_worker i s
  end.

(** A run under a schedule, the list of the goroutines chosen in turn. *)
Fixpoint run (schedule : list Action) (s : Batch) : option Batch :=
  match schedule with
  | [] => Some s
  | a :: schedule' =>
      match step a s with
      | Some s' => run schedule' s'
      | None => None
      end
  end.

(** [UpdateData] under a schedule: the error it returns and the world it
    leaves.  There is no result when the schedule ends before the return or
    picks a goroutine that is blocked. *)
Definition UpdateData (schedule : list Action) (w : World)
    : option (option error * World) :=
  match run schedule (start w) with
  | Some s =>
      match main s with
      | Returned err => Some (err, world s)
      | _ => None
      end
  | None => None
  end.

(** The pipelines in flight: the workers that hold a slot of the gate. *)
Definition holds_slot (w : string * WorkerPc) : bool :=
  match snd w with
  | InUpdateETF | AtRelease => true
  | AtDone => false
  end.

Definition in_flight (s : Batch) : nat :=
  length (List.filter holds_slot (workers s)).

End Batch.

(** ** [Run]: the scheduler

    [Run] never returns: it either ends the process ([logger.Fatalf] logs and
    exits) or stays in its loop.  It is observed through the events it
    produces up to a given number of ticks of the ticker; durations are in
    hours. *)

Inductive Event :=
| CallUpdateData (err : option error)    (* err := u.UpdateData() *)
| Info (msg : string)                    (* u.logger.Info / Infof *)
| AttemptFailed (attempt : nat) (err : error)
    (* u.logger.Errorf("Data update attempt %d failed: %v", attempt, err) *)
| Fatalf (msg : string)                  (* u.logger.Fatalf: log, then exit *)
| NewTicker (hours : nat)                (* time.NewTicker *)
| Tick                                   (* case <-ticker.C *)
| Sleep (hours : nat).                   (* time.Sleep *)

Inductive Status :=
| Exited          (* the process has ended *)
| AwaitingTick.   (* blocked in the select, on ticker.C *)

Section Scheduler.

(** What the k-th call of [u.UpdateData()] returns. *)
Variable outcome : nat -> option error.

Definition retries : nat := 3.

(** The loop [for i := 0; i < retries; i++], entered with [left] rounds to
    go, at the [k]-th call of [UpdateData]; returns the events and the
    number of calls made when the loop is left. *)
Fixpoint retry_loop (left i k : nat) : list Event * nat :=
  match left with
  | O => ([], k)
  | S left' =>
      match outcome k with
      | None =>
          ([CallUpdateData None; Info "Data update completed successfully"],
           S k)                                              (* break *)
      | Some err =>
          let '(rest, k') := retry_loop left' (S i) (S k) in
          ([CallUpdateData (Some err); AttemptFailed (i + 1) err]
           ++ (if (i <? retries - 1)%nat
               then [Info "Retrying data update in 1 hour..."; Sleep 1]
               else [])
           ++ rest, k')
      end
  end.

(** One round of the [select]: a tick, then the attempts. *)
Definition cycle (k : nat) : list Event * nat :=
  let '(evs, k') := retry_loop retries 0 k in (Tick :: evs, k').

(** The endless [for { select { ... } }], for [ticks] ticks. *)
Fixpoint schedule_loop (ticks k : nat) : list Event :=
  match ticks with
  | O => []
  | S ticks' =>
      let '(evs, k') := cycle k in evs ++ schedule_loop ticks' k'
  end.

Definition Run (ticks : nat) : list Event * Status :=
  match outcome 0 with
  | Some err =>
      ([CallUpdateData (Some err);
        Fatalf ("Initial data update failed: " +:+ Error err)], Exited)
  | None =>
      ([CallUpdateData None; Info "Data update completed successfully";
        NewTicker 24] ++ schedule_loop ticks 1, AwaitingTick)
  end.

End Scheduler.

Definition is_call (e : Event) : bool :=
  match e with CallUpdateData _ => true | _ => false end.

Definition is_fatal (e : Event) : bool :=
  match e with Fatalf _ => true | _ => false end.

Definition is_call_or_sleep (e : Event) : bool :=
  match e with CallUpdateData _ | Sleep _ => true | _ => false end.

Definition calls (evs : list Event) : nat := length (List.filter is_call evs).

(** The events [evs], one after the other with [wait] between each two. *)
Fixpoint spaced (wait : Event) (evs : list Event) : list Event :=
  match evs with
  | [] => []
  | e :: rest =>
      match rest with
      | [] => [e]
      | _ :: _ => e :: wait :: spaced wait rest
      end
  end.

Definition is_tick (e : Event) : bool :=
  match e with Tick => true | _ => false end.

Definition is_new_ticker (e : Event) : bool :=
  match e with NewTicker _ => true | _ => false end.

(** The outcomes of the calls number [k], [k + 1], ..., [k + n - 1]. *)
Definition calls_from (outcome : nat -> option error) (k n : nat) : list Event :=
  map (fun i => CallUpdateData (outcome (k + i))) (seq 0 n).

(** The events that bear on the timing of a run: the calls of [UpdateData],
    the sleeps, the ticker and its ticks. *)
Definition is_timing (e : Event) : bool :=
  match e with
  | CallUpdateData _ | Sleep _ | Tick | NewTicker _ => true
  | _ => false
  end.

(** The calls and waits of a run of days: for each day, with [n] attempts
    from the [k]-th call on, the tick and then the [n] calls with a sleep of
    one hour between each two. *)
Fixpoint days (outcome : nat -> option error) (k : nat) (attempts : list nat)
    : list Event :=
  match attempts with
  | [] => []
  | n :: rest =>
      Tick :: spaced (Sleep 1) (calls_from outcome k n) ++ days outcome (k + n) rest
  end.

(** The numbers of attempts of the days follow the retry policy: on each
    day between one and three attempts, of which every one but the last has
    failed and the last has succeeded unless it is the third. *)
Fixpoint retried (outcome : nat -> option error) (k : nat) (attempts : list nat)
    : Prop :=
  match attempts with
  | [] => True
  | n :: rest =>
      1 <= n <= 3 /\
      (forall i, i < n - 1 -> outcome (k + i) <> None) /\
      (outcome (k + (n - 1)) = None \/ n = 3) /\
      retried outcome (k + n) rest
  end.

(** ** Reading the extractor's tables row by row *)

(** The rows [findHoldings] iterates over: every [tr] below a data table
    below a section found by [topHoldingsSectionSelector]. *)
Definition holdings_rows (doc : Document) : Selection :=
  Find (Find (Find (doc_selection doc) topHoldingsSectionSelector) tableSelector)
       rowSelector.

(** The text of the label cells of a row, and of its [i]-th data cell. *)
Definition row_label (row : Loc) : string := Text (Find [row] labelCellSelector).
Definition row_data (row : Loc) (i : nat) : string :=
  Text (Eq (Find [row] dataCellSelector) i).

(** What a row after the first contributes to the holdings. *)
Definition row_holding (row : Loc) : list models.Holding :=
  if nonempty (row_label row) && nonempty (row_data row 1)
  then [ {| models.h_Name := row_label row;
            models.h_SharesHeld := row_data row 0;
            models.h_Weight := row_data row 1 |} ]
  else [].

(** The same with every field trimmed, as a reader expecting trimmed text
    would have it. *)
Definition row_holding_trimmed (row : Loc) : list models.Holding :=
  if nonempty (row_label row) && nonempty (row_data row 1)
  then [ {| models.h_Name := strings.TrimSpace (row_label row);
            models.h_SharesHeld := strings.TrimSpace (row_data row 0);
            models.h_Weight := strings.TrimSpace (row_data row 1) |} ]
  else [].

(** The candidates in the order fund sector breakdown, sector breakdown,
    fund industry allocation, fund sub-industry allocation, and the lookup
    that tries them in that order. *)
Definition sectorDivs_declared : list Sel :=
  [ sectorFundBreakdownDivSelector;
    sectorBreakdownDivSelector;
    sectorIndustryDivSelector;
    sectorSubIndustryDivSelector ].

Definition findSectors_declared (doc : Document) : Result (slice models.WeightData) :=
  let sectorDiv := sectorDiv_loop doc sectorDivs_declared [] in
  if (Length sectorDiv =? 0)%nat then Err ErrNotFound
  else
    Ok (Each (Find (Find sectorDiv tableSelector) rowSelector) sectorsRow (Some [])).

(** ** Documents and environments used as concrete inputs *)

Module Inputs.
Import Sample.

Definition holdings : Node :=
  holdings_section "Fund Top Holdings"
    [ header_row ["Name"; "Shares Held"; "Weight"];
      row "Apple Inc." ["169,000"; "7.10%"] ].

Definition sectors : Node :=
  fund_component "Fund Sector Breakdown"
    [ header_row ["Sector"; "Weight"]; row "Technology" ["30.1%"] ].

Definition index_sectors : Node :=
  fund_component "Index Sector Breakdown"
    [ header_row ["Sector"; "Weight"]; row "Financials" ["12.9%"] ].

(** A complete page. *)
Definition full : Document :=
  page [ ticker "SPY"; about "desc"; holdings; sectors ].

(** Identity, description and sectors, but no holdings section. *)
Definition no_holdings : Document :=
  page [ ticker "AAA"; about "desc"; sectors ].

(** Identity, description and holdings, but none of the sector sections. *)
Definition no_sectors : Document :=
  page [ ticker "AAA"; about "desc"; holdings ].

(** No ticker element at all. *)
Definition no_ticker : Document :=
  page [ about "desc"; holdings; sectors ].

(** A ticker element holding white space only. *)
Definition blank_ticker : Document :=
  page [ ticker "  "; about "desc"; holdings; sectors ].

(** A fund and an index sector breakdown side by side. *)
Definition two_breakdowns : Document :=
  page [ ticker "SPY"; about "desc"; holdings; sectors; index_sectors ].

(** Cells with white space around their text, as markup usually has. *)
Definition padded_holdings : Document :=
  page [ ticker "SPY"; about "desc";
         holdings_section "Fund Top Holdings"
           [ header_row ["Name"; "Shares Held"; "Weight"];
             row " Apple Inc. " [" 169,000 "; " 7.10% "];
             row "Index only" ["5"];
             row "" ["1"; "2"] ];
         sectors ].

(** A complete page whose geographical input holds no JSON. *)
Definition empty_geo : Document :=
  page [ ticker "SPY"; about "desc"; holdings; sectors; geo_input "" ].

(** A decoder for pages without geographical data: the only value it is
    ever given is the empty one, which is not JSON. *)
Definition no_geo (value : string) : string + models.GeographicalData :=
  inl "unexpected end of JSON input".

(** Every path answers with a page whose body is its own text, but for
    one whose request fails and one that answers the complete page with
    status 500; the parser maps three bodies to pages. *)
Definition parse (htmlContent : string) : Result Document :=
  if String.eqb htmlContent "full" then Ok full
  else if String.eqb htmlContent "no_ticker" then Ok no_ticker
  else if String.eqb htmlContent "no_holdings" then Ok no_holdings
  else Ok (page []).

Definition site (paths : Result (list string)) : Env :=
  {| getPaths := paths;
     getPaths_logged := [];
     http_Get := fun url =>
       if String.eqb url "https://host/down"
       then Err (ErrNew "Get: timeout")
       else if String.eqb url "https://host/error"
       then Ok {| StatusCode := 500; Body := Ok "full" |}
       else Ok {| StatusCode := 200;
                  Body := Ok (substring 13 (String.length url) url) |};
     NewDocumentFromReader := parse;
     Unmarshal := no_geo;
     db_faults := fun _ => None;
     NOW := fun n => (1700000000 + Z.of_nat n)%Z |}.

Definition empty_world : World :=
  {| etfs := ∅; upserts := []; log := [] |}.

(** A batch of two paths, one that is stored and one whose fetch fails, and
    a schedule that starts both workers before either runs. *)
Definition two_paths : Env := site (Ok ["/full"; "/down"]).

Definition interleaved : list Action :=
  [ StepMain;                                   (* getPaths *)
    StepMain; StepMain; StepMain;               (* "/full" is started *)
    StepMain; StepMain; StepMain;               (* "/down" is started *)
    StepWorker 1;                               (* "/down" runs first *)
    StepWorker 0; StepWorker 0; StepWorker 0;   (* "/full" runs and leaves *)
    StepWorker 0; StepWorker 0;                 (* "/down" leaves *)
    StepMain; StepMain ].                       (* the loop ends; wg.Wait() *)

(** Fifty-one paths, and the schedule in which the main goroutine runs
    alone for as long as it can. *)
Definition many_paths : Env :=
  site (Ok (map (fun n => "/" +:+ String (ascii_of_nat (48 + n)) "") (seq 0 51))).

Definition main_only : list Action := repeat StepMain (1 + 3 * 50 + 1).

Definition gate_full : Batch :=
  Eval vm_compute in
    default (start empty_world)
            (run "https://host" many_paths main_only (start empty_world)).

Definition drained : Batch :=
  Eval vm_compute in
    default (start empty_world)
            (run "https://host" two_paths interleaved (start empty_world)).

End Inputs.

(** ** Accounting for the batch *)

(** The slot the main goroutine has taken for a worker it has yet to start,
    and the count it has added to the WaitGroup for it. *)
Definition main_slot (pc : MainPc) : nat :=
  match pc with AtGo _ => 1 | _ => 0 end.

Definition main_added (pc : MainPc) : nat :=
  match pc with AtAcquire _ | AtGo _ => 1 | _ => 0 end.

Definition main_item (pc : MainPc) : list string :=
  match pc with AtAcquire path | AtGo path => [path] | _ => [] end.

Definition is_running (w : string * WorkerPc) : bool :=
  match snd w with InUpdateETF => true | _ => false end.

(** The paths whose [updateETF] has yet to run. *)
Definition running (ws : list (string * WorkerPc)) : list string :=
  map fst (List.filter is_running ws).

(** The steps a goroutine has left. *)
Definition worker_left (w : string * WorkerPc) : nat :=
  match snd w with InUpdateETF => 3 | AtRelease => 2 | AtDone => 1 end.

Definition main_left (env : Env) (pc : MainPc) : nat :=
  match pc with
  | AtGetPaths =>
      match getPaths env with
      | Ok fetchPaths => 3 + 6 * length fetchPaths
      | Err _ => 1
      end
  | AtRange => 2
  | AtAcquire _ => 7
  | AtGo _ => 6
  | AtWait => 1
  | Returned _ => 0
  end.

Definition steps_left (env : Env) (s : Batch) : nat :=
  main_left env (main s) + 6 * length (remaining s)
  + list_sum (map worker_left (workers s)).

Definition pipelines (host : string) (env : Env) (paths : list string)
    (w : World) : World :=
  fold_left (fun w path => updateETF host env path w) paths w.

(** What holds of every state of a batch started in the world [w0]. *)
Definition Inv (host : string) (env : Env) (w0 : World) (s : Batch) : Prop :=
  world s = pipelines host env (completed s)
              (match main s with
               | AtGetPaths => w0
               | _ => logged_all (getPaths_logged env) w0
               end) /\
  semaphore s = in_flight s + main_slot (main s) /\
  semaphore s <= semaphoreCapacity /\
  wg s = length (workers s) + main_added (main s) /\
  match main s with
  | AtGetPaths => remaining s = [] /\ workers s = [] /\ completed s = []
  | Returned (Some e) =>
      exists err, getPaths env = Err err /\
                  e = Errorf "failed to get data paths: " err /\
                  workers s = [] /\ completed s = [] /\ remaining s = []
  | pc =>
      exists fetchPaths,
        getPaths env = Ok fetchPaths /\
        completed s ++ running (workers s) ++ main_item pc ++ remaining s
          ≡ₚ fetchPaths /\
        match pc with
        | AtWait => remaining s = []
        | Returned _ => remaining s = [] /\ wg s = 0
        | _ => True
        end
  end.

(** ** Reading the sector table row by row *)

(** The rows [findSectors] iterates over: every [tr] below a data table
    below what the candidate loop has found. *)
Definition sector_rows (doc : Document) : Selection :=
  Find (Find (sectorDiv_loop doc sectorDivs []) tableSelector) rowSelector.

(** What a row after the first contributes to the sectors. *)
Definition row_sector (row : Loc) : list models.WeightData :=
  if nonempty (row_label row)
  then [ {| models.w_Name := row_label row; models.w_Weight := row_data row 0 |} ]
  else [].

(** The value of the geographical input of a document. *)
Definition geo_value (doc : Document) : string :=
  AttrOr (Find (doc_selection doc) geographicalSelector) "value" "".

(** A slice as [json.Marshal] writes it when it was grown by [append] from
    nil: null while nothing was appended. *)
Definition grown_json {A} (f : A -> json.value) (l : list A) : json.value :=
  match l with
  | [] => json.Null
  | _ :: _ => json.Arr (map f l)
  end.

(** The slice [append] has grown from nil out of the elements [l]: still
    nil when there are none. *)
Definition grown {A} (l : list A) : slice A :=
  match l with
  | [] => None
  | _ :: _ => Some l
  end.

(** ** [getPaths]: the listing page *)

Definition etfFinerWithFilter : string :=
  "/us/en/individual/etfs/fund-finder?g=assetclass%3Aequity&tab=overview".

(** [strings.Index]: the index of the first occurrence of [substr], none
    where Go gives -1. *)
Fixpoint Index (s substr : string) : option nat :=
  if strings.HasPrefix s substr then Some 0
  else
    match s with
    | EmptyString => None
    | String _ s' => S <$> Index s' substr
    end.

(** The closure [cleanURL] of [getPaths]. *)
Definition cleanURL (url : string) : string :=
  match Index url "#" with
  | Some index => substring 0 index url
  | None => url
  end.

(** The tokens of [html.Tokenizer]. *)
Inductive TokenType :=
| ErrorToken | TextToken | StartTagToken | EndTagToken | SelfClosingTagToken
| CommentToken | DoctypeToken.

Record Token := {
  tok_Type : TokenType;
  tok_Data : string;
  tok_Attr : list Attribute
}.

(** The loop over the attributes of an anchor. *)
Definition add_hrefs (attrs : list Attribute) (urls : gset string) : gset string :=
  fold_left (fun (urls : gset string) attr =>
               if String.eqb (Key attr) "href"
               then {[ cleanURL (Val attr) ]} ∪ urls
               else urls)
            attrs urls.

(** The loop over the tokens.  It ends at the first [ErrorToken]; a
    tokenizer that has read all its input gives that token, which is how
    the end of the list is read. *)
Fixpoint getPaths_urls (tokens : list Token) (urls : gset string) : gset string :=
  match tokens with
  | [] => urls
  | token :: rest =>
      match tok_Type token with
      | ErrorToken => urls
      | StartTagToken | SelfClosingTagToken =>
          if negb (String.eqb (tok_Data token) "a")
          then getPaths_urls rest urls
          else getPaths_urls rest (add_hrefs (tok_Attr token) urls)
      | _ => getPaths_urls rest urls
      end
  end.

(** What the browser does in one session: the error of each call, if any,
    and the inner HTML of ".tab-content" as the tokenizer reads it. *)
Record Session := {
  playwright_Run : option error;
  Chromium_Launch : option error;
  browser_NewPage : option error;
  page_Goto : string -> option error;
  page_WaitForLoadState : option error;
  page_InnerHTML : Result (list Token);
  browser_Close : option error;
  pw_Stop : option error
}.

Inductive BrowserCall :=
| DoRun | DoLaunch | DoNewPage | DoGoto (url : string) | DoWaitForLoadState
| DoInnerHTML | DoClose | DoStop.

Definition log_if (prefix : string) (err : option error) : list LogEntry :=
  match err with
  | Some e => [LogError (prefix +:+ Error e)]
  | None => []
  end.

(** [getPaths] in full: what it returns, the calls it has made on the
    browser, and what it has logged.  (The batch has the first and the last
    in [getPaths env] and [getPaths_logged env]; [browsed] ties them to a
    session.) *)
Definition getPaths_session (host : string) (b : Session)
    : Result (gset string) * list BrowserCall * list LogEntry :=
  match playwright_Run b with
  | Some err => (Err (Errorf "could not launch playwright, err: " err), [DoRun], [])
  | None =>
  match Chromium_Launch b with
  | Some err =>
      (Err (Errorf "could not launch Chromium, err: " err), [DoRun; DoLaunch], [])
  | None =>
  match browser_NewPage b with
  | Some err =>
      (Err (Errorf "could not create page, err: " err),
       [DoRun; DoLaunch; DoNewPage], [])
  | None =>
  let url := host +:+ etfFinerWithFilter in
  match page_Goto b url with
  | Some err =>
      (Err (Errorf "could not navigate to the URL, err: " err),
       [DoRun; DoLaunch; DoNewPage; DoGoto url], [])
  | None =>
  match page_WaitForLoadState b with
  | Some err =>
      (Err (Errorf "could not wait for load state, err: " err),
       [DoRun; DoLaunch; DoNewPage; DoGoto url; DoWaitForLoadState], [])
  | None =>
  match page_InnerHTML b with
  | Err err =>
      (Err (Errorf "could not get HTML content, err: " err),
       [DoRun; DoLaunch; DoNewPage; DoGoto url; DoWaitForLoadState; DoInnerHTML],
       [])
  | Ok tokens =>
      (Ok (getPaths_urls tokens ∅),
       [DoRun; DoLaunch; DoNewPage; DoGoto url; DoWaitForLoadState; DoInnerHTML;
        DoClose; DoStop],
       log_if "Could not close the browser: " (browser_Close b)
       ++ log_if "Could not stop Playwright: " (pw_Stop b))
  end end end end end end.

(** The tokens the loop reads: those before the first [ErrorToken]. *)
Fixpoint tokens_read (tokens : list Token) : list Token :=
  match tokens with
  | [] => []
  | token :: rest =>
      match tok_Type token with
      | ErrorToken => []
      | _ => token :: tokens_read rest
      end
  end.

Definition is_anchor (token : Token) : bool :=
  match tok_Type token with
  | StartTagToken | SelfClosingTagToken => String.eqb (tok_Data token) "a"
  | _ => false
  end.

(** The values of the [href] attributes of the anchors read, in order. *)
Definition hrefs (tokens : list Token) : list string :=
  flat_map (fun token =>
              if is_anchor token
              then map Val (List.filter (fun a => String.eqb (Key a) "href")
                                        (tok_Attr token))
              else [])
           (tokens_read tokens).

(** An anchor tag with one [href]. *)
Definition anchor (href : string) : Token :=
  {| tok_Type := StartTagToken; tok_Data := "a";
     tok_Attr := [ {| Key := "href"; Val := href |} ] |}.

(** The discovery of a batch is the browser session [b]: [getPaths]
    returns the keys of the session's map, in the order in which [range]
    visits them, or the session's error, and it has logged what the session
    logs. *)
Definition browsed (host : string) (b : Session) (env : Env) : Prop :=
  getPaths_logged env = (getPaths_session host b).2 /\
  match (getPaths_session host b).1.1 with
  | Ok urls =>
      exists fetchPaths,
        getPaths env = Ok fetchPaths /\ NoDup fetchPaths /\
        forall path, In path fetchPaths <-> path ∈ urls
  | Err err => getPaths env = Err err
  end.

(** A session that reads two links, and then fails to close the browser
    and to stop Playwright; and the site of [Inputs.two_paths] discovered by
    that session. *)
Definition unclosed : Session :=
  {| playwright_Run := None;
     Chromium_Launch := None;
     browser_NewPage := None;
     page_Goto := fun _ => None;
     page_WaitForLoadState := None;
     page_InnerHTML := Ok [anchor "/full"; anchor "/down"];
     browser_Close := Some (ErrNew "target closed");
     pw_Stop := Some (ErrNew "driver gone") |}.

Definition unclosed_site : Env :=
  {| getPaths := Ok ["/full"; "/down"];
     getPaths_logged := (getPaths_session "https://host" unclosed).2;
     http_Get := http_Get Inputs.two_paths;
     NewDocumentFromReader := NewDocumentFromReader Inputs.two_paths;
     Unmarshal := Unmarshal Inputs.two_paths;
     db_faults := db_faults Inputs.two_paths;
     NOW := NOW Inputs.two_paths |}.

(** ** The storage gateway's reads *)

(** [Database.GetByID]: the row is scanned into the four fields of the
    record; the column [data], of type JSONB, gives the document in its
    JSONB form.  [fault] is what the driver reports, if anything, other than
    [sql.ErrNoRows]. *)
Definition GetByID (fault : option error) (id : string) (w : World)
    : Result models.ETF :=
  match fault with
  | Some err => Err err
  | None =>
      match etfs w !! id with
      | None => Err (ErrNew "ETF not found")            (* sql.ErrNoRows *)
      | Some row => Ok {| models.ID := id;
                          models.Data := json.jsonb (col_data row);
                          models.CreatedAt := col_created_at row;
                          models.UpdatedAt := col_updated_at row |}
      end
  end.

(** The JSONB form of the documents [ToJson] writes, written out. *)
Definition Holding_jsonb (h : models.Holding) : json.value :=
  json.Obj [("name", json.Marshal_string (models.h_Name h));
            ("weight", json.Marshal_string (models.h_Weight h));
            ("shares_held", json.Marshal_string (models.h_SharesHeld h))].

Definition ToJsonb (m : models.ETFData) : json.value :=
  json.Obj ([("name", json.Marshal_string (models.Name m))]
            ++ json.omitempty "sectors" models.WeightData_json (models.Sectors m)
            ++ [("countries",
                 json.Marshal_slice models.WeightData_json (models.Countries m));
                ("description", json.Marshal_string (models.Description m));
                ("top_holdings",
                 json.Marshal_slice Holding_jsonb (models.TopHoldings m))]).

(** [Database.GetAllIDs]: the ids are appended to a nil slice, row by row;
    [fault] is the error of the query, of a scan or of the iteration.  The
    query has no ORDER BY: the rows come in the order [map_to_list] has
    them. *)
Definition GetAllIDs (fault : option error) (w : World) : Result (slice string) :=
  match fault with
  | Some err => Err err
  | None => Ok (fold_left append (map fst (map_to_list (store w))) nil_slice)
  end.


(** ** A path's pipeline, seen from the table *)

(** The record a path's pipeline gets to build: the request, the body, the
    parse and the extraction, each of which can fail. *)
Definition fetched (host : string) (env : Env) (path : string) : Result models.ETF :=
  let? resp := http_Get env (host +:+ path) in
  let? htmlContent := Body resp in
  let? doc := NewDocumentFromReader env htmlContent in
  buildETF (Unmarshal env) doc.

(** The record it leaves in the table, when it leaves one. *)
Definition stored_by (host : string) (env : Env) (path : string)
    : option models.ETF :=
  match fetched host env path with
  | Ok etf =>
      match db_faults env etf with
      | None => Some etf
      | Some _ => None
      end
  | Err _ => None
  end.

Definition put (m : gmap string json.value) (etf : models.ETF)
    : gmap string json.value :=
  <[models.ID etf := models.Data etf]> m.

Definition is_error_entry (entry : LogEntry) : bool :=
  match entry with LogError _ => true | _ => false end.

(** A second schedule for the batch of two paths: each worker runs to its
    end before the next path is started. *)
Definition one_by_one : list Action :=
  [ StepMain;
    StepMain; StepMain; StepMain; StepWorker 0; StepWorker 0; StepWorker 0;
    StepMain; StepMain; StepMain; StepWorker 0; StepWorker 0; StepWorker 0;
    StepMain; StepMain ].

Definition is_sleep (e : Event) : bool :=
  match e with Sleep _ => true | _ => false end.

(** The hours a trace sleeps. *)
Fixpoint hours_slept (evs : list Event) : nat :=
  match evs with
  | [] => 0
  | Sleep hours :: rest => hours + hours_slept rest
  | _ :: rest => hours_slept rest
  end.

(** ** internal/server.go and internal/handlers.go

    A response is followed through its status and its body; the header
    fields are left out.  As in [net/http], the first status written is the
    one that stays, a write before any status writes 200, and a write may
    fail because the connection is gone. *)

Module http.

Definition StatusOK : nat := 200.
Definition StatusBadRequest : nat := 400.
Definition StatusUnauthorized : nat := 401.
Definition StatusInternalServerError : nat := 500.

Inductive Chunk :=
| JSON (v : json.value)
| Plain (s : string).

Record ResponseWriter := {
  status : option nat;          (* the status written, if any *)
  body : list Chunk;            (* what has been written *)
  broken : option error         (* the error every write meets, if any *)
}.

Definition WriteHeader (code : nat) (w : ResponseWriter) : ResponseWriter :=
  match status w with
  | Some _ => w
  | None => {| status := Some code; body := body w; broken := broken w |}
  end.

Definition Write (chunk : Chunk) (w : ResponseWriter)
    : option error * ResponseWriter :=
  let w := WriteHeader StatusOK w in
  match broken w with
  | Some err => (Some err, w)
  | None => (None, {| status := status w; body := body w ++ [chunk];
                      broken := broken w |})
  end.

(** [http.Error]: the status, then the message and a newline. *)
Definition Error (w : ResponseWriter) (msg : string) (code : nat) : ResponseWriter :=
  snd (Write (Plain (msg +:+ String (ascii_of_nat 10) "")) (WriteHeader code w)).

Record Request := {
  Authorization : string;          (* r.Header.Get("Authorization") *)
  FormValue : string -> string;
  Vars : string -> string;         (* mux.Vars(r) *)
  username : option string         (* the value under "username" in the context *)
}.

Definition fresh : ResponseWriter :=
  {| status := None; body := []; broken := None |}.

End http.

(** What the API layer is given: the rows of the table [users], the error
    its reads of the database meet, the digest, the decoder of a stored
    payload, and the signing and parsing of tokens with the time of
    [jwt.TimeFunc] in seconds. *)
Record Api := {
  users : list (string * string);
  read_fault : option error;
  sha256 : string -> string;
  UnmarshalETFData : json.value -> string + models.ETFData;
  ParseWithClaims : string -> string -> Result (string * bool);
  SignedString : string -> Z -> string -> Result string;
  TimeFunc : Z
}.

(** [hex.EncodeToString]. *)
Definition hexdigit (n : nat) : ascii :=
  nth n (list_ascii_of_string "0123456789abcdef") "0"%char.

Fixpoint EncodeToString (src : string) : string :=
  match src with
  | EmptyString => EmptyString
  | String c rest =>
      String (hexdigit (nat_of_ascii c / 16))
        (String (hexdigit (nat_of_ascii c mod 16)) (EncodeToString rest))
  end.

Section Handlers.

Variable api : Api.
Variable jwtSecret : string.

Definition toHash (input : string) : string := EncodeToString (sha256 api input).

(** [Database.UserExists]: SELECT EXISTS over the rows with that username
    and that password column. *)
Definition Database_UserExists (username password : string) : Result bool :=
  match read_fault api with
  | Some err => Err err
  | None =>
      Ok (existsb (fun row => String.eqb (fst row) username
                              && String.eqb (snd row) password)
                  (users api))
  end.


Definition GetETF (ticker : string) (db : World) : Result models.ETFData :=
  let? etf := GetByID (read_fault api) ticker db in
  match UnmarshalETFData api (models.Data etf) with
  | inl msg => Err (ErrNew msg)
  | inr data => Ok data
  end.

Definition UserExists (username password : string) : Result bool :=
  Database_UserExists username (toHash password).

(** [WriteJSONResponse]; [data] is what [json.Marshal] makes of the value. *)
Definition WriteJSONResponse (w : http.ResponseWriter) (data : Result json.value)
    : http.ResponseWriter :=
  match data with
  | Err _ => http.Error w "Failed to marshal JSON" http.StatusInternalServerError
  | Ok jsonData =>
      match http.Write (http.JSON jsonData) w with
      | (Some _, w') =>
          http.Error w' "Failed to write JSON response" http.StatusInternalServerError
      | (None, w') => w'
      end
  end.

(** The token expires 24 hours after it is made. *)
Definition generateToken (username : string) : Result string :=
  SignedString api username (TimeFunc api + 24 * 3600)%Z jwtSecret.

Definition LoginHandler (w : http.ResponseWriter) (r : http.Request)
    : http.ResponseWriter :=
  let username := http.FormValue r "username" in
  let password := http.FormValue r "password" in
  match UserExists username password with
  | Err _ => http.WriteHeader http.StatusInternalServerError w
  | Ok exists_ =>
      if negb exists_ then http.WriteHeader http.StatusUnauthorized w
      else
        match generateToken username with
        | Err _ => http.WriteHeader http.StatusInternalServerError w
        | Ok token =>
            WriteJSONResponse (http.WriteHeader http.StatusOK w) (Ok (json.Str token))
        end
  end.

Definition Handler := http.ResponseWriter -> http.Request -> http.ResponseWriter.

Definition RequireTokenAuthentication (next : Handler) : Handler :=
  fun w r =>
    let tokenString := http.Authorization r in
    if String.eqb tokenString "" then http.WriteHeader http.StatusUnauthorized w
    else
      match ParseWithClaims api tokenString jwtSecret with
      | Err _ => http.WriteHeader http.StatusUnauthorized w
      | Ok (claims_Username, Valid) =>
          if Valid
          then next w {| http.Authorization := http.Authorization r;
                         http.FormValue := http.FormValue r;
                         http.Vars := http.Vars r;
                         http.username := Some claims_Username |}
          else http.WriteHeader http.StatusUnauthorized w
      end.


Definition GetETFDataHandler (db : World) : Handler :=
  fun w r =>
    let ticker := http.Vars r "ticker" in
    if String.eqb ticker "" then http.WriteHeader http.StatusBadRequest w
    else
      match GetETF ticker db with
      | Err _ => http.WriteHeader http.StatusInternalServerError w
      | Ok etf =>
          WriteJSONResponse (http.WriteHeader http.StatusOK w) (Ok (models.ToJson etf))
      end.

End Handlers.

(** * Properties *)

(** ** Selections and strings *)

Lemma Length_0_nil (s : Selection) : Length s = 0 -> s = [].
Proof. destruct s; [reflexivity | discriminate]. Qed.

Lemma Length_eqb_pos (s : Selection) : Length s <> 0 -> (Length s =? 0)%nat = false.
Proof. intros H. apply Nat.eqb_neq. exact H. Qed.

Lemma eqb_empty_false (s : string) : s <> "" -> String.eqb s "" = false.
Proof. intros H. apply String.eqb_neq. exact H. Qed.

Lemma nonempty_true (s : string) : s <> "" -> nonempty s = true.
Proof. intros H. unfold nonempty. rewrite eqb_empty_false; auto. Qed.

Lemma nonempty_false (s : string) : s = "" -> nonempty s = false.
Proof. intros ->. reflexivity. Qed.

(** The ticker text of a document without a ticker element trims to the
    empty string. *)
Lemma absent_ticker_trims_to_empty (doc : Document) :
  Length (Find (doc_selection doc) tickerSelector) = 0 ->
  strings.TrimSpace (Text (Find (doc_selection doc) tickerSelector)) = "".
Proof. intros H. rewrite (Length_0_nil _ H). reflexivity. Qed.

(** ** The extractor's early exits *)

Lemma buildETF_no_name U (doc : Document) :
  strings.TrimSpace (Text (Find (doc_selection doc) tickerSelector)) = "" ->
  buildETF U doc = Err (ErrNew "not found name").
Proof. intros H. unfold buildETF. cbv zeta. rewrite H. reflexivity. Qed.

(** Past the checks of the name and the description, [buildETF] is decided
    by the three lookups. *)
Lemma buildETF_lookups U (doc : Document) :
  strings.TrimSpace (Text (Find (doc_selection doc) tickerSelector)) <> "" ->
  Text (Find (doc_selection doc) descriptionSelector) <> "" ->
  buildETF U doc =
    (let? topHoldings := wrap "findHoldings returns: " (findHoldings doc) in
     let? sectors := wrap "findSectors returns: " (findSectors doc) in
     let? countries := wrap "findCountries returns: "
                         (countries_or_absent (findCountries U doc)) in
     let etfData :=
       {| models.Name :=
            strings.TrimSpace (Text (Find (doc_selection doc) tickerSelector));
          models.Description := Text (Find (doc_selection doc) descriptionSelector);
          models.TopHoldings := topHoldings;
          models.Countries := countries;
          models.Sectors := sectors |} in
     Ok {| models.ID := models.Name etfData;
           models.Data := models.ToJson etfData;
           models.CreatedAt := time.zero;
           models.UpdatedAt := time.zero |}).
Proof.
  intros Hname Hdescr. unfold buildETF. cbv zeta.
  rewrite (eqb_empty_false _ Hname), (eqb_empty_false _ Hdescr). reflexivity.
Qed.

(** Whatever the name and the description are, a failed holdings lookup
    leaves no way for [buildETF] to succeed. *)
Lemma buildETF_needs_holdings U (doc : Document) e :
  findHoldings doc = Err e -> is_Ok (buildETF U doc) = false.
Proof.
  intros H. unfold buildETF. cbv zeta.
  destruct (String.eqb _ ""); [reflexivity |].
  destruct (String.eqb _ ""); [reflexivity |].
  rewrite H. reflexivity.
Qed.

Lemma buildETF_needs_sectors U (doc : Document) e :
  findSectors doc = Err e -> is_Ok (buildETF U doc) = false.
Proof.
  intros H. unfold buildETF. cbv zeta.
  destruct (String.eqb _ ""); [reflexivity |].
  destruct (String.eqb _ ""); [reflexivity |].
  destruct (wrap "findHoldings returns: " (findHoldings doc)); [| reflexivity].
  rewrite H. reflexivity.
Qed.

Lemma findHoldings_absent (doc : Document) :
  Length (Find (doc_selection doc) topHoldingsSectionSelector) = 0 ->
  findHoldings doc = Err ErrNotFound.
Proof. intros H. unfold findHoldings. cbv zeta. rewrite H. reflexivity. Qed.

Lemma findHoldings_present (doc : Document) :
  Length (Find (doc_selection doc) topHoldingsSectionSelector) <> 0 ->
  findHoldings doc = Ok (Each (holdings_rows doc) holdingsRow nil_slice).
Proof.
  intros H. unfold findHoldings. cbv zeta.
  rewrite (Length_eqb_pos _ H). reflexivity.
Qed.

(** The loop over the candidates: it is left with the first lookup that
    found something, and with an empty selection when none did. *)
Lemma sectorDiv_loop_none (doc : Document) candidates sectorDiv :
  Length sectorDiv = 0 ->
  (forall sel, In sel candidates -> Length (Find (doc_selection doc) sel) = 0) ->
  Length (sectorDiv_loop doc candidates sectorDiv) = 0.
Proof.
  revert sectorDiv. induction candidates as [| sel rest IH]; intros sectorDiv H0 Hall.
  - exact H0.
  - simpl. pose proof (Hall sel (or_introl eq_refl)) as Hsel.
    rewrite Hsel. simpl. apply IH; [exact Hsel |].
    intros s Hs. apply Hall. right. exact Hs.
Qed.

Lemma sectorDiv_loop_first (doc : Document) pre sel post sectorDiv :
  (forall s, In s pre -> Length (Find (doc_selection doc) s) = 0) ->
  Length (Find (doc_selection doc) sel) <> 0 ->
  sectorDiv_loop doc (pre ++ sel :: post) sectorDiv = Find (doc_selection doc) sel.
Proof.
  revert sectorDiv. induction pre as [| s pre IH]; intros sectorDiv Hpre Hsel.
  - simpl. rewrite (Length_eqb_pos _ Hsel). reflexivity.
  - simpl. rewrite (Hpre s (or_introl eq_refl)). simpl.
    apply IH; [| exact Hsel]. intros s' Hs'. apply Hpre. right. exact Hs'.
Qed.

Lemma findSectors_absent (doc : Document) :
  (forall sel, In sel sectorDivs -> Length (Find (doc_selection doc) sel) = 0) ->
  findSectors doc = Err ErrNotFound.
Proof.
  intros H. unfold findSectors. cbv zeta.
  rewrite (sectorDiv_loop_none doc sectorDivs [] eq_refl H). reflexivity.
Qed.

(** ** Missing holdings *)

(** C1, as stated, fails: on a page with a name, a description and a sector
    breakdown but no holdings section, [buildETF] returns an error; so it is
    not true that extraction succeeds whenever the holdings section is
    absent. *)
Lemma holdings_absent_counterexample :
  Length (Find (doc_selection Inputs.no_holdings) topHoldingsSectionSelector) = 0 /\
  buildETF Inputs.no_geo Inputs.no_holdings
    = Err (ErrNew "findHoldings returns: not found") /\
  ~ (forall U doc,
       Length (Find (doc_selection doc) topHoldingsSectionSelector) = 0 ->
       exists etf, buildETF U doc = Ok etf).
Proof.
  split; [vm_compute; reflexivity |].
  split; [vm_compute; reflexivity |].
  intros H.
  destruct (H Inputs.no_geo Inputs.no_holdings) as [etf Hetf];
    [vm_compute; reflexivity |].
  vm_compute in Hetf. discriminate Hetf.
Qed.

(** C1, amended: when the holdings section is absent, [findHoldings] reports
    [ErrNotFound] and [buildETF] fails for that item; once the name and the
    description are there, the error is "findHoldings returns: not found". *)
Theorem holdings_absent_is_fatal U (doc : Document)
    (Habsent : Length (Find (doc_selection doc) topHoldingsSectionSelector) = 0) :
  findHoldings doc = Err ErrNotFound /\
  is_Ok (buildETF U doc) = false /\
  (strings.TrimSpace (Text (Find (doc_selection doc) tickerSelector)) <> "" ->
   Text (Find (doc_selection doc) descriptionSelector) <> "" ->
   buildETF U doc = Err (ErrNew "findHoldings returns: not found")).
Proof.
  pose proof (findHoldings_absent doc Habsent) as Hfind.
  split; [exact Hfind |].
  split; [exact (buildETF_needs_holdings U doc _ Hfind) |].
  intros Hname Hdescr.
  rewrite (buildETF_lookups U doc Hname Hdescr), Hfind. reflexivity.
Qed.

Lemma holdings_absent_is_fatal_witness :
  Length (Find (doc_selection Inputs.no_holdings) topHoldingsSectionSelector) = 0 /\
  findHoldings Inputs.no_holdings = Err ErrNotFound.
Proof.
  assert (H : Length (Find (doc_selection Inputs.no_holdings)
                           topHoldingsSectionSelector) = 0)
    by (vm_compute; reflexivity).
  split; [exact H |].
  exact (proj1 (holdings_absent_is_fatal Inputs.no_geo Inputs.no_holdings H)).
Defined.

(** ** Missing sector breakdown *)

(** C3, as stated, fails: on a page with a name, a description and holdings
    but none of the four sector sections, [buildETF] returns an error. *)
Lemma sectors_absent_counterexample :
  (forall sel, In sel sectorDivs ->
     Length (Find (doc_selection Inputs.no_sectors) sel) = 0) /\
  buildETF Inputs.no_geo Inputs.no_sectors
    = Err (ErrNew "findSectors returns: not found") /\
  ~ (forall U doc,
       (forall sel, In sel sectorDivs -> Length (Find (doc_selection doc) sel) = 0) ->
       exists etf, buildETF U doc = Ok etf).
Proof.
  assert (Hnone : forall sel, In sel sectorDivs ->
            Length (Find (doc_selection Inputs.no_sectors) sel) = 0).
  { intros sel [<- | [<- | [<- | [<- | []]]]]; vm_compute; reflexivity. }
  split; [exact Hnone |].
  split; [vm_compute; reflexivity |].
  intros H. destruct (H Inputs.no_geo Inputs.no_sectors Hnone) as [etf Hetf].
  vm_compute in Hetf. discriminate Hetf.
Qed.

(** C3, amended: when none of the four candidate sections is present,
    [findSectors] reports [ErrNotFound] and [buildETF] fails for that item;
    once the name, the description and the holdings section are there, the
    error is "findSectors returns: not found". *)
Theorem sectors_absent_is_fatal U (doc : Document)
    (Hfund : Length (Find (doc_selection doc) sectorFundBreakdownDivSelector) = 0)
    (Hsector : Length (Find (doc_selection doc) sectorBreakdownDivSelector) = 0)
    (Hindustry : Length (Find (doc_selection doc) sectorIndustryDivSelector) = 0)
    (Hsub : Length (Find (doc_selection doc) sectorSubIndustryDivSelector) = 0) :
  findSectors doc = Err ErrNotFound /\
  is_Ok (buildETF U doc) = false /\
  (strings.TrimSpace (Text (Find (doc_selection doc) tickerSelector)) <> "" ->
   Text (Find (doc_selection doc) descriptionSelector) <> "" ->
   Length (Find (doc_selection doc) topHoldingsSectionSelector) <> 0 ->
   buildETF U doc = Err (ErrNew "findSectors returns: not found")).
Proof.
  assert (Hfind : findSectors doc = Err ErrNotFound).
  { apply findSectors_absent.
    intros sel [<- | [<- | [<- | [<- | []]]]]; assumption. }
  split; [exact Hfind |].
  split; [exact (buildETF_needs_sectors U doc _ Hfind) |].
  intros Hname Hdescr Hholdings.
  rewrite (buildETF_lookups U doc Hname Hdescr),
    (findHoldings_present doc Hholdings), Hfind.
  reflexivity.
Qed.

Lemma sectors_absent_is_fatal_witness :
  (forall sel, In sel sectorDivs ->
     Length (Find (doc_selection Inputs.no_sectors) sel) = 0) /\
  findSectors Inputs.no_sectors = Err ErrNotFound /\
  is_Ok (buildETF Inputs.no_geo Inputs.no_sectors) = false.
Proof.
  assert (H0 : forall sel, In sel sectorDivs ->
            Length (Find (doc_selection Inputs.no_sectors) sel) = 0).
  { intros sel [<- | [<- | [<- | [<- | []]]]]; vm_compute; reflexivity. }
  pose proof (sectors_absent_is_fatal Inputs.no_geo Inputs.no_sectors
                (H0 _ (or_intror (or_intror (or_intror (or_introl eq_refl)))))
                (H0 _ (or_introl eq_refl))
                (H0 _ (or_intror (or_introl eq_refl)))
                (H0 _ (or_intror (or_intror (or_introl eq_refl))))) as H.
  split; [exact H0 |].
  split; [exact (proj1 H) | exact (proj1 (proj2 H))].
Defined.

(** ** Missing identity *)

(** C9: when the ticker element is absent, or its text is empty once
    trimmed, [buildETF] fails with "not found name"; and a pipeline that
    fetched such a page logs the failure and calls [Upsert] not at all: the
    calls made and the table are as before. *)
Theorem missing_identity_no_upsert (doc : Document)
    (Hmissing :
       Length (Find (doc_selection doc) tickerSelector) = 0 \/
       strings.TrimSpace (Text (Find (doc_selection doc) tickerSelector)) = "") :
  (forall U, buildETF U doc = Err (ErrNew "not found name")) /\
  (forall host env path w resp htmlContent,
     http_Get env (host +:+ path) = Ok resp ->
     Body resp = Ok htmlContent ->
     NewDocumentFromReader env htmlContent = Ok doc ->
     upserts (updateETF host env path w) = upserts w /\
     store (updateETF host env path w) = store w /\
     log (updateETF host env path w)
       = log w ++ [LogError ("Could not build ETF, error: not found name, URL: "
                             +:+ (host +:+ path))]).
Proof.
  assert (Hname : strings.TrimSpace (Text (Find (doc_selection doc) tickerSelector)) = "").
  { destruct Hmissing as [H | H]; [apply absent_ticker_trims_to_empty |]; exact H. }
  split.
  - intros U. apply buildETF_no_name. exact Hname.
  - intros host env path w resp htmlContent Hget Hbody Hparse.
    unfold updateETF. cbv zeta.
    rewrite Hget, Hbody, Hparse, (buildETF_no_name _ doc Hname).
    repeat split.
Qed.

Lemma missing_identity_no_upsert_witness :
  Length (Find (doc_selection Inputs.no_ticker) tickerSelector) = 0 /\
  buildETF Inputs.no_geo Inputs.no_ticker = Err (ErrNew "not found name") /\
  upserts (updateETF "https://host" (Inputs.site (Ok [])) "/no_ticker"
             Inputs.empty_world) = [].
Proof.
  assert (H : Length (Find (doc_selection Inputs.no_ticker) tickerSelector) = 0)
    by (vm_compute; reflexivity).
  destruct (missing_identity_no_upsert Inputs.no_ticker (or_introl H)) as [Hb Hu].
  split; [exact H |].
  split; [exact (Hb Inputs.no_geo) |].
  refine (proj1 (Hu "https://host" (Inputs.site (Ok [])) "/no_ticker"
                    Inputs.empty_world
                    {| StatusCode := 200; Body := Ok "no_ticker" |} "no_ticker"
                    _ _ _)); vm_compute; reflexivity.
Defined.

(** ** The rows of the holdings table *)

Lemma elems_append {A} (s : slice A) (x : A) : elems (append s x) = elems s ++ [x].
Proof. destruct s; reflexivity. Qed.

(** What the callback does on a row after the first. *)
Lemma holdingsRow_later (index : nat) (row : Loc) fundHoldings :
  (0 < index)%nat ->
  elems (holdingsRow index [row] fundHoldings) = elems fundHoldings ++ row_holding row.
Proof.
  intros Hpos. unfold holdingsRow, row_holding.
  fold (row_label row). fold (row_data row 1). fold (row_data row 0).
  rewrite (proj2 (Nat.ltb_lt 0 index) Hpos). simpl.
  destruct (nonempty (row_label row)); simpl;
    [destruct (nonempty (row_data row 1)); simpl |].
  - apply elems_append.
  - symmetry. apply app_nil_r.
  - symmetry. apply app_nil_r.
Qed.

(** On the first row it does nothing, whatever the row holds. *)
Lemma holdingsRow_header (row : Selection) fundHoldings :
  holdingsRow 0 row fundHoldings = fundHoldings.
Proof. reflexivity. Qed.

Lemma Each_from_holdingsRow (rows : Selection) (index : nat) fundHoldings :
  (0 < index)%nat ->
  elems (Each_from holdingsRow index rows fundHoldings)
    = elems fundHoldings ++ flat_map row_holding rows.
Proof.
  revert index fundHoldings.
  induction rows as [| row rows IH]; intros index fundHoldings Hpos; simpl.
  - symmetry. apply app_nil_r.
  - rewrite IH by lia. rewrite holdingsRow_later by exact Hpos.
    rewrite <- app_assoc. reflexivity.
Qed.

Lemma Each_holdingsRow (rows : Selection) :
  elems (Each rows holdingsRow nil_slice) = flat_map row_holding (tail rows).
Proof.
  unfold Each. destruct rows as [| header rows]; [reflexivity |].
  simpl. rewrite holdingsRow_header.
  rewrite Each_from_holdingsRow by lia. reflexivity.
Qed.

(** C4, as stated, fails: the fields are not trimmed.  On a table whose
    cells have white space around their text the holding keeps it. *)
Lemma holdings_trimmed_counterexample :
  findHoldings Inputs.padded_holdings
    = Ok (Some [ {| models.h_Name := " Apple Inc. ";
                    models.h_SharesHeld := " 169,000 ";
                    models.h_Weight := " 7.10% " |} ]) /\
  flat_map row_holding_trimmed (tail (holdings_rows Inputs.padded_holdings))
    = [ {| models.h_Name := "Apple Inc.";
           models.h_SharesHeld := "169,000";
           models.h_Weight := "7.10%" |} ] /\
  ~ (forall doc hs,
       findHoldings doc = Ok hs ->
       elems hs = flat_map row_holding_trimmed (tail (holdings_rows doc))).
Proof.
  split; [vm_compute; reflexivity |].
  split; [vm_compute; reflexivity |].
  intros H.
  specialize (H Inputs.padded_holdings _ eq_refl).
  vm_compute in H. discriminate H.
Qed.

(** C4, amended: when the holdings section is present, the first row is
    left out whatever it holds, every later row whose label text or second
    data cell is empty is left out, and every other later row gives exactly
    one holding, made of the label text, the first data cell and the second
    data cell as they stand in the document, neither trimmed nor parsed. *)
Theorem holdings_rows_collected (doc : Document)
    (Hpresent : Length (Find (doc_selection doc) topHoldingsSectionSelector) <> 0) :
  (exists hs,
     findHoldings doc = Ok hs /\
     elems hs = flat_map row_holding (tail (holdings_rows doc))) /\
  (forall row, row_label row = "" \/ row_data row 1 = "" -> row_holding row = []) /\
  (forall row, row_label row <> "" -> row_data row 1 <> "" ->
     row_holding row = [ {| models.h_Name := row_label row;
                            models.h_SharesHeld := row_data row 0;
                            models.h_Weight := row_data row 1 |} ]).
Proof.
  split; [| split].
  - eexists. split; [apply findHoldings_present; exact Hpresent |].
    apply Each_holdingsRow.
  - intros row [H | H]; unfold row_holding; rewrite (nonempty_false _ H).
    + reflexivity.
    + rewrite andb_false_r. reflexivity.
  - intros row Hlabel Hweight. unfold row_holding.
    rewrite (nonempty_true _ Hlabel), (nonempty_true _ Hweight). reflexivity.
Qed.

Lemma holdings_rows_collected_witness :
  Length (Find (doc_selection Inputs.padded_holdings) topHoldingsSectionSelector) <> 0 /\
  exists hs,
    findHoldings Inputs.padded_holdings = Ok hs /\
    elems hs = flat_map row_holding (tail (holdings_rows Inputs.padded_holdings)).
Proof.
  assert (H : Length (Find (doc_selection Inputs.padded_holdings)
                           topHoldingsSectionSelector) <> 0)
    by (vm_compute; discriminate).
  split; [exact H |].
  exact (proj1 (holdings_rows_collected Inputs.padded_holdings H)).
Defined.

(** ** The order of the sector candidates *)

(** C2, as stated, fails.  With a fund and an index sector breakdown on the
    page, trying "Fund Sector Breakdown" first would give the rows of the
    fund's section alone; [findSectors] tries "Sector Breakdown" first,
    which selects both sections, and returns the rows of both. *)
Lemma sector_priority_counterexample :
  findSectors Inputs.two_breakdowns
    = Ok (Some [ {| models.w_Name := "Technology"; models.w_Weight := "30.1%" |};
                 {| models.w_Name := "Financials"; models.w_Weight := "12.9%" |} ]) /\
  findSectors_declared Inputs.two_breakdowns
    = Ok (Some [ {| models.w_Name := "Technology"; models.w_Weight := "30.1%" |} ]) /\
  ~ (forall doc, findSectors doc = findSectors_declared doc).
Proof.
  split; [vm_compute; reflexivity |].
  split; [vm_compute; reflexivity |].
  intros H. specialize (H Inputs.two_breakdowns).
  vm_compute in H. discriminate H.
Qed.

(** C2, amended: the candidates are tried in the order sector breakdown,
    fund industry allocation, fund sub-industry allocation, fund sector
    breakdown; the rows are those of every element selected by the first
    candidate that selects anything, and the later candidates are not
    looked at. *)
Theorem findSectors_first_match (doc : Document) (pre post : list Sel) (sel : Sel)
    (Horder : [ sectorBreakdownDivSelector; sectorIndustryDivSelector;
                sectorSubIndustryDivSelector; sectorFundBreakdownDivSelector ]
              = pre ++ sel :: post)
    (Hearlier : forall s, In s pre -> Length (Find (doc_selection doc) s) = 0)
    (Hfound : Length (Find (doc_selection doc) sel) <> 0) :
  findSectors doc
    = Ok (Each (Find (Find (Find (doc_selection doc) sel) tableSelector) rowSelector)
               sectorsRow (Some [])).
Proof.
  unfold findSectors. cbv zeta.
  change sectorDivs with [ sectorBreakdownDivSelector; sectorIndustryDivSelector;
                           sectorSubIndustryDivSelector; sectorFundBreakdownDivSelector ].
  rewrite Horder, (sectorDiv_loop_first doc pre sel post [] Hearlier Hfound).
  rewrite (Length_eqb_pos _ Hfound). reflexivity.
Qed.

Lemma findSectors_first_match_witness :
  Length (Find (doc_selection Inputs.two_breakdowns) sectorBreakdownDivSelector) <> 0 /\
  findSectors Inputs.two_breakdowns
    = Ok (Each (Find (Find (Find (doc_selection Inputs.two_breakdowns)
                                 sectorBreakdownDivSelector)
                           tableSelector) rowSelector)
               sectorsRow (Some [])).
Proof.
  assert (H : Length (Find (doc_selection Inputs.two_breakdowns)
                           sectorBreakdownDivSelector) <> 0)
    by (vm_compute; discriminate).
  split; [exact H |].
  apply (findSectors_first_match Inputs.two_breakdowns []
           [ sectorIndustryDivSelector; sectorSubIndustryDivSelector;
             sectorFundBreakdownDivSelector ] sectorBreakdownDivSelector).
  - reflexivity.
  - intros s [].
  - exact H.
Defined.

(** ** The serialized record *)

(** C10: the three optional sequences are not written alike.  With no
    sectors (a nil or an empty slice) the key "sectors" is left out of the
    object; a nil slice of holdings or of countries is written as null under
    "top_holdings" and "countries". *)
Theorem ToJson_optional_sequences (m : models.ETFData) :
  (len (models.Sectors m) = 0 ->
     json.member "sectors" (models.ToJson m) = None) /\
  (len (models.Sectors m) <> 0 ->
     json.member "sectors" (models.ToJson m)
       = Some (json.Arr (map models.WeightData_json (elems (models.Sectors m))))) /\
  (models.TopHoldings m = None ->
     json.member "top_holdings" (models.ToJson m) = Some json.Null) /\
  (models.Countries m = None ->
     json.member "countries" (models.ToJson m) = Some json.Null).
Proof.
  destruct m as [name descr holdings countries sectors]. simpl.
  repeat split.
  - intros H. unfold json.omitempty. rewrite H. reflexivity.
  - intros H. unfold json.omitempty.
    destruct sectors as [[| x l] |]; simpl in *; congruence.
  - intros ->. reflexivity.
  - intros ->. reflexivity.
Qed.

Lemma ToJson_optional_sequences_witness :
  let m := {| models.Name := "AAA"; models.Description := "desc";
              models.TopHoldings := None; models.Countries := None;
              models.Sectors := Some [] |} in
  json.member "sectors" (models.ToJson m) = None /\
  json.member "top_holdings" (models.ToJson m) = Some json.Null /\
  json.member "countries" (models.ToJson m) = Some json.Null.
Proof.
  intros m.
  destruct (ToJson_optional_sequences m) as [Hs [_ [Hh Hc]]].
  split; [exact (Hs eq_refl) |].
  split; [exact (Hh eq_refl) | exact (Hc eq_refl)].
Defined.

(** ** The scheduler *)

Section SchedulerFacts.

Variable outcome : nat -> option error.

(** The retry loop calls [UpdateData] at most as often as it has rounds
    left, counts its calls, and never logs a fatal error. *)
Lemma retry_loop_calls (left i k : nat) :
  calls (fst (retry_loop outcome left i k)) = snd (retry_loop outcome left i k) - k /\
  k + Nat.min 1 left <= snd (retry_loop outcome left i k) <= k + left /\
  List.filter is_fatal (fst (retry_loop outcome left i k)) = [].
Proof.
  revert i k. induction left as [| left IH]; intros i k; simpl.
  - unfold calls. simpl. repeat split; lia.
  - destruct (outcome k) as [err |]; simpl.
    + specialize (IH (S i) (S k)).
      destruct (retry_loop outcome left (S i) (S k)) as [rest k'] eqn:Hrest.
      simpl in *. destruct IH as [Hcalls [Hrange Hfatal]].
      unfold calls in *. rewrite !List.filter_app.
      destruct (i <? _)%nat; simpl;
        rewrite ?Hfatal, ?length_app, ?Hcalls; simpl; repeat split; lia.
    + unfold calls. simpl. repeat split; lia.
Qed.

Lemma retry_loop_no_tick (left i k : nat) :
  List.filter is_tick (fst (retry_loop outcome left i k)) = [] /\
  List.filter is_new_ticker (fst (retry_loop outcome left i k)) = [].
Proof.
  revert i k. induction left as [| left IH]; intros i k; simpl.
  - split; reflexivity.
  - destruct (outcome k) as [err |]; simpl; [| split; reflexivity].
    specialize (IH (S i) (S k)).
    destruct (retry_loop outcome left (S i) (S k)) as [rest k'] eqn:Hrest.
    simpl in *. destruct IH as [Ht Hn].
    destruct (i <? _)%nat; simpl; rewrite ?Ht, ?Hn; split; reflexivity.
Qed.

(** The loop of the schedule: one tick and at least one call for each round,
    and no fatal error. *)
Lemma schedule_loop_facts (ticks k : nat) :
  length (List.filter is_tick (schedule_loop outcome ticks k)) = ticks /\
  ticks <= calls (schedule_loop outcome ticks k) /\
  List.filter is_fatal (schedule_loop outcome ticks k) = [] /\
  List.filter is_new_ticker (schedule_loop outcome ticks k) = [].
Proof.
  revert k. induction ticks as [| ticks IH]; intros k; simpl.
  - repeat split; unfold calls; simpl; lia.
  - unfold cycle.
    pose proof (retry_loop_calls retries 0 k) as [Hcalls [Hrange Hfatal]].
    pose proof (retry_loop_no_tick retries 0 k) as [Htick Hnew].
    assert (Hone : 1 <= calls (fst (retry_loop outcome retries 0 k)))
      by (unfold retries in *; lia).
    destruct (retry_loop outcome retries 0 k) as [evs k'] eqn:Hloop.
    simpl in *. specialize (IH k'). destruct IH as [IHt [IHc [IHf IHn]]].
    unfold calls in *. simpl.
    rewrite !List.filter_app, !length_app, Htick, Hfatal, Hnew, IHt, IHf, IHn.
    simpl. repeat split; lia.
Qed.

End SchedulerFacts.

(** Whatever follows in the loop of the schedule begins with a tick. *)
Lemma schedule_loop_head (outcome : nat -> option error) (ticks k : nat) :
  schedule_loop outcome ticks k = [] \/
  exists rest, schedule_loop outcome ticks k = Tick :: rest.
Proof.
  destruct ticks as [| ticks]; [left; reflexivity | right].
  simpl. unfold cycle.
  destruct (retry_loop outcome retries 0 k) as [evs k'].
  eexists. reflexivity.
Qed.

Lemma schedule_loop_step (outcome : nat -> option error) (ticks k : nat) evs k' :
  retry_loop outcome retries 0 k = (evs, k') ->
  schedule_loop outcome (S ticks) k
    = Tick :: evs ++ schedule_loop outcome ticks k'.
Proof. intros H. simpl. unfold cycle. rewrite H. reflexivity. Qed.

(** A cycle of the schedule (a tick, at a time when [k] calls of
    [UpdateData] have been made) makes [n] attempts, between one and three;
    the attempts and waits of the cycle are the [n] calls with a sleep of
    one hour between each two; every attempt but the last has failed, and
    the last has succeeded unless it is the third; nothing fatal is logged;
    and what follows the cycle, if anything, is the next tick. *)
Lemma cycle_shape (outcome : nat -> option error) (k : nat) :
  exists n evs,
    cycle outcome k = (Tick :: evs, k + n) /\
    1 <= n <= 3 /\
    List.filter is_call_or_sleep evs = spaced (Sleep 1) (calls_from outcome k n) /\
    (forall i, i < n - 1 -> outcome (k + i) <> None) /\
    (outcome (k + (n - 1)) = None \/ n = 3) /\
    List.filter is_fatal evs = [] /\
    forall ticks,
      schedule_loop outcome (S ticks) k
        = Tick :: evs ++ schedule_loop outcome ticks (k + n) /\
      (schedule_loop outcome ticks (k + n) = [] \/
       exists rest, schedule_loop outcome ticks (k + n) = Tick :: rest).
Proof.
  assert (Hk0 : k + 0 = k) by lia.
  assert (Hk1 : k + 1 = S k) by lia.
  assert (Hk2 : k + 2 = S (S k)) by lia.
  assert (Hk3 : k + 3 = S (S (S k))) by lia.
  destruct (outcome k) as [e1 |] eqn:H1;
    [destruct (outcome (S k)) as [e2 |] eqn:H2 |].
  - (* two failures: the third attempt is the last, whatever it gives *)
    assert (Hloop : exists tl,
              retry_loop outcome retries 0 k
                = ([CallUpdateData (Some e1); AttemptFailed 1 e1;
                    Info "Retrying data update in 1 hour..."; Sleep 1;
                    CallUpdateData (Some e2); AttemptFailed 2 e2;
                    Info "Retrying data update in 1 hour..."; Sleep 1;
                    CallUpdateData (outcome (S (S k)))] ++ tl, S (S (S k)))
              /\ List.filter is_call_or_sleep tl = []
              /\ List.filter is_fatal tl = []).
    { unfold retries. simpl. rewrite H1, H2.
      destruct (outcome (S (S k))) as [e3 |]; eexists; simpl;
        repeat split; reflexivity. }
    destruct Hloop as [tl [Hloop [Htl1 Htl2]]].
    exists 3. eexists. rewrite Hk3. unfold cycle. rewrite Hloop.
    split; [reflexivity |]. split; [lia |].
    split; [| split; [| split; [| split]]].
    + rewrite List.filter_app, Htl1.
      unfold calls_from. simpl. rewrite Hk0, Hk1, Hk2, H1, H2. reflexivity.
    + intros [| [| i]] Hi; rewrite ?Hk0, ?Hk1; try congruence; simpl in Hi; lia.
    + right. reflexivity.
    + rewrite List.filter_app, Htl2. reflexivity.
    + intros ticks. split; [| apply schedule_loop_head].
      apply schedule_loop_step. exact Hloop.
  - (* one failure, then success *)
    exists 2. eexists. rewrite Hk2.
    assert (Hloop : retry_loop outcome retries 0 k
              = ([CallUpdateData (Some e1); AttemptFailed 1 e1;
                  Info "Retrying data update in 1 hour..."; Sleep 1;
                  CallUpdateData None; Info "Data update completed successfully"],
                 S (S k))).
    { unfold retries. simpl. rewrite H1, H2. reflexivity. }
    unfold cycle. rewrite Hloop.
    split; [reflexivity |]. split; [lia |].
    split; [| split; [| split; [| split]]].
    + unfold calls_from. simpl. rewrite Hk0, Hk1, H1, H2. reflexivity.
    + intros [| i] Hi; rewrite ?Hk0; try congruence; simpl in Hi; lia.
    + left. simpl. rewrite Hk1. exact H2.
    + reflexivity.
    + intros ticks. split; [| apply schedule_loop_head].
      apply schedule_loop_step. exact Hloop.
  - (* success at once *)
    exists 1. eexists. rewrite Hk1.
    assert (Hloop : retry_loop outcome retries 0 k
              = ([CallUpdateData None; Info "Data update completed successfully"],
                 S k)).
    { unfold retries. simpl. rewrite H1. reflexivity. }
    unfold cycle. rewrite Hloop.
    split; [reflexivity |]. split; [lia |].
    split; [| split; [| split; [| split]]].
    + unfold calls_from. simpl. rewrite Hk0, H1. reflexivity.
    + intros i Hi. simpl in Hi. lia.
    + left. simpl. rewrite Hk0. exact H1.
    + reflexivity.
    + intros ticks. split; [| apply schedule_loop_head].
      apply schedule_loop_step. exact Hloop.
Qed.

Lemma filter_timing (evs : list Event) :
  List.filter is_tick evs = [] ->
  List.filter is_new_ticker evs = [] ->
  List.filter is_timing evs = List.filter is_call_or_sleep evs.
Proof.
  induction evs as [| e evs IH]; intros Ht Hn; [reflexivity |].
  destruct e; simpl in *; try discriminate; rewrite (IH Ht Hn); reflexivity.
Qed.

(** The loop of the schedule is a run of days. *)
Lemma schedule_loop_days (outcome : nat -> option error) (ticks k : nat) :
  exists attempts,
    length attempts = ticks /\
    List.filter is_timing (schedule_loop outcome ticks k) = days outcome k attempts /\
    retried outcome k attempts.
Proof.
  revert k. induction ticks as [| ticks IH]; intros k.
  - exists []. repeat split.
  - destruct (cycle_shape outcome k)
      as (n & evs & Hcycle & Hn & Hspaced & Hfailed & Hlast & _ & Hloop).
    destruct (IH (k + n)) as (attempts & Hlen & Hdays & Hretried).
    exists (n :: attempts). split; [simpl; lia |].
    pose proof (retry_loop_no_tick outcome retries 0 k) as [Htick Hnew].
    unfold cycle in Hcycle.
    destruct (retry_loop outcome retries 0 k) as [evs' k'].
    injection Hcycle as <- _. simpl in Htick, Hnew.
    split.
    + rewrite (proj1 (Hloop ticks)). simpl.
      rewrite List.filter_app, (filter_timing _ Htick Hnew), Hspaced, Hdays.
      reflexivity.
    + simpl. repeat split; try assumption; lia.
Qed.

(** C7: once its first update has succeeded, [Run] makes the ticker of 24
    hours, and what it does from then on, over any number of ticks, is a run
    of days, one for each tick of that ticker: on each day the tick, and
    then between one and three calls of [UpdateData] with a sleep of one
    hour between each two, of which every one but the last has failed and
    the last has succeeded unless it is the third.  After the last attempt
    of a day, also when all three have failed, nothing is called until the
    next tick; nothing fatal is logged, and [Run] stays in its loop. *)
Theorem Run_retries_each_cycle (outcome : nat -> option error) (ticks : nat)
    (Hfirst : outcome 0 = None) :
  exists attempts,
    length attempts = ticks /\
    List.filter is_timing (fst (Run outcome ticks))
      = CallUpdateData None :: NewTicker 24 :: days outcome 1 attempts /\
    retried outcome 1 attempts /\
    List.filter is_fatal (fst (Run outcome ticks)) = [] /\
    snd (Run outcome ticks) = AwaitingTick.
Proof.
  destruct (schedule_loop_days outcome ticks 1) as (attempts & Hlen & Hdays & Hretried).
  exists attempts. unfold Run. rewrite Hfirst. simpl. rewrite Hdays.
  repeat split; try assumption.
  apply (schedule_loop_facts outcome ticks 1).
Qed.

Lemma Run_retries_each_cycle_witness :
  let outcome : nat -> option error :=
    fun k => if (k =? 0)%nat || (3 <? k)%nat then None
             else Some (ErrNew "failed to get data paths: no browser") in
  exists attempts,
    length attempts = 2 /\
    List.filter is_timing (fst (Run outcome 2))
      = CallUpdateData None :: NewTicker 24 :: days outcome 1 attempts /\
    retried outcome 1 attempts.
Proof.
  intros outcome.
  destruct (Run_retries_each_cycle outcome 2 eq_refl)
    as (attempts & Hlen & Htrace & Hretried & _).
  exists attempts. repeat split; assumption.
Defined.

(** C8: when the first call of [UpdateData] fails, [Run] logs the fatal
    error and the process ends: however long one waits, no ticker is made
    and no tick is taken.  When it succeeds, [Run] makes the ticker of 24
    hours and stays in its loop: every tick is taken, each starts at least
    one attempt, and nothing fatal is ever logged. *)
Theorem first_cycle_decides (outcome : nat -> option error) (ticks : nat) :
  (forall err, outcome 0 = Some err ->
     Run outcome ticks
       = ([CallUpdateData (Some err);
           Fatalf ("Initial data update failed: " +:+ Error err)], Exited) /\
     List.filter is_new_ticker (fst (Run outcome ticks)) = [] /\
     List.filter is_tick (fst (Run outcome ticks)) = [] /\
     calls (fst (Run outcome ticks)) = 1) /\
  (outcome 0 = None ->
     Run outcome ticks
       = ([CallUpdateData None; Info "Data update completed successfully";
           NewTicker 24] ++ schedule_loop outcome ticks 1, AwaitingTick) /\
     List.filter is_new_ticker (fst (Run outcome ticks)) = [NewTicker 24] /\
     length (List.filter is_tick (fst (Run outcome ticks))) = ticks /\
     1 + ticks <= calls (fst (Run outcome ticks)) /\
     List.filter is_fatal (fst (Run outcome ticks)) = []).
Proof.
  split.
  - intros err H. unfold Run. rewrite H. repeat split.
  - intros H. unfold Run. rewrite H.
    pose proof (schedule_loop_facts outcome ticks 1) as [Ht [Hc [Hf Hn]]].
    unfold calls in *. simpl. rewrite Hn, Hf.
    repeat split; try assumption; lia.
Qed.

Lemma first_cycle_decides_witness :
  let failing : nat -> option error := fun _ => Some (ErrNew "failed to get data paths: no browser") in
  let working : nat -> option error := fun _ => None in
  snd (Run failing 5) = Exited /\
  calls (fst (Run failing 5)) = 1 /\
  snd (Run working 5) = AwaitingTick /\
  List.filter is_fatal (fst (Run working 5)) = [].
Proof.
  intros failing working.
  destruct (first_cycle_decides failing 5) as [Hfail _].
  destruct (first_cycle_decides working 5) as [_ Hwork].
  destruct (Hfail _ eq_refl) as [Hrun [_ [_ Hcalls]]].
  destruct (Hwork eq_refl) as [Hrun' [_ [_ [_ Hfatal]]]].
  split; [rewrite Hrun; reflexivity |].
  split; [exact Hcalls |].
  split; [rewrite Hrun'; reflexivity | exact Hfatal].
Defined.

(** ** The batch: what every run preserves *)

Lemma workers_split {A} (ws : list A) (i : nat) (x : A) :
  ws !! i = Some x ->
  exists l1 l2,
    ws = l1 ++ x :: l2 /\
    (forall y, <[i := y]> ws = l1 ++ y :: l2) /\
    delete i ws = l1 ++ l2.
Proof.
  intros H. exists (take i ws), (drop (S i) ws).
  split; [symmetry; apply take_drop_middle; exact H |].
  split.
  - intros y. apply insert_take_drop. eapply lookup_lt_Some. exact H.
  - apply delete_take_drop.
Qed.

Lemma in_flight_app (ws1 ws2 : list (string * WorkerPc)) :
  length (List.filter holds_slot (ws1 ++ ws2))
    = length (List.filter holds_slot ws1) + length (List.filter holds_slot ws2).
Proof. rewrite List.filter_app, length_app. reflexivity. Qed.

Lemma running_app (ws1 ws2 : list (string * WorkerPc)) :
  running (ws1 ++ ws2) = running ws1 ++ running ws2.
Proof. unfold running. rewrite List.filter_app, map_app. reflexivity. Qed.

Lemma worker_left_app (ws1 ws2 : list (string * WorkerPc)) :
  list_sum (map worker_left (ws1 ++ ws2))
    = list_sum (map worker_left ws1) + list_sum (map worker_left ws2).
Proof. rewrite map_app, list_sum_app. reflexivity. Qed.

Lemma pipelines_snoc host env (paths : list string) (path : string) (w : World) :
  pipelines host env (paths ++ [path]) w
    = updateETF host env path (pipelines host env paths w).
Proof. unfold pipelines. rewrite fold_left_app. reflexivity. Qed.

Section BatchFacts.

Variable host : string.
Variable env : Env.
Variable w0 : World.

Lemma Inv_start : Inv host env w0 (start w0).
Proof.
  unfold Inv, start, in_flight, semaphoreCapacity. simpl.
  repeat split; lia.
Qed.

Lemma step_main_Inv (s s' : Batch) :
  Inv host env w0 s -> step_main env s = Some s' -> Inv host env w0 s'.
Proof.
  intros (Hworld & Hsem & Hcap & Hwg & Hpc) Hstep.
  unfold step_main in Hstep. unfold Inv.
  destruct (main s) as [| | path | path | | r] eqn:Hmain.
  - (* getPaths *)
    destruct Hpc as (Hrem & Hws & Hdone).
    assert (Hw0 : world s = w0) by (rewrite Hworld, Hdone; reflexivity).
    destruct (getPaths env) as [fetchPaths | err] eqn:Hpaths;
      injection Hstep as <-; simpl; rewrite ?Hmain in *; simpl in *.
    + split; [rewrite Hw0, Hdone; reflexivity |].
      repeat split; try assumption.
      exists fetchPaths. rewrite Hws, Hdone. simpl. repeat split; reflexivity.
    + split; [rewrite Hw0, Hdone; reflexivity |].
      repeat split; try assumption.
      exists err. repeat split; assumption.
  - (* range *)
    destruct Hpc as (fetchPaths & Hpaths & Hperm & _).
    destruct (remaining s) as [| path rest] eqn:Hrem;
      injection Hstep as <-; simpl; rewrite ?Hmain in *; simpl in *.
    + repeat split; try assumption.
      exists fetchPaths. repeat split; assumption.
    + repeat split; try assumption; try lia.
      exists fetchPaths. repeat split; assumption.
  - (* acquire *)
    destruct Hpc as (fetchPaths & Hpaths & Hperm & _).
    destruct (semaphore s <? semaphoreCapacity)%nat eqn:Hfree; [| discriminate].
    apply Nat.ltb_lt in Hfree.
    injection Hstep as <-; simpl; rewrite ?Hmain in *; simpl in *.
    unfold in_flight in *. simpl.
    repeat split; try assumption; try lia.
    exists fetchPaths. repeat split; assumption.
  - (* go *)
    destruct Hpc as (fetchPaths & Hpaths & Hperm & _).
    injection Hstep as <-; simpl; rewrite ?Hmain in *; simpl in *.
    unfold in_flight in *. simpl.
    rewrite in_flight_app, length_app, running_app. simpl.
    repeat split; try assumption; try lia.
    exists fetchPaths. split; [exact Hpaths |]. split; [| exact I].
    rewrite <- Hperm. unfold running at 2. simpl.
    rewrite <- !app_assoc. reflexivity.
  - (* wait *)
    destruct Hpc as (fetchPaths & Hpaths & Hperm & Hrem).
    destruct (wg s =? 0)%nat eqn:Hzero; [| discriminate].
    apply Nat.eqb_eq in Hzero.
    injection Hstep as <-; simpl; rewrite ?Hmain in *; simpl in *.
    repeat split; try assumption.
    exists fetchPaths. repeat split; assumption.
  - discriminate.
Qed.

Lemma step_worker_Inv (i : nat) (s s' : Batch) :
  Inv host env w0 s -> step_worker host env i s = Some s' -> Inv host env w0 s'.
Proof.
  intros (Hworld & Hsem & Hcap & Hwg & Hpc) Hstep.
  unfold step_worker in Hstep.
  destruct (workers s !! i) as [[path [| |]] |] eqn:Hi; [| | | discriminate];
    destruct (workers_split _ _ _ Hi) as (l1 & l2 & Hws & Hins & Hdel).
  - (* updateETF has run *)
    injection Hstep as <-. unfold Inv, in_flight in *. simpl.
    rewrite Hins. rewrite Hws in Hsem, Hwg, Hpc.
    rewrite in_flight_app, length_app, running_app in *. simpl in *.
    rewrite pipelines_snoc, <- Hworld.
    repeat split; try assumption.
    destruct (main s) as [| | p | p | | [e |]];
      try (destruct Hpc as (_ & Hnil & _); destruct l1; discriminate Hnil);
      try (destruct Hpc as (err & _ & _ & Hnil & _ & _); destruct l1; discriminate Hnil);
      destruct Hpc as (fetchPaths & Hpaths & Hperm & Hrest);
      exists fetchPaths; (split; [exact Hpaths |]); (split; [| exact Hrest]);
      rewrite <- Hperm; unfold running; simpl; rewrite <- !app_assoc;
      apply Permutation_app_head; simpl;
      rewrite (Permutation_middle (map fst (List.filter is_running l1))); reflexivity.
  - (* the slot is given back *)
    destruct (semaphore s) as [| n] eqn:Hn; [discriminate |].
    injection Hstep as <-. unfold Inv, in_flight in *. simpl.
    rewrite Hins. rewrite Hws in Hsem, Hwg, Hpc.
    rewrite in_flight_app, length_app, running_app in *. simpl in *.
    repeat split; try assumption; try lia.
    destruct (main s) as [| | p | p | | [e |]];
      try (destruct Hpc as (_ & Hnil & _); destruct l1; discriminate Hnil);
      try (destruct Hpc as (err & _ & _ & Hnil & _ & _); destruct l1; discriminate Hnil);
      exact Hpc.
  - (* the WaitGroup is told *)
    destruct (wg s) as [| n] eqn:Hn; [discriminate |].
    injection Hstep as <-. unfold Inv, in_flight in *. simpl.
    rewrite Hdel. rewrite Hws in Hsem, Hwg, Hpc.
    rewrite in_flight_app, length_app, running_app in *. simpl in *.
    repeat split; try assumption; try lia.
    destruct (main s) as [| | p | p | | [e |]];
      try (destruct Hpc as (_ & Hnil & _); destruct l1; discriminate Hnil);
      try (destruct Hpc as (err & _ & _ & Hnil & _ & _); destruct l1; discriminate Hnil);
      try exact Hpc.
    destruct Hpc as (fetchPaths & _ & _ & _ & Hzero). discriminate Hzero.
Qed.

Lemma step_Inv (a : Action) (s s' : Batch) :
  Inv host env w0 s -> step host env a s = Some s' -> Inv host env w0 s'.
Proof.
  destruct a as [| i]; simpl; [apply step_main_Inv | apply step_worker_Inv].
Qed.

Lemma run_Inv (schedule : list Action) (s s' : Batch) :
  Inv host env w0 s -> run host env schedule s = Some s' -> Inv host env w0 s'.
Proof.
  revert s. induction schedule as [| a schedule IH]; intros s Hinv Hrun; simpl in Hrun.
  - injection Hrun as <-. exact Hinv.
  - destruct (step host env a s) as [s1 |] eqn:Hstep; [| discriminate].
    apply (IH s1); [| exact Hrun]. eapply step_Inv; eassumption.
Qed.

(** A live worker is never blocked: [updateETF] runs, its slot is in the
    channel for it to take back, and the counter of the WaitGroup counts
    it. *)
Lemma worker_enabled (i : nat) (s : Batch) (x : string * WorkerPc) :
  Inv host env w0 s -> workers s !! i = Some x ->
  exists s', step_worker host env i s = Some s'.
Proof.
  intros (_ & Hsem & _ & Hwg & _) Hi. unfold step_worker. rewrite Hi.
  destruct (workers_split _ _ _ Hi) as (l1 & l2 & Hws & _ & _).
  unfold in_flight in Hsem. rewrite Hws in Hsem, Hwg.
  rewrite in_flight_app in Hsem. rewrite length_app in Hwg.
  destruct x as [path [| |]]; simpl in *.
  - eexists. reflexivity.
  - destruct (semaphore s) as [| n]; [lia |]. eexists. reflexivity.
  - destruct (wg s) as [| n]; [lia |]. eexists. reflexivity.
Qed.

(** No deadlock: until [UpdateData] has returned, some goroutine can make a
    step. *)
Lemma batch_progress (s : Batch) :
  Inv host env w0 s -> (forall r, main s <> Returned r) ->
  exists a s', step host env a s = Some s'.
Proof.
  intros Hinv Hlive.
  assert (Hworker : workers s <> [] -> exists a s', step host env a s = Some s').
  { destruct (workers s) as [| x ws] eqn:Hws; [congruence | intros _].
    destruct (worker_enabled 0 s x Hinv) as [s' Hs']; [rewrite Hws; reflexivity |].
    exists (StepWorker 0), s'. exact Hs'. }
  destruct Hinv as (_ & Hsem & Hcap & Hwg & _).
  destruct (main s) as [| | path | path | | r] eqn:Hmain.
  - exists StepMain. simpl. unfold step_main. rewrite Hmain.
    destruct (getPaths env); eexists; reflexivity.
  - exists StepMain. simpl. unfold step_main. rewrite Hmain.
    destruct (remaining s); eexists; reflexivity.
  - destruct (semaphore s <? semaphoreCapacity)%nat eqn:Hfree.
    + exists StepMain. simpl. unfold step_main. rewrite Hmain, Hfree.
      eexists. reflexivity.
    + apply Nat.ltb_ge in Hfree. apply Hworker. intros Hnil.
      unfold in_flight in Hsem. rewrite Hnil in Hsem.
      unfold semaphoreCapacity in *. simpl in Hsem. lia.
  - exists StepMain. simpl. unfold step_main. rewrite Hmain.
    eexists. reflexivity.
  - destruct (wg s =? 0)%nat eqn:Hzero.
    + exists StepMain. simpl. unfold step_main. rewrite Hmain, Hzero.
      eexists. reflexivity.
    + apply Nat.eqb_neq in Hzero. apply Hworker. intros Hnil.
      rewrite Hnil in Hwg. simpl in Hwg. lia.
  - destruct (Hlive r eq_refl).
Qed.

(** Every step uses up one of the steps that are left. *)
Lemma step_steps_left (a : Action) (s s' : Batch) :
  step host env a s = Some s' -> steps_left env s' < steps_left env s.
Proof.
  destruct a as [| i]; simpl; intros Hstep.
  - unfold step_main in Hstep. unfold steps_left.
    destruct (main s) as [| | path | path | | r] eqn:Hmain; simpl.
    + destruct (getPaths env); injection Hstep as <-; simpl; lia.
    + destruct (remaining s); injection Hstep as <-; simpl; lia.
    + destruct (_ <? _)%nat; [| discriminate]. injection Hstep as <-; simpl; lia.
    + injection Hstep as <-; simpl. rewrite worker_left_app. simpl. lia.
    + destruct (_ =? _)%nat; [| discriminate]. injection Hstep as <-; simpl; lia.
    + discriminate.
  - unfold step_worker in Hstep. unfold steps_left.
    destruct (workers s !! i) as [[path [| |]] |] eqn:Hi; [| | | discriminate];
      destruct (workers_split _ _ _ Hi) as (l1 & l2 & Hws & Hins & Hdel).
    + injection Hstep as <-; simpl. rewrite Hins, Hws, !worker_left_app.
      simpl. lia.
    + destruct (semaphore s); [discriminate |].
      injection Hstep as <-; simpl. rewrite Hins, Hws, !worker_left_app.
      simpl. lia.
    + destruct (wg s); [discriminate |].
      injection Hstep as <-; simpl. rewrite Hdel, Hws, !worker_left_app.
      simpl. lia.
Qed.

Lemma run_steps_left (schedule : list Action) (s s' : Batch) :
  run host env schedule s = Some s' ->
  steps_left env s' + length schedule <= steps_left env s.
Proof.
  revert s. induction schedule as [| a schedule IH]; intros s Hrun; simpl in Hrun.
  - injection Hrun as <-. simpl. lia.
  - destruct (step host env a s) as [s1 |] eqn:Hstep; [| discriminate].
    pose proof (step_steps_left a s s1 Hstep). specialize (IH s1 Hrun).
    simpl. lia.
Qed.

(** Hence every run can be carried on until [UpdateData] returns. *)
Lemma batch_can_finish (s : Batch) :
  Inv host env w0 s ->
  exists rest s', run host env rest s = Some s' /\ exists r, main s' = Returned r.
Proof.
  remember (steps_left env s) as n eqn:Hn. revert s Hn.
  induction n as [n IH] using lt_wf_ind. intros s Hn Hinv.
  destruct (main s) as [| | path | path | | r] eqn:Hmain;
    try (destruct (batch_progress s Hinv) as (a & s1 & Hstep);
           [intros r Hr; congruence |];
         pose proof (step_steps_left a s s1 Hstep) as Hless;
         destruct (IH (steps_left env s1) ltac:(lia) s1 eq_refl
                      (step_Inv a s s1 Hinv Hstep)) as (rest & s' & Hrun & Hret);
         exists (a :: rest), s'; simpl; rewrite Hstep; split; assumption).
  exists [], s. split; [reflexivity |]. exists r. exact Hmain.
Qed.

End BatchFacts.

(** ** The item pipeline and the table *)


Lemma store_logged_all (entries : list LogEntry) (w : World) :
  store (logged_all entries w) = store w.
Proof.
  revert w. induction entries as [| entry entries IH]; intros w; [reflexivity |].
  simpl. rewrite IH. reflexivity.
Qed.

(** An UPDATE of the row under an [id] that is there. *)
Lemma alter_present {V} (f : V -> V) (m : gmap string V) (k : string) (old : V) :
  m !! k = Some old -> alter f k m = <[k := f old]> m.
Proof.
  intros H. apply map_eq. intros j. destruct (decide (k = j)) as [<- | Hne].
  - rewrite lookup_alter_eq, lookup_insert_eq, H. reflexivity.
  - rewrite lookup_alter_ne, lookup_insert_ne by exact Hne. reflexivity.
Qed.

(** The row a committed transaction of [Upsert] leaves: the document, the
    time of creation of the row that was there or else the time of the
    transaction, and the time of the transaction as that of the update. *)
Lemma Upsert_etfs env (etf : models.ETF) (w : World) :
  db_faults env etf = None ->
  etfs (snd (Upsert env etf w))
    = <[models.ID etf :=
          {| col_data := models.Data etf;
             col_created_at := match etfs w !! models.ID etf with
                               | Some row => col_created_at row
                               | None => NOW env (length (upserts w))
                               end;
             col_updated_at := NOW env (length (upserts w)) |}]> (etfs w).
Proof.
  intros Hnone. unfold Upsert. cbv zeta. rewrite Hnone. simpl.
  destruct (etfs w !! models.ID etf) as [row |] eqn:Hrow; simpl.
  - rewrite (alter_present _ _ _ row Hrow). reflexivity.
  - reflexivity.
Qed.

(** [Upsert] either fails and leaves the table alone, or leaves the record
    under its identity. *)
Lemma Upsert_store env (etf : models.ETF) (w : World) :
  upserts (snd (Upsert env etf w)) = upserts w ++ [etf] /\
  log (snd (Upsert env etf w)) = log w /\
  match db_faults env etf with
  | Some f =>
      fst (Upsert env etf w) = Err (fault_error f) /\
      store (snd (Upsert env etf w)) = store w
  | None =>
      fst (Upsert env etf w) = Ok () /\
      store (snd (Upsert env etf w)) = <[models.ID etf := models.Data etf]> (store w)
  end.
Proof.
  pose proof (Upsert_etfs env etf w) as Hrows.
  unfold Upsert in *. cbv zeta in *.
  destruct (db_faults env etf) as [f |]; simpl in *.
  - repeat split.
  - repeat split. unfold store. rewrite (Hrows eq_refl). simpl.
    rewrite fmap_insert. reflexivity.
Qed.


Lemma running_le_in_flight (ws : list (string * WorkerPc)) :
  length (running ws) <= length (List.filter holds_slot ws).
Proof.
  unfold running. rewrite length_map.
  induction ws as [| [path [| |]] ws IH]; simpl; lia.
Qed.

(** ** The batch: the gate and the drain *)

(** C5: in every state a run of [UpdateData] can reach, under any
    schedule, the pipelines in flight are at most 50 and each holds one slot
    of the gate, taken before its worker was started; a worker is never
    blocked, and whatever [updateETF] did it goes on to give its slot back;
    [UpdateData] has returned only if no worker is left and every path has
    been through [updateETF]; and it does return: as long as it has not,
    some goroutine can make a step, every run can be carried on to the
    return, and no run is longer than 3 steps and 6 for each path. *)
Theorem batch_is_gated_and_drained (host : string) (env : Env) (w0 : World)
    (schedule : list Action) (s : Batch)
    (Hrun : run host env schedule (start w0) = Some s) :
  (length (running (workers s)) <= in_flight s /\
   in_flight s <= semaphoreCapacity /\ semaphoreCapacity = 50) /\
  semaphore s = in_flight s + main_slot (main s) /\
  (forall i path, workers s !! i = Some (path, InUpdateETF) ->
     exists s', step host env (StepWorker i) s = Some s' /\
                workers s' !! i = Some (path, AtRelease) /\
                world s' = updateETF host env path (world s)) /\
  (forall i path, workers s !! i = Some (path, AtRelease) ->
     exists s', step host env (StepWorker i) s = Some s' /\
                workers s' !! i = Some (path, AtDone) /\
                S (semaphore s') = semaphore s) /\
  (forall r, main s = Returned r ->
     workers s = [] /\ remaining s = [] /\
     forall fetchPaths, getPaths env = Ok fetchPaths -> completed s ≡ₚ fetchPaths) /\
  ((forall r, main s <> Returned r) ->
     exists a s', step host env a s = Some s') /\
  (exists rest s',
     run host env rest s = Some s' /\ exists r, main s' = Returned r) /\
  (forall fetchPaths, getPaths env = Ok fetchPaths ->
     length schedule <= 3 + 6 * length fetchPaths).
Proof.
  pose proof (run_Inv host env w0 schedule _ s (Inv_start host env w0) Hrun) as Hinv.
  pose proof Hinv as (Hworld & Hsem & Hcap & Hwg & Hpc).
  split; [| split; [| split; [| split; [| split; [| split; [| split]]]]]].
  - split; [apply running_le_in_flight |]. split; [lia | reflexivity].
  - exact Hsem.
  - intros i path Hi. simpl. unfold step_worker. rewrite Hi.
    eexists. split; [reflexivity |]. simpl. split; [| reflexivity].
    apply list_lookup_insert_eq. eapply lookup_lt_Some. exact Hi.
  - intros i path Hi.
    destruct (worker_enabled host env w0 i s _ Hinv Hi) as [s' Hs'].
    exists s'. split; [exact Hs' |].
    unfold step_worker in Hs'. rewrite Hi in Hs'.
    destruct (semaphore s) as [| n]; [discriminate |].
    injection Hs' as <-. simpl. split; [| reflexivity].
    apply list_lookup_insert_eq. eapply lookup_lt_Some. exact Hi.
  - intros r Hr. rewrite Hr in Hpc, Hwg. simpl in Hwg.
    destruct r as [e |].
    + destruct Hpc as (err & Hpaths & _ & Hws & _ & Hrem).
      repeat split; try assumption. intros fetchPaths H. congruence.
    + destruct Hpc as (paths & Hpaths & Hperm & Hrem & Hzero).
      assert (Hws : workers s = []).
      { destruct (workers s); [reflexivity | simpl in Hwg; lia]. }
      repeat split; try assumption.
      intros fetchPaths H. rewrite Hws, Hrem in Hperm. simpl in Hperm.
      rewrite app_nil_r in Hperm. congruence.
  - apply (batch_progress host env w0 s Hinv).
  - apply (batch_can_finish host env w0 s Hinv).
  - intros fetchPaths Hpaths.
    pose proof (run_steps_left host env schedule _ s Hrun) as Hleft.
    unfold steps_left, start in Hleft. simpl in Hleft.
    rewrite Hpaths in Hleft. simpl in Hleft. lia.
Qed.

Lemma batch_is_gated_and_drained_witness :
  run "https://host" Inputs.two_paths Inputs.interleaved (start Inputs.empty_world)
    = Some Inputs.drained /\
  main Inputs.drained = Returned None /\
  in_flight Inputs.drained <= semaphoreCapacity /\
  workers Inputs.drained = [].
Proof.
  assert (Hrun : run "https://host" Inputs.two_paths Inputs.interleaved
                   (start Inputs.empty_world) = Some Inputs.drained)
    by (vm_compute; reflexivity).
  pose proof (batch_is_gated_and_drained _ _ _ _ _ Hrun)
    as ((_ & Hcap & _) & _ & _ & _ & Hdrain & _).
  split; [exact Hrun |].
  split; [reflexivity |].
  split; [exact Hcap |].
  exact (proj1 (Hdrain None eq_refl)).
Defined.

(** ** The batch: failures of single items *)




(** ** The fourth candidate

    A heading that contains "Fund Sector Breakdown" contains "Sector
    Breakdown": whatever the last candidate of [sectorDivs] selects, the
    first one selects too, so the last one never decides the lookup. *)

Lemma HasPrefix_app_Contains (a b s : string) :
  strings.HasPrefix s (a +:+ b) = true -> strings.Contains s b = true.
Proof.
  revert s. induction a as [| c a IH]; intros s H.
  - change (strings.HasPrefix s b = true) in H.
    destruct s; cbn [strings.Contains]; rewrite H; reflexivity.
  - change (strings.HasPrefix s (String c (a +:+ b)) = true) in H.
    destruct s as [| c' s]; [discriminate |].
    cbn [strings.HasPrefix] in H.
    apply andb_true_iff in H as [_ H]. cbn [strings.Contains].
    rewrite (IH s H). apply orb_true_r.
Qed.

Lemma Contains_app (a b s : string) :
  strings.Contains s (a +:+ b) = true -> strings.Contains s b = true.
Proof.
  induction s as [| c s IH]; intros H.
  - simpl in H. rewrite orb_false_r in H.
    apply (HasPrefix_app_Contains a b). exact H.
  - change (strings.HasPrefix (String c s) (a +:+ b)
            || strings.Contains s (a +:+ b) = true) in H.
    apply orb_true_iff in H as [H | H].
    + apply (HasPrefix_app_Contains a b). exact H.
    + change (strings.HasPrefix (String c s) b || strings.Contains s b = true).
      rewrite (IH H). apply orb_true_r.
Qed.

Lemma fund_breakdown_is_a_breakdown (l : Loc) :
  cascadia.Match sectorFundBreakdownDivSelector l = true ->
  cascadia.Match sectorBreakdownDivSelector l = true.
Proof.
  unfold sectorFundBreakdownDivSelector, sectorBreakdownDivSelector, fundComponentDiv.
  cbn [cascadia.Match]. intros H.
  apply andb_true_iff in H as [Hdiv H]. apply andb_true_iff in H as [Hel H].
  rewrite Hdiv, Hel. simpl.
  apply existsb_exists in H as (h3 & Hin & Hh3). apply existsb_exists.
  exists h3. split; [exact Hin |].
  apply andb_true_iff in Hh3 as [Htag Htext]. rewrite Htag. simpl.
  apply (Contains_app "fund " "sector breakdown"). exact Htext.
Qed.

Lemma appendWithoutDuplicates_nil (nodes : list Loc) :
  appendWithoutDuplicates [] nodes = [] -> nodes = [].
Proof.
  assert (H : forall nodes target,
            length target <= length (appendWithoutDuplicates target nodes)).
  { clear nodes. induction nodes as [| n ns IH]; intros target; simpl; [lia |].
    destruct (existsb (same_node n) target); [apply IH |].
    specialize (IH (target ++ [n])). rewrite length_app in IH. simpl in IH. lia. }
  destruct nodes as [| n ns]; [reflexivity |]. simpl. intros Hnil.
  specialize (H ns [n]). simpl in Hnil, H. rewrite Hnil in H. simpl in H. lia.
Qed.

Lemma flat_map_nil_mono {A B} (f g : A -> list B) (l : list A) :
  (forall x, g x = [] -> f x = []) -> flat_map g l = [] -> flat_map f l = [].
Proof.
  intros Hfg. induction l as [| x l IH]; simpl; intros H; [reflexivity |].
  apply app_eq_nil in H as [Hx Hl]. rewrite (Hfg x Hx), (IH Hl). reflexivity.
Qed.

Lemma filter_nil_mono {A} (p q : A -> bool) (l : list A) :
  (forall x, p x = true -> q x = true) ->
  List.filter q l = [] -> List.filter p l = [].
Proof.
  intros Hpq. induction l as [| x l IH]; simpl; intros H; [reflexivity |].
  destruct (q x) eqn:Hq; [discriminate |].
  destruct (p x) eqn:Hp; [rewrite (Hpq x Hp) in Hq; discriminate |].
  apply IH. exact H.
Qed.

Lemma fund_breakdown_found_by_first_candidate (doc : Document) :
  Length (Find (doc_selection doc) sectorFundBreakdownDivSelector) <> 0 ->
  Length (Find (doc_selection doc) sectorBreakdownDivSelector) <> 0.
Proof.
  unfold Find, mapNodes, doc_selection. simpl. intros Hfund Hnone.
  apply Hfund. apply Length_0_nil in Hnone.
  apply appendWithoutDuplicates_nil in Hnone.
  erewrite flat_map_nil_mono; [reflexivity | | exact Hnone].
  intros c. simpl. destruct (is_element (loc_node c)); [| reflexivity].
  apply filter_nil_mono. exact fund_breakdown_is_a_breakdown.
Qed.

(** ** Runs on the sample pages *)

Example full_page_is_extracted :
  buildETF Inputs.no_geo Inputs.full
    = Ok {| models.ID := "SPY";
            models.Data :=
              json.Obj
                [ ("name", json.Str "SPY");
                  ("description", json.Str "desc");
                  ("top_holdings",
                   json.Arr [ json.Obj [ ("name", json.Str "Apple Inc.");
                                         ("shares_held", json.Str "169,000");
                                         ("weight", json.Str "7.10%") ] ]);
                  ("countries", json.Null);
                  ("sectors",
                   json.Arr [ json.Obj [ ("name", json.Str "Technology");
                                         ("weight", json.Str "30.1%") ] ]) ];
            models.CreatedAt := time.zero;
            models.UpdatedAt := time.zero |}.
Proof. vm_compute. reflexivity. Qed.

Example empty_geo_is_fatal :
  buildETF Inputs.no_geo Inputs.empty_geo
    = Err (ErrNew "findCountries returns: unexpected end of JSON input").
Proof. vm_compute. reflexivity. Qed.

Example blank_ticker_has_no_name :
  buildETF Inputs.no_geo Inputs.blank_ticker = Err (ErrNew "not found name").
Proof. vm_compute. reflexivity. Qed.

Example three_failures_then_wait :
  let failing : nat -> option error := fun _ => Some (ErrNew "failed to get data paths: no browser") in
  cycle failing 1
    = ([ Tick;
         CallUpdateData (Some (ErrNew "failed to get data paths: no browser"));
         AttemptFailed 1 (ErrNew "failed to get data paths: no browser");
         Info "Retrying data update in 1 hour..."; Sleep 1;
         CallUpdateData (Some (ErrNew "failed to get data paths: no browser"));
         AttemptFailed 2 (ErrNew "failed to get data paths: no browser");
         Info "Retrying data update in 1 hour..."; Sleep 1;
         CallUpdateData (Some (ErrNew "failed to get data paths: no browser"));
         AttemptFailed 3 (ErrNew "failed to get data paths: no browser") ], 4).
Proof. reflexivity. Qed.

Example drained_batch_stored_one_item :
  map models.ID (upserts (world Inputs.drained)) = ["SPY"] /\
  log (world Inputs.drained) = [LogError "Get: timeout"] /\
  completed Inputs.drained = ["/down"; "/full"].
Proof. repeat split. Qed.

(** With 51 paths and the workers idle, the main goroutine starts fifty of
    them and then waits for a slot with the last path in its hand; as soon
    as one worker has given its slot back it goes on. *)
Example the_gate_holds_back_the_51st :
  run "https://host" Inputs.many_paths Inputs.main_only (start Inputs.empty_world)
    = Some Inputs.gate_full /\
  main Inputs.gate_full = AtAcquire "/b" /\
  in_flight Inputs.gate_full = 50 /\
  step "https://host" Inputs.many_paths StepMain Inputs.gate_full = None /\
  (main <$> run "https://host" Inputs.many_paths
              [StepWorker 0; StepWorker 0; StepMain] Inputs.gate_full)
    = Some (AtGo "/b").
Proof. repeat split; vm_compute; reflexivity. Qed.

(** * Further properties of the code *)

(** ** The rows of the sector table *)

Lemma sectorsRow_later (index : nat) (row : Loc) (l : list models.WeightData) :
  (0 < index)%nat ->
  sectorsRow index [row] (Some l) = Some (l ++ row_sector row).
Proof.
  intros Hpos. unfold sectorsRow, row_sector.
  fold (row_label row). fold (row_data row 0).
  rewrite (proj2 (Nat.ltb_lt 0 index) Hpos). simpl.
  destruct (nonempty (row_label row)); simpl; [reflexivity |].
  rewrite app_nil_r. reflexivity.
Qed.

Lemma Each_from_sectorsRow (rows : Selection) (index : nat)
    (l : list models.WeightData) :
  (0 < index)%nat ->
  Each_from sectorsRow index rows (Some l) = Some (l ++ flat_map row_sector rows).
Proof.
  revert index l. induction rows as [| row rows IH]; intros index l Hpos; simpl.
  - rewrite app_nil_r. reflexivity.
  - rewrite sectorsRow_later by exact Hpos. rewrite IH by lia.
    rewrite <- app_assoc. reflexivity.
Qed.

Lemma Each_sectorsRow (rows : Selection) :
  Each rows sectorsRow (Some []) = Some (flat_map row_sector (tail rows)).
Proof.
  unfold Each. destruct rows as [| header rows]; [reflexivity |].
  simpl. change (sectorsRow 0 [header] (Some [])) with (Some (@nil models.WeightData)).
  rewrite Each_from_sectorsRow by lia. reflexivity.
Qed.

Lemma findSectors_Ok (doc : Document) (s : slice models.WeightData) :
  findSectors doc = Ok s ->
  Length (sectorDiv_loop doc sectorDivs []) <> 0 /\
  s = Some (flat_map row_sector (tail (sector_rows doc))).
Proof.
  unfold findSectors. cbv zeta.
  destruct (Length (sectorDiv_loop doc sectorDivs []) =? 0)%nat eqn:Hlen;
    [discriminate |].
  intros H. injection H as <-. split.
  - apply Nat.eqb_neq. exact Hlen.
  - apply Each_sectorsRow.
Qed.

(** X1: when [findSectors] succeeds its slice is allocated, never nil, and
    holds, in the order of the rows after the first, one pair (label text,
    first data cell) for every row whose label text is not empty; a row
    without label text gives nothing, and a row with a label gives its pair
    whatever its data cells hold. *)
Theorem sectors_rows_collected (doc : Document) (s : slice models.WeightData)
    (Hfound : findSectors doc = Ok s) :
  s = Some (flat_map row_sector (tail (sector_rows doc))) /\
  (forall row, row_label row = "" -> row_sector row = []) /\
  (forall row, row_label row <> "" ->
     row_sector row = [ {| models.w_Name := row_label row;
                           models.w_Weight := row_data row 0 |} ]).
Proof.
  split; [exact (proj2 (findSectors_Ok doc s Hfound)) |].
  split; intros row H; unfold row_sector.
  - rewrite (nonempty_false _ H). reflexivity.
  - rewrite (nonempty_true _ H). reflexivity.
Qed.

Lemma sectors_rows_collected_witness :
  findSectors Inputs.two_breakdowns
    = Ok (Some (flat_map row_sector (tail (sector_rows Inputs.two_breakdowns)))).
Proof.
  assert (H : exists s, findSectors Inputs.two_breakdowns = Ok s)
    by (eexists; vm_compute; reflexivity).
  destruct H as [s Hs]. rewrite Hs.
  rewrite (proj1 (sectors_rows_collected Inputs.two_breakdowns s Hs)) at 1.
  reflexivity.
Defined.

(** ** What [buildETF] needs and what it stores *)

Lemma append_grown {A} (l : list A) (x : A) : append (grown l) x = grown (l ++ [x]).
Proof. destruct l; reflexivity. Qed.

Lemma grown_app_nil {A} (l : list A) : grown (l ++ []) = grown l.
Proof. rewrite app_nil_r. reflexivity. Qed.

Lemma holdingsRow_grown (index : nat) (row : Loc) (l : list models.Holding) :
  (0 < index)%nat ->
  holdingsRow index [row] (grown l) = grown (l ++ row_holding row).
Proof.
  intros Hpos. unfold holdingsRow, row_holding.
  fold (row_label row). fold (row_data row 1). fold (row_data row 0).
  rewrite (proj2 (Nat.ltb_lt 0 index) Hpos). simpl.
  destruct (nonempty (row_label row)); simpl;
    [destruct (nonempty (row_data row 1)); simpl |];
    rewrite ?grown_app_nil; [apply append_grown | reflexivity | reflexivity].
Qed.

Lemma Each_from_holdingsRow_grown (rows : Selection) (index : nat)
    (l : list models.Holding) :
  (0 < index)%nat ->
  Each_from holdingsRow index rows (grown l) = grown (l ++ flat_map row_holding rows).
Proof.
  revert index l. induction rows as [| row rows IH]; intros index l Hpos; simpl.
  - rewrite app_nil_r. reflexivity.
  - rewrite holdingsRow_grown by exact Hpos. rewrite IH by lia.
    rewrite <- app_assoc. reflexivity.
Qed.

(** The holdings slice is nil exactly when no row qualifies. *)
Lemma findHoldings_grown (doc : Document) :
  Length (Find (doc_selection doc) topHoldingsSectionSelector) <> 0 ->
  findHoldings doc = Ok (grown (flat_map row_holding (tail (holdings_rows doc)))).
Proof.
  intros H. rewrite (findHoldings_present doc H). f_equal.
  unfold Each. destruct (holdings_rows doc) as [| header rows]; [reflexivity |].
  simpl. rewrite holdingsRow_header.
  change nil_slice with (@grown models.Holding []).
  rewrite Each_from_holdingsRow_grown by lia. reflexivity.
Qed.

Lemma Marshal_grown {A} (f : A -> json.value) (l : list A) :
  json.Marshal_slice f (grown l) = grown_json f l.
Proof. destruct l; reflexivity. Qed.

(** The candidate loop finds something exactly when some candidate does. *)
Lemma sectorDiv_loop_found (doc : Document) (candidates : list Sel)
    (sectorDiv : Selection) :
  Length sectorDiv = 0 ->
  Length (sectorDiv_loop doc candidates sectorDiv) <> 0 <->
  exists sel, In sel candidates /\ Length (Find (doc_selection doc) sel) <> 0.
Proof.
  revert sectorDiv. induction candidates as [| c rest IH]; intros sectorDiv H0; simpl.
  - split; [intros H; contradiction | intros (sel & [] & _)].
  - destruct (Length (Find (doc_selection doc) c) =? 0)%nat eqn:Hc; simpl.
    + apply Nat.eqb_eq in Hc. rewrite (IH _ Hc). split.
      * intros (sel & Hin & Hsel). exists sel. split; [right |]; assumption.
      * intros (sel & [<- | Hin] & Hsel); [contradiction |].
        exists sel. split; assumption.
    + apply Nat.eqb_neq in Hc. split; [| intros _; exact Hc].
      intros _. exists c. split; [left; reflexivity | exact Hc].
Qed.

Lemma findSectors_found (doc : Document) :
  (exists sel, In sel sectorDivs /\ Length (Find (doc_selection doc) sel) <> 0) ->
  findSectors doc = Ok (Some (flat_map row_sector (tail (sector_rows doc)))).
Proof.
  intros H. apply (sectorDiv_loop_found doc sectorDivs [] eq_refl) in H.
  unfold findSectors. cbv zeta. rewrite (Length_eqb_pos _ H).
  f_equal. apply Each_sectorsRow.
Qed.

Lemma findSectors_not_found (doc : Document) :
  ~ (exists sel, In sel sectorDivs /\ Length (Find (doc_selection doc) sel) <> 0) ->
  findSectors doc = Err ErrNotFound.
Proof.
  intros H. apply findSectors_absent. intros sel Hin.
  destruct (Length (Find (doc_selection doc) sel)) eqn:Hlen; [reflexivity |].
  exfalso. apply H. exists sel. split; [exact Hin | rewrite Hlen; discriminate].
Qed.

Lemma buildETF_no_description U (doc : Document) :
  strings.TrimSpace (Text (Find (doc_selection doc) tickerSelector)) <> "" ->
  Text (Find (doc_selection doc) descriptionSelector) = "" ->
  buildETF U doc = Err (ErrNew "description found name").
Proof.
  intros Hname Hdescr. unfold buildETF. cbv zeta.
  rewrite (eqb_empty_false _ Hname), Hdescr. reflexivity.
Qed.

(** The countries [buildETF] goes on with, or the error it stops at. *)
Lemma countries_cases U (doc : Document) :
  countries_or_absent (findCountries U doc)
    = if (Length (Find (doc_selection doc) geographicalSelector) =? 0)%nat
      then Ok nil_slice
      else match U (geo_value doc) with
           | inl msg => Err (ErrNew msg)
           | inr geoData => Ok (processGeographicalData geoData)
           end.
Proof.
  unfold findCountries, geo_value. cbv zeta.
  destruct (Length (Find (doc_selection doc) geographicalSelector) =? 0)%nat;
    [reflexivity |].
  destruct (U _); reflexivity.
Qed.

(** What a successful [buildETF] has found on its way. *)
Lemma buildETF_Ok_needs U (doc : Document) :
  is_Ok (buildETF U doc) = true ->
  strings.TrimSpace (Text (Find (doc_selection doc) tickerSelector)) <> "" /\
  Text (Find (doc_selection doc) descriptionSelector) <> "" /\
  Length (Find (doc_selection doc) topHoldingsSectionSelector) <> 0 /\
  (exists sel, In sel sectorDivs /\ Length (Find (doc_selection doc) sel) <> 0) /\
  (Length (Find (doc_selection doc) geographicalSelector) = 0 \/
   exists geoData, U (geo_value doc) = inr geoData).
Proof.
  intros Hok.
  destruct (decide (strings.TrimSpace
                      (Text (Find (doc_selection doc) tickerSelector)) = ""))
    as [Hname | Hname].
  { rewrite (buildETF_no_name U doc Hname) in Hok. discriminate. }
  destruct (decide (Text (Find (doc_selection doc) descriptionSelector) = ""))
    as [Hdescr | Hdescr].
  { rewrite (buildETF_no_description U doc Hname Hdescr) in Hok. discriminate. }
  rewrite (buildETF_lookups U doc Hname Hdescr) in Hok.
  destruct (decide (Length (Find (doc_selection doc)
                                 topHoldingsSectionSelector) = 0))
    as [Hhold | Hhold].
  { rewrite (findHoldings_absent doc Hhold) in Hok. discriminate. }
  rewrite (findHoldings_present doc Hhold) in Hok. simpl in Hok.
  destruct (findSectors doc) as [sec |] eqn:Hsec; [| discriminate].
  pose proof (findSectors_Ok doc sec Hsec) as [Hfound _].
  apply (sectorDiv_loop_found doc sectorDivs [] eq_refl) in Hfound.
  simpl in Hok. rewrite countries_cases in Hok.
  repeat (split; [assumption |]).
  destruct (Length (Find (doc_selection doc) geographicalSelector) =? 0)%nat
    eqn:Hgeo.
  - left. apply Nat.eqb_eq. exact Hgeo.
  - right. destruct (U (geo_value doc)) as [msg | geoData]; [discriminate |].
    exists geoData. reflexivity.
Qed.

(** X2: [buildETF] succeeds exactly when the trimmed ticker text and the
    description are not empty, a holdings section is there, one of the four
    sector candidates selects something, and the geographical input is
    either absent or holds a value the decoder accepts. *)
Theorem buildETF_succeeds_iff U (doc : Document) :
  is_Ok (buildETF U doc) = true <->
  strings.TrimSpace (Text (Find (doc_selection doc) tickerSelector)) <> "" /\
  Text (Find (doc_selection doc) descriptionSelector) <> "" /\
  Length (Find (doc_selection doc) topHoldingsSectionSelector) <> 0 /\
  (exists sel, In sel sectorDivs /\ Length (Find (doc_selection doc) sel) <> 0) /\
  (Length (Find (doc_selection doc) geographicalSelector) = 0 \/
   exists geoData, U (geo_value doc) = inr geoData).
Proof.
  split; [apply buildETF_Ok_needs |].
  intros (Hname & Hdescr & Hhold & Hsec & Hgeo).
  rewrite (buildETF_lookups U doc Hname Hdescr),
    (findHoldings_present doc Hhold), (findSectors_found doc Hsec).
  simpl. rewrite countries_cases.
  destruct Hgeo as [Hgeo | (geoData & Hgeo)].
  - rewrite Hgeo. reflexivity.
  - rewrite Hgeo. destruct (_ =? _)%nat; reflexivity.
Qed.

Lemma buildETF_Ok_inv U (doc : Document) (etf : models.ETF) :
  buildETF U doc = Ok etf ->
  exists countries,
    countries_or_absent (findCountries U doc) = Ok countries /\
    etf = {| models.ID :=
               strings.TrimSpace (Text (Find (doc_selection doc) tickerSelector));
             models.Data :=
               models.ToJson
                 {| models.Name :=
                      strings.TrimSpace (Text (Find (doc_selection doc) tickerSelector));
                    models.Description :=
                      Text (Find (doc_selection doc) descriptionSelector);
                    models.TopHoldings :=
                      grown (flat_map row_holding (tail (holdings_rows doc)));
                    models.Countries := countries;
                    models.Sectors :=
                      Some (flat_map row_sector (tail (sector_rows doc))) |};
             models.CreatedAt := time.zero;
             models.UpdatedAt := time.zero |}.
Proof.
  intros Hok.
  assert (Hyes : is_Ok (buildETF U doc) = true) by (rewrite Hok; reflexivity).
  apply buildETF_Ok_needs in Hyes.
  destruct Hyes as (Hname & Hdescr & Hhold & Hsec & _).
  rewrite (buildETF_lookups U doc Hname Hdescr),
    (findHoldings_grown doc Hhold), (findSectors_found doc Hsec) in Hok.
  simpl in Hok.
  destruct (countries_or_absent (findCountries U doc)) as [countries | e];
    [| discriminate].
  simpl in Hok. injection Hok as <-. exists countries. split; reflexivity.
Qed.

(** A text that is valid UTF-8 is written as it is. *)
Lemma appendString_valid (s : string) (skip : nat) :
  utf8.valid_from skip s = true -> json.appendString skip s = s.
Proof.
  revert skip. induction s as [| b rest IH]; intros skip H; [reflexivity |].
  cbn [json.appendString utf8.valid_from] in *.
  destruct skip as [| skip'].
  - destruct (N_of_ascii b <? 128)%N.
    + rewrite (IH 0 H). reflexivity.
    + destruct (utf8.DecodeRuneInString (String b rest)) as [size |];
        [| discriminate].
      rewrite (IH _ H). reflexivity.
  - rewrite (IH _ H). reflexivity.
Qed.

(** X3: the record of a successful extraction.  Its identity is the
    trimmed ticker text, which the payload repeats under "name"; the
    description is stored untrimmed; "top_holdings" is null when no row of
    the holdings table qualifies and the array of the qualifying rows
    otherwise; the key "sectors" is left out when no sector row has a label;
    "countries" is null when the page has no geographical input and the
    array of the decoded attributes, possibly empty, when it has one.  The
    strings of the payload are the texts as [encoding/json] writes them: a
    text that is valid UTF-8 as it is, and any other with U+FFFD for each
    byte that belongs to no encoding, so that the name in the payload can
    differ from the identity. *)
Theorem stored_payload U (doc : Document) (etf : models.ETF)
    (Hok : buildETF U doc = Ok etf) :
  models.ID etf = strings.TrimSpace (Text (Find (doc_selection doc) tickerSelector)) /\
  json.member "name" (models.Data etf) = Some (json.Marshal_string (models.ID etf)) /\
  json.member "description" (models.Data etf)
    = Some (json.Marshal_string (Text (Find (doc_selection doc) descriptionSelector))) /\
  json.member "top_holdings" (models.Data etf)
    = Some (grown_json models.Holding_json
              (flat_map row_holding (tail (holdings_rows doc)))) /\
  json.member "sectors" (models.Data etf)
    = match flat_map row_sector (tail (sector_rows doc)) with
      | [] => None
      | l => Some (json.Arr (map models.WeightData_json l))
      end /\
  json.member "countries" (models.Data etf)
    = Some (if (Length (Find (doc_selection doc) geographicalSelector) =? 0)%nat
            then json.Null
            else match U (geo_value doc) with
                 | inl _ => json.Null
                 | inr geoData =>
                     json.Arr (map (fun a =>
                                 json.Obj
                                   [ ("name", json.Marshal_string (models.cw_Name_Value a));
                                     ("weight",
                                      json.Marshal_string (models.cw_Weight_Value a)) ])
                               (elems (models.AttributeArray geoData)))
                 end) /\
  (forall s, utf8.ValidString s = true -> json.Marshal_string s = json.Str s) /\
  (forall b rest,
     (128 <= N_of_ascii b)%N -> utf8.DecodeRuneInString (String b rest) = None ->
     json.Marshal_string (String b rest)
       = json.Str (utf8.RuneError +:+ json.appendString 0 rest)).
Proof.
  destruct (buildETF_Ok_inv U doc etf Hok) as (countries & Hc & ->).
  rewrite countries_cases in Hc.
  split; [reflexivity |]. split; [reflexivity |]. split; [reflexivity |].
  split; [simpl; rewrite Marshal_grown; reflexivity |].
  split; [| split; [| split]].
  - simpl. unfold json.omitempty. simpl.
    destruct (flat_map row_sector (tail (sector_rows doc))); reflexivity.
  - simpl.
    destruct (Length (Find (doc_selection doc) geographicalSelector) =? 0)%nat.
    + injection Hc as <-. reflexivity.
    + destruct (U (geo_value doc)) as [msg | geoData]; [discriminate |].
      injection Hc as <-. unfold processGeographicalData. simpl.
      rewrite map_map. reflexivity.
  - intros s Hvalid. unfold json.Marshal_string.
    rewrite (appendString_valid s 0 Hvalid). reflexivity.
  - intros b rest Hhigh Hnone. unfold json.Marshal_string.
    assert (Hstep : json.appendString 0 (String b rest)
                    = if (N_of_ascii b <? 128)%N
                      then String b (json.appendString 0 rest)
                      else match utf8.DecodeRuneInString (String b rest) with
                           | Some size => String b (json.appendString (size - 1) rest)
                           | None => utf8.RuneError +:+ json.appendString 0 rest
                           end) by reflexivity.
    rewrite Hstep, Hnone.
    destruct (N.ltb_spec (N_of_ascii b) 128) as [Hlow | _]; [lia | reflexivity].
Qed.

Lemma stored_payload_witness :
  exists etf,
    buildETF Inputs.no_geo Inputs.full = Ok etf /\
    models.ID etf = "SPY" /\
    json.member "countries" (models.Data etf) = Some json.Null.
Proof.
  assert (H : exists etf, buildETF Inputs.no_geo Inputs.full = Ok etf)
    by (eexists; vm_compute; reflexivity).
  destruct H as [etf Hetf]. exists etf. split; [exact Hetf |].
  destruct (stored_payload Inputs.no_geo Inputs.full etf Hetf)
    as (Hid & _ & _ & _ & _ & Hc & _).
  split; [rewrite Hid; vm_compute; reflexivity |].
  rewrite Hc. vm_compute. reflexivity.
Defined.

(** X4: a geographical input whose value the decoder rejects is fatal for
    the item: with the name, the description, the holdings and a sector
    section in place, [buildETF] returns "findCountries returns: " followed
    by the decoder's message.  An input without a value attribute is decoded
    as the empty string. *)
Theorem undecodable_geo_is_fatal U (doc : Document) (msg : string)
    (Hname : strings.TrimSpace (Text (Find (doc_selection doc) tickerSelector)) <> "")
    (Hdescr : Text (Find (doc_selection doc) descriptionSelector) <> "")
    (Hhold : Length (Find (doc_selection doc) topHoldingsSectionSelector) <> 0)
    (Hsec : exists sel, In sel sectorDivs /\ Length (Find (doc_selection doc) sel) <> 0)
    (Hgeo : Length (Find (doc_selection doc) geographicalSelector) <> 0)
    (Hbad : U (geo_value doc) = inl msg) :
  buildETF U doc = Err (ErrNew ("findCountries returns: " +:+ msg)) /\
  (forall input rest,
     Find (doc_selection doc) geographicalSelector = input :: rest ->
     getAttributeValue "value" (Attr (loc_node input)) = None ->
     geo_value doc = "").
Proof.
  split.
  - rewrite (buildETF_lookups U doc Hname Hdescr),
      (findHoldings_present doc Hhold), (findSectors_found doc Hsec).
    simpl. rewrite countries_cases, (Length_eqb_pos _ Hgeo), Hbad. reflexivity.
  - intros input rest Hfind Hnone. unfold geo_value, AttrOr.
    rewrite Hfind, Hnone. reflexivity.
Qed.

Lemma undecodable_geo_is_fatal_witness :
  Inputs.no_geo (geo_value Inputs.empty_geo) = inl "unexpected end of JSON input" /\
  buildETF Inputs.no_geo Inputs.empty_geo
    = Err (ErrNew "findCountries returns: unexpected end of JSON input").
Proof.
  split; [reflexivity |].
  refine (proj1 (undecodable_geo_is_fatal Inputs.no_geo Inputs.empty_geo
                   "unexpected end of JSON input" _ _ _ _ _ _)).
  - vm_compute. discriminate.
  - vm_compute. discriminate.
  - vm_compute. discriminate.
  - exists sectorBreakdownDivSelector. split; [left; reflexivity |].
    vm_compute. discriminate.
  - vm_compute. discriminate.
  - reflexivity.
Defined.

(** ** The discovered paths *)

Lemma HasPrefix_hash (c : ascii) (s : string) :
  strings.HasPrefix (String c s) "#" = Ascii.eqb "#" c.
Proof. simpl. destruct s; apply andb_true_r. Qed.

Lemma Index_hash_cons (c : ascii) (s : string) :
  Index (String c s) "#"
    = if Ascii.eqb "#" c then Some 0 else S <$> Index s "#".
Proof.
  change (Index (String c s) "#")
    with (if strings.HasPrefix (String c s) "#" then Some 0
          else S <$> Index s "#").
  rewrite HasPrefix_hash. reflexivity.
Qed.

(** [cleanURL] copies the bytes of the URL up to the first '#'. *)
Lemma cleanURL_cons (c : ascii) (s : string) :
  cleanURL (String c s)
    = if Ascii.eqb "#" c then "" else String c (cleanURL s).
Proof.
  unfold cleanURL. rewrite Index_hash_cons.
  destruct (Ascii.eqb "#" c); [reflexivity |].
  destruct (Index s "#") as [i |]; reflexivity.
Qed.

Lemma cleanURL_no_hash (url : string) : Index (cleanURL url) "#" = None.
Proof.
  induction url as [| c s IH]; [reflexivity |].
  rewrite cleanURL_cons. destruct (Ascii.eqb "#" c) eqn:Hc; [reflexivity |].
  rewrite Index_hash_cons, Hc, IH. reflexivity.
Qed.

Lemma cleanURL_fixed (url : string) : Index url "#" = None -> cleanURL url = url.
Proof. unfold cleanURL. intros ->. reflexivity. Qed.

Lemma cleanURL_app_hash (p f : string) :
  Index p "#" = None -> cleanURL (p +:+ "#" +:+ f) = p.
Proof.
  induction p as [| c p IH]; intros H.
  - change ("" +:+ "#" +:+ f) with (String "#" f).
    rewrite cleanURL_cons. reflexivity.
  - rewrite Index_hash_cons in H.
    destruct (Ascii.eqb "#" c) eqn:Hc; [discriminate |].
    change (String c p +:+ "#" +:+ f) with (String c (p +:+ "#" +:+ f)).
    rewrite cleanURL_cons, Hc, IH; [reflexivity |].
    destruct (Index p "#"); [discriminate | reflexivity].
Qed.

(** X5: [cleanURL] cuts a URL at its first '#': the URL is the result
    followed by nothing or by a fragment that starts with '#'; the result
    holds no '#', so that cleaning it again changes nothing. *)
Theorem cleanURL_cuts_at_hash (url : string) :
  (exists rest,
     url = cleanURL url +:+ rest /\ (rest = "" \/ exists f, rest = "#" +:+ f)) /\
  Index (cleanURL url) "#" = None /\
  cleanURL (cleanURL url) = cleanURL url.
Proof.
  split; [| split].
  - induction url as [| c s (rest & Hrest & Hshape)].
    + exists "". split; [reflexivity | left; reflexivity].
    + rewrite cleanURL_cons. destruct (Ascii.eqb "#" c) eqn:Hc.
      * apply Ascii.eqb_eq in Hc. subst c. exists (String "#" s).
        split; [reflexivity | right; exists s; reflexivity].
      * exists rest. split; [| exact Hshape].
        change (String c (cleanURL s) +:+ rest) with (String c (cleanURL s +:+ rest)).
        rewrite <- Hrest. reflexivity.
  - apply cleanURL_no_hash.
  - apply cleanURL_fixed, cleanURL_no_hash.
Qed.

Lemma add_hrefs_spec (attrs : list Attribute) (urls : gset string) :
  add_hrefs attrs urls
    = list_to_set (map cleanURL
                     (map Val (List.filter (fun a => String.eqb (Key a) "href") attrs)))
      ∪ urls.
Proof.
  unfold add_hrefs. revert urls.
  induction attrs as [| a attrs IH]; intros urls; simpl.
  - rewrite union_empty_l_L. reflexivity.
  - rewrite IH. destruct (String.eqb (Key a) "href"); simpl; [| reflexivity].
    rewrite (assoc_L (∪)), (comm_L (∪) (list_to_set _) {[ _ ]}). reflexivity.
Qed.

Lemma getPaths_urls_spec (tokens : list Token) (urls : gset string) :
  getPaths_urls tokens urls = list_to_set (map cleanURL (hrefs tokens)) ∪ urls.
Proof.
  unfold hrefs. revert urls.
  induction tokens as [| token rest IH]; intros urls.
  - simpl. rewrite union_empty_l_L. reflexivity.
  - cbn [getPaths_urls tokens_read].
    assert (Hanchor : is_anchor token
              = match tok_Type token with
                | StartTagToken | SelfClosingTagToken =>
                    String.eqb (tok_Data token) "a"
                | _ => false
                end) by reflexivity.
    destruct (tok_Type token) eqn:Htype; cbn [flat_map]; rewrite ?Hanchor;
      try (rewrite IH; reflexivity).
    + simpl. rewrite union_empty_l_L. reflexivity.
    + destruct (String.eqb (tok_Data token) "a"); cbn [negb].
      * rewrite IH, add_hrefs_spec, map_app, list_to_set_app_L, (assoc_L (∪)).
        rewrite (comm_L (∪) (list_to_set (map cleanURL (map Val _)))).
        reflexivity.
      * rewrite IH. reflexivity.
    + destruct (String.eqb (tok_Data token) "a"); cbn [negb].
      * rewrite IH, add_hrefs_spec, map_app, list_to_set_app_L, (assoc_L (∪)).
        rewrite (comm_L (∪) (list_to_set (map cleanURL (map Val _)))).
        reflexivity.
      * rewrite IH. reflexivity.
Qed.

Lemma size_list_to_set_le (l : list string) :
  size (list_to_set l : gset string) <= length l.
Proof.
  induction l as [| x l IH].
  - change (size (∅ : gset string) <= 0). rewrite size_empty. lia.
  - change (size ({[x]} ∪ (list_to_set l : gset string)) <= S (length l)).
    rewrite size_union_alt, size_singleton.
    pose proof (subseteq_size ((list_to_set l : gset string) ∖ {[x]})
                  (list_to_set l) (subseteq_difference_l _ _ _ (reflexivity _))).
    lia.
Qed.

(** X6: the paths [getPaths] collects are the [href] values of the anchor
    tags (start or self-closing tags named "a") read before the tokenizer's
    first error token, each cut at its first '#'.  No path holds a '#', and
    there are at most as many paths as such attributes. *)
Theorem discovered_paths (tokens : list Token) :
  (forall p, p ∈ getPaths_urls tokens ∅ <->
             exists href, In href (hrefs tokens) /\ cleanURL href = p) /\
  (forall p, p ∈ getPaths_urls tokens ∅ -> Index p "#" = None) /\
  size (getPaths_urls tokens ∅) <= length (hrefs tokens).
Proof.
  rewrite getPaths_urls_spec.
  assert (Hin : forall p,
            p ∈ (list_to_set (map cleanURL (hrefs tokens)) ∪ ∅ : gset string) <->
            exists href, In href (hrefs tokens) /\ cleanURL href = p).
  { intros p. rewrite elem_of_union, elem_of_list_to_set, list_elem_of_In, in_map_iff.
    split.
    - intros [(href & Heq & Hhref) | Hemp]; [| set_solver].
      exists href. split; assumption.
    - intros (href & Hhref & Heq). left. exists href. split; assumption. }
  split; [exact Hin |]. split.
  - intros p Hp. apply Hin in Hp as (href & _ & <-). apply cleanURL_no_hash.
  - rewrite union_empty_r_L.
    etransitivity; [apply size_list_to_set_le |]. rewrite length_map. lia.
Qed.

(** X7: links that differ in their fragment only are one path: a URL
    without '#' followed by '#' and anything is cut back to that URL, so
    anchors to [p#f1], [p#f2] and [p] leave the single path [p]; and a link
    that is a fragment only leaves the empty path among the paths. *)
Theorem fragments_are_dropped (p f1 f2 : string) (Hp : Index p "#" = None) :
  cleanURL (p +:+ "#" +:+ f1) = p /\
  getPaths_urls [ anchor (p +:+ "#" +:+ f1); anchor (p +:+ "#" +:+ f2); anchor p ] ∅
    = {[ p ]} /\
  (forall tokens, In ("#" +:+ f1) (hrefs tokens) -> "" ∈ getPaths_urls tokens ∅).
Proof.
  split; [apply cleanURL_app_hash; exact Hp |]. split.
  - rewrite getPaths_urls_spec. unfold hrefs. simpl.
    rewrite !(cleanURL_app_hash p _ Hp), (cleanURL_fixed p Hp).
    rewrite !union_empty_r_L, !union_idemp_L. reflexivity.
  - intros tokens Hin. rewrite getPaths_urls_spec.
    apply elem_of_union_l, elem_of_list_to_set, list_elem_of_In, in_map_iff.
    exists ("#" +:+ f1). split; [| exact Hin].
    apply (cleanURL_app_hash "" f1). reflexivity.
Qed.

Lemma fragments_are_dropped_witness :
  Index "/a/b" "#" = None /\
  getPaths_urls [ anchor "/a/b#frag1"; anchor "/a/b#frag2"; anchor "/a/b" ] ∅
    = {[ "/a/b" ]}.
Proof.
  split; [reflexivity |].
  exact (proj1 (proj2 (fragments_are_dropped "/a/b" "frag1" "frag2" eq_refl))).
Defined.

(** ** The browser session of [getPaths] *)

(** X8: [getPaths] returns the paths exactly when Playwright starts,
    Chromium launches, the page is made, the navigation to the listing and
    the wait succeed and the inner HTML is read; whether closing the browser
    or stopping Playwright fails plays no part in the result and is only
    logged.  The browser is closed and Playwright stopped on that path
    alone: when an earlier step fails neither call is made. *)
Theorem getPaths_session_outcome (host : string) (b : Session) :
  (forall urls,
     (getPaths_session host b).1.1 = Ok urls <->
     playwright_Run b = None /\ Chromium_Launch b = None /\
     browser_NewPage b = None /\
     page_Goto b (host +:+ etfFinerWithFilter) = None /\
     page_WaitForLoadState b = None /\
     exists tokens, page_InnerHTML b = Ok tokens /\ urls = getPaths_urls tokens ∅) /\
  (In DoClose (getPaths_session host b).1.2 <->
     is_Ok (getPaths_session host b).1.1 = true) /\
  (In DoStop (getPaths_session host b).1.2 <->
     is_Ok (getPaths_session host b).1.1 = true) /\
  (getPaths_session host b).2
    = (if is_Ok (getPaths_session host b).1.1
       then log_if "Could not close the browser: " (browser_Close b)
            ++ log_if "Could not stop Playwright: " (pw_Stop b)
       else []).
Proof.
  unfold getPaths_session.
  destruct (playwright_Run b) as [e1 |] eqn:H1;
    [| destruct (Chromium_Launch b) as [e2 |] eqn:H2;
       [| destruct (browser_NewPage b) as [e3 |] eqn:H3;
          [| cbv zeta;
             destruct (page_Goto b (host +:+ etfFinerWithFilter)) as [e4 |] eqn:H4;
             [| destruct (page_WaitForLoadState b) as [e5 |] eqn:H5;
                [| destruct (page_InnerHTML b) as [tokens | e6] eqn:H6]]]]];
    simpl;
    try (split; [intros urls; split;
                   [discriminate
                   | intros (? & ? & ? & ? & ? & tokens' & ? & ?); congruence]
                | split; [split; [intros H; repeat destruct H as [H | H];
                                    discriminate || contradiction
                                 | discriminate]
                         | split; [split; [intros H; repeat destruct H as [H | H];
                                             discriminate || contradiction
                                          | discriminate]
                                  | reflexivity]]]).
  split; [| split; [| split]].
  - intros urls. split.
    + intros Hok. injection Hok as <-. repeat (split; [reflexivity |]).
      exists tokens. split; reflexivity.
    + intros (_ & _ & _ & _ & _ & tokens' & Htok & ->).
      injection Htok as <-. reflexivity.
  - split; [reflexivity | intros _; do 6 right; left; reflexivity].
  - split; [reflexivity | intros _; do 7 right; left; reflexivity].
  - reflexivity.
Qed.

(** ** The table: writes and reads *)

(** X9: a transaction of [Upsert] that meets no fault leaves the record's
    data under its identity, whether the row was there (UPDATE) or not
    (INSERT), and leaves every other row as it was, its times too; one that
    meets a fault returns the fault's error and leaves the whole table as
    it was.  Either way the call is made once. *)
Theorem Upsert_writes_one_row env (etf : models.ETF) (w : World) :
  (db_faults env etf = None ->
     fst (Upsert env etf w) = Ok () /\
     store (snd (Upsert env etf w)) !! models.ID etf = Some (models.Data etf) /\
     forall id, id <> models.ID etf ->
                store (snd (Upsert env etf w)) !! id = store w !! id /\
                etfs (snd (Upsert env etf w)) !! id = etfs w !! id) /\
  (forall f, db_faults env etf = Some f ->
     fst (Upsert env etf w) = Err (fault_error f) /\
     store (snd (Upsert env etf w)) = store w /\
     etfs (snd (Upsert env etf w)) = etfs w) /\
  upserts (snd (Upsert env etf w)) = upserts w ++ [etf].
Proof.
  pose proof (Upsert_store env etf w) as (Hups & _ & Hcase).
  split; [| split; [| exact Hups]].
  - intros Hnone. rewrite Hnone in Hcase. destruct Hcase as [Hres Hstore].
    split; [exact Hres |]. rewrite Hstore. split.
    + apply lookup_insert_eq.
    + intros id Hne. split; [apply lookup_insert_ne; congruence |].
      rewrite (Upsert_etfs env etf w Hnone). apply lookup_insert_ne. congruence.
  - intros f Hf. rewrite Hf in Hcase. destruct Hcase as [Hres Hstore].
    split; [exact Hres |]. split; [exact Hstore |].
    unfold Upsert. cbv zeta. rewrite Hf. reflexivity.
Qed.

Lemma Upsert_writes_one_row_witness :
  let etf := {| models.ID := "SPY"; models.Data := json.Null;
                models.CreatedAt := time.zero; models.UpdatedAt := time.zero |} in
  store (snd (Upsert (Inputs.site (Ok [])) etf Inputs.empty_world)) !! "SPY"
    = Some json.Null.
Proof.
  intros etf.
  destruct (Upsert_writes_one_row (Inputs.site (Ok [])) etf Inputs.empty_world)
    as (Hok & _).
  exact (proj1 (proj2 (Hok eq_refl))).
Defined.

Lemma Upsert_put env (etf : models.ETF) (w : World) :
  db_faults env etf = None ->
  store (snd (Upsert env etf w)) = put (store w) etf.
Proof.
  intros Hnone. pose proof (Upsert_store env etf w) as (_ & _ & Hcase).
  rewrite Hnone in Hcase. exact (proj2 Hcase).
Qed.

Lemma Upsert_upserts env (etf : models.ETF) (w : World) :
  upserts (snd (Upsert env etf w)) = upserts w ++ [etf].
Proof. unfold Upsert. cbv zeta. destruct (db_faults env etf); reflexivity. Qed.

Lemma Upsert_fault_etfs env (etf : models.ETF) (w : World) (f : db_fault) :
  db_faults env etf = Some f -> etfs (snd (Upsert env etf w)) = etfs w.
Proof. intros Hf. unfold Upsert. cbv zeta. rewrite Hf. reflexivity. Qed.

(** X10: upserts of one identity overwrite each other.  Without faults,
    the later of two records with one identity is the one whose document
    stays, and a second upsert of the same record leaves every document as
    it was; but the row is not as it was: its time of update is that of the
    second transaction, while its time of creation stays that of the first,
    which for a new row is the time of the transaction that made it.  The
    other rows are untouched, and the table has one row more if the
    identity was new and as many as before if it was not. *)
Theorem Upsert_overwrites env (etf etf' : models.ETF) (w : World)
    (Hnone : db_faults env etf = None) (Hnone' : db_faults env etf' = None)
    (Hid : models.ID etf' = models.ID etf) :
  let w1 := snd (Upsert env etf w) in
  let w2 := snd (Upsert env etf' w1) in
  store w2 = store (snd (Upsert env etf' w)) /\
  store (snd (Upsert env etf w1)) = store w1 /\
  (exists row1 row2,
     etfs w1 !! models.ID etf = Some row1 /\
     etfs w2 !! models.ID etf = Some row2 /\
     col_data row1 = models.Data etf /\
     col_data row2 = models.Data etf' /\
     col_created_at row2 = col_created_at row1 /\
     col_updated_at row1 = NOW env (length (upserts w)) /\
     col_updated_at row2 = NOW env (S (length (upserts w))) /\
     (etfs w !! models.ID etf = None ->
      col_created_at row1 = NOW env (length (upserts w)))) /\
  (forall id, id <> models.ID etf -> etfs w2 !! id = etfs w !! id) /\
  size (etfs w1)
    = match etfs w !! models.ID etf with
      | Some _ => size (etfs w)
      | None => S (size (etfs w))
      end.
Proof.
  intros w1 w2.
  assert (H1 : etfs w1 = _) by exact (Upsert_etfs env etf w Hnone).
  assert (H2 : etfs w2 = _) by exact (Upsert_etfs env etf' w1 Hnone').
  assert (Hcalls : length (upserts w1) = S (length (upserts w))).
  { unfold w1. rewrite Upsert_upserts, length_app. simpl. lia. }
  rewrite Hcalls, Hid, H1, lookup_insert_eq in H2. cbn [col_created_at] in H2.
  split; [| split; [| split; [| split]]].
  - unfold w2, w1. rewrite !Upsert_put by assumption. unfold put.
    rewrite Hid. apply insert_insert_eq.
  - unfold w1. rewrite !Upsert_put by assumption. unfold put. apply insert_insert_eq.
  - eexists _, _. rewrite H1, H2, !lookup_insert_eq.
    split; [reflexivity |]. split; [reflexivity |]. simpl.
    repeat split. intros ->. reflexivity.
  - intros id Hne. rewrite H2, !lookup_insert_ne by congruence. reflexivity.
  - rewrite H1. destruct (etfs w !! models.ID etf) as [old |] eqn:Hrow.
    + rewrite <- (insert_delete_eq (etfs w)).
      rewrite <- (insert_id (etfs w) _ _ Hrow) at 2.
      rewrite <- (insert_delete_eq (etfs w) (models.ID etf) old).
      rewrite !map_size_insert_None by apply lookup_delete_eq. reflexivity.
    + apply map_size_insert_None. exact Hrow.
Qed.

Lemma Upsert_overwrites_witness :
  let etf := {| models.ID := "SPY"; models.Data := json.Null;
                models.CreatedAt := time.zero; models.UpdatedAt := time.zero |} in
  let etf' := {| models.ID := "SPY"; models.Data := json.Str "new";
                 models.CreatedAt := time.zero; models.UpdatedAt := time.zero |} in
  let env := Inputs.site (Ok []) in
  let w2 := snd (Upsert env etf' (snd (Upsert env etf Inputs.empty_world))) in
  store w2 = store (snd (Upsert env etf' Inputs.empty_world)) /\
  exists row,
    etfs w2 !! "SPY" = Some row /\
    col_data row = json.Str "new" /\
    col_created_at row = 1700000000%Z /\
    col_updated_at row = 1700000001%Z.
Proof.
  intros etf etf' env w2.
  destruct (Upsert_overwrites env etf etf' Inputs.empty_world
              eq_refl eq_refl eq_refl)
    as (Hlater & _ & (row1 & row2 & _ & Hrow2 & _ & Hdata & Hcreated & _ & Hupdated
                      & Hnew) & _).
  split; [exact Hlater |].
  exists row2. split; [exact Hrow2 |]. split; [exact Hdata |].
  split; [rewrite Hcreated; exact (Hnew eq_refl) | exact Hupdated].
Defined.

(** What a pipeline does to the table. *)
Lemma updateETF_store host env (path : string) (w : World) :
  store (updateETF host env path w)
    = match stored_by host env path with
      | Some etf => put (store w) etf
      | None => store w
      end.
Proof.
  unfold stored_by, fetched, updateETF. cbv zeta.
  destruct (http_Get env (host +:+ path)) as [resp | err]; [| reflexivity].
  destruct (Body resp) as [htmlContent | err]; [| reflexivity].
  destruct (NewDocumentFromReader env htmlContent) as [doc | err]; [| reflexivity].
  destruct (buildETF (Unmarshal env) doc) as [etf | err]; [| reflexivity].
  pose proof (Upsert_store env etf w) as (_ & _ & Hcase).
  destruct (Upsert env etf w) as [[[] | e] w'];
    destruct (db_faults env etf); simpl in *;
    destruct Hcase as [Hres Hstore]; try discriminate; exact Hstore.
Qed.

(** What a pipeline does to the rows. *)
Lemma updateETF_etfs host env (path : string) (w : World) :
  etfs (updateETF host env path w)
    = match stored_by host env path with
      | Some etf =>
          <[models.ID etf :=
              {| col_data := models.Data etf;
                 col_created_at := match etfs w !! models.ID etf with
                                   | Some row => col_created_at row
                                   | None => NOW env (length (upserts w))
                                   end;
                 col_updated_at := NOW env (length (upserts w)) |}]> (etfs w)
      | None => etfs w
      end.
Proof.
  unfold stored_by, fetched, updateETF. cbv zeta.
  destruct (http_Get env (host +:+ path)) as [resp | err]; [| reflexivity].
  destruct (Body resp) as [htmlContent | err]; [| reflexivity].
  destruct (NewDocumentFromReader env htmlContent) as [doc | err]; [| reflexivity].
  destruct (buildETF (Unmarshal env) doc) as [etf | err]; [| reflexivity].
  cbn [wrap].
  pose proof (Upsert_store env etf w) as (_ & _ & Hcase).
  pose proof (Upsert_etfs env etf w) as Hrows.
  pose proof (Upsert_fault_etfs env etf w) as Hsame.
  destruct (Upsert env etf w) as [[[] | e] w'];
    destruct (db_faults env etf) as [f |]; simpl in *;
    destruct Hcase as [Hres _]; try discriminate.
  - exact (Hrows eq_refl).
  - exact (Hsame f eq_refl).
Qed.

Lemma jsonb_WeightData (ws : slice models.WeightData) :
  json.jsonb (json.Marshal_slice models.WeightData_json ws)
    = json.Marshal_slice models.WeightData_json ws.
Proof.
  destruct ws as [l |]; [| reflexivity]. cbn [json.Marshal_slice json.jsonb].
  f_equal. rewrite map_map. apply map_ext. intros w. reflexivity.
Qed.

Lemma jsonb_Holding (hs : slice models.Holding) :
  json.jsonb (json.Marshal_slice models.Holding_json hs)
    = json.Marshal_slice Holding_jsonb hs.
Proof.
  destruct hs as [l |]; [| reflexivity]. cbn [json.Marshal_slice json.jsonb].
  f_equal. rewrite map_map. apply map_ext. intros h. reflexivity.
Qed.

Lemma jsonb_Holding_jsonb (hs : slice models.Holding) :
  json.jsonb (json.Marshal_slice Holding_jsonb hs)
    = json.Marshal_slice Holding_jsonb hs.
Proof.
  destruct hs as [l |]; [| reflexivity]. cbn [json.Marshal_slice json.jsonb].
  f_equal. rewrite map_map. apply map_ext. intros h. reflexivity.
Qed.

Lemma jsonb_ToJson (m : models.ETFData) : json.jsonb (models.ToJson m) = ToJsonb m.
Proof.
  destruct m as [name descr holdings countries sectors].
  unfold models.ToJson, ToJsonb, json.omitempty.
  cbn [models.Name models.Description models.TopHoldings models.Countries
       models.Sectors].
  destruct (len sectors =? 0)%nat; cbn;
    rewrite ?jsonb_WeightData, ?jsonb_Holding; reflexivity.
Qed.

(** X11: what a pipeline stores can be read back, in the form the table
    gives it.  When the page of a path is fetched, parsed and extracted and
    the upsert meets no fault, [GetByID] on the record's identity, the
    trimmed ticker text, gives from the world the pipeline leaves a record
    with that identity, with the document in its JSONB form, with the time
    of the transaction as the time of update, and with the time of creation
    of the row that was there or else the time of the transaction; the
    JSONB form of the document is the one written out in [ToJsonb].  The
    other rows read as before, and [GetByID] on an identity with no row
    gives the error "ETF not found". *)
Theorem stored_record_is_read_back host env (path : string) (w : World)
    (etf : models.ETF) (Hstored : stored_by host env path = Some etf) :
  GetByID None (models.ID etf) (updateETF host env path w)
    = Ok {| models.ID := models.ID etf;
            models.Data := json.jsonb (models.Data etf);
            models.CreatedAt := match etfs w !! models.ID etf with
                                | Some row => col_created_at row
                                | None => NOW env (length (upserts w))
                                end;
            models.UpdatedAt := NOW env (length (upserts w)) |} /\
  (forall id, id <> models.ID etf ->
     GetByID None id (updateETF host env path w) = GetByID None id w) /\
  (forall id, store w !! id = None ->
     GetByID None id w = Err (ErrNew "ETF not found")) /\
  (exists m, models.Data etf = models.ToJson m /\
             json.jsonb (models.Data etf) = ToJsonb m).
Proof.
  unfold GetByID. rewrite updateETF_etfs, Hstored.
  split; [| split; [| split]].
  - rewrite lookup_insert_eq. reflexivity.
  - intros id Hne. rewrite lookup_insert_ne by congruence. reflexivity.
  - intros id Hrow. unfold store in Hrow. rewrite lookup_fmap in Hrow.
    destruct (etfs w !! id); [discriminate | reflexivity].
  - unfold stored_by, fetched in Hstored.
    destruct (http_Get env (host +:+ path)) as [resp | err]; [| discriminate].
    destruct (Body resp) as [htmlContent | err]; [| discriminate].
    destruct (NewDocumentFromReader env htmlContent) as [doc | err]; [| discriminate].
    cbn in Hstored.
    destruct (buildETF (Unmarshal env) doc) as [etf0 | err] eqn:Hbuilt;
      [| discriminate].
    destruct (db_faults env etf0); [discriminate |]. injection Hstored as ->.
    destruct (buildETF_Ok_inv _ _ _ Hbuilt) as (countries & _ & ->).
    eexists. split; [reflexivity |]. apply jsonb_ToJson.
Qed.

Lemma stored_record_is_read_back_witness :
  exists etf,
    stored_by "https://host" Inputs.two_paths "/full" = Some etf /\
    models.ID etf = "SPY" /\
    GetByID None "SPY"
      (updateETF "https://host" Inputs.two_paths "/full" Inputs.empty_world)
      = Ok {| models.ID := "SPY";
              models.Data := json.jsonb (models.Data etf);
              models.CreatedAt := 1700000000%Z;
              models.UpdatedAt := 1700000000%Z |}.
Proof.
  assert (H : exists etf, stored_by "https://host" Inputs.two_paths "/full" = Some etf)
    by (eexists; vm_compute; reflexivity).
  destruct H as [etf Hetf]. exists etf. split; [exact Hetf |].
  assert (Hid : models.ID etf = "SPY").
  { revert Hetf. vm_compute. intros H. injection H as <-. reflexivity. }
  split; [exact Hid |].
  pose proof (proj1 (stored_record_is_read_back _ _ _ Inputs.empty_world etf Hetf))
    as Hread.
  rewrite Hid in Hread. exact Hread.
Defined.

(** X22: the JSONB form of a document of [ToJson].  Read back from the
    table, the keys of the record come in the order "name", "sectors" (if
    it was written), "countries", "description", "top_holdings", and those
    of a holding in the order "name", "weight", "shares_held"; under each
    key the value is the one that was written, in its JSONB form; and the
    form is stable: what is read back, written again, reads the same. *)
Theorem payload_in_jsonb (m : models.ETFData) :
  json.jsonb (models.ToJson m) = ToJsonb m /\
  (forall key,
     json.member key (json.jsonb (models.ToJson m))
       = json.jsonb <$> json.member key (models.ToJson m)) /\
  json.jsonb (json.jsonb (models.ToJson m)) = json.jsonb (models.ToJson m).
Proof.
  split; [apply jsonb_ToJson |]. split.
  - intros key. rewrite jsonb_ToJson.
    destruct m as [name descr holdings countries sectors].
    unfold models.ToJson, ToJsonb, json.omitempty, json.member.
    cbn [models.Name models.Description models.TopHoldings models.Countries
         models.Sectors].
    destruct (len sectors =? 0)%nat; cbn [List.find fst snd app];
      repeat match goal with
             | |- context [String.eqb ?a key] =>
                 destruct (String.eqb_spec a key) as [<- | ?];
                 [cbn; rewrite ?jsonb_WeightData, ?jsonb_Holding; reflexivity |]
             end;
      reflexivity.
  - rewrite jsonb_ToJson.
    destruct m as [name descr holdings countries sectors].
    unfold ToJsonb, json.omitempty.
    cbn [models.Name models.Description models.TopHoldings models.Countries
         models.Sectors].
    destruct (len sectors =? 0)%nat; cbn;
      rewrite ?jsonb_WeightData, ?jsonb_Holding_jsonb; reflexivity.
Qed.

Lemma fold_append_grown {A} (l acc : list A) :
  fold_left append l (grown acc) = grown (acc ++ l).
Proof.
  revert acc. induction l as [| x l IH]; intros acc; simpl.
  - rewrite app_nil_r. reflexivity.
  - rewrite append_grown, IH, <- app_assoc. reflexivity.
Qed.

(** X12: without a fault [GetAllIDs] returns the identities of the rows of
    the table, each once, and the nil slice (which is written as null, not
    as an empty array) when the table has no row; with a fault it returns
    the fault's error. *)
Theorem GetAllIDs_lists_the_table (w : World) :
  (exists ids,
     GetAllIDs None w = Ok ids /\
     (forall id, In id (elems ids) <-> is_Some (store w !! id)) /\
     NoDup (elems ids) /\
     (ids = None <-> store w = ∅)) /\
  (forall err, GetAllIDs (Some err) w = Err err).
Proof.
  split; [| reflexivity].
  unfold GetAllIDs. change nil_slice with (@grown string []).
  rewrite fold_append_grown. simpl. eexists. split; [reflexivity |].
  assert (Helems : forall l : list string, elems (grown l) = l) by (intros []; reflexivity).
  rewrite Helems. split; [| split].
  - intros id. rewrite <- list_elem_of_In, list_elem_of_fmap. split.
    + intros ([id' data] & -> & Hin). apply elem_of_map_to_list in Hin.
      exists data. exact Hin.
    + intros [data Hdata]. exists (id, data). split; [reflexivity |].
      apply elem_of_map_to_list. exact Hdata.
  - apply NoDup_fst_map_to_list.
  - split.
    + intros Hnil. apply map_to_list_empty_iff.
      destruct (map_to_list (store w)); [reflexivity | discriminate].
    + intros ->. rewrite map_to_list_empty. reflexivity.
Qed.

(** ** The batch, seen from the table and the log *)

(** What [UpdateData] returns and leaves, whatever the schedule. *)
Lemma UpdateData_inv host env (schedule : list Action) (w0 w' : World)
    (r : option error) :
  UpdateData host env schedule w0 = Some (r, w') ->
  (exists err, getPaths env = Err err /\
               r = Some (Errorf "failed to get data paths: " err) /\
               w' = logged_all (getPaths_logged env) w0) \/
  (exists fetchPaths order,
     getPaths env = Ok fetchPaths /\ r = None /\
     order ≡ₚ fetchPaths /\
     w' = pipelines host env order (logged_all (getPaths_logged env) w0)).
Proof.
  unfold UpdateData. intros Hupdate.
  destruct (run host env schedule (start w0)) as [s |] eqn:Hrun; [| discriminate].
  destruct (main s) as [| | | | | r0] eqn:Hr; try discriminate.
  injection Hupdate as -> <-.
  pose proof (run_Inv host env w0 schedule _ s (Inv_start host env w0) Hrun)
    as (Hworld & _ & _ & Hwg & Hpc).
  rewrite Hr in Hpc, Hwg, Hworld. simpl in Hwg. destruct r as [e |].
  - left. destruct Hpc as (err & Hpaths & -> & _ & Hdone & _).
    exists err. rewrite Hworld, Hdone. repeat split. exact Hpaths.
  - right. destruct Hpc as (fetchPaths & Hpaths & Hperm & Hrem & Hzero).
    assert (Hws : workers s = []).
    { destruct (workers s); [reflexivity | simpl in Hwg; lia]. }
    rewrite Hws, Hrem in Hperm. simpl in Hperm. rewrite app_nil_r in Hperm.
    exists fetchPaths, (completed s). repeat split; assumption.
Qed.

Lemma pipelines_store host env (paths : list string) (w : World) :
  store (pipelines host env paths w)
    = fold_left put (omap (stored_by host env) paths) (store w).
Proof.
  unfold pipelines. revert w. induction paths as [| path paths IH]; intros w.
  - reflexivity.
  - cbn [fold_left]. rewrite IH, updateETF_store. simpl.
    destruct (stored_by host env path); reflexivity.
Qed.

Lemma fold_put_keeps (etfs : list models.ETF) (m : gmap string json.value)
    (id : string) :
  is_Some (m !! id) -> is_Some (fold_left put etfs m !! id).
Proof.
  revert m. induction etfs as [| etf etfs IH]; intros m H; [exact H |].
  simpl. apply IH. unfold put. rewrite lookup_insert_is_Some'.
  right. exact H.
Qed.

Lemma fold_put_origin (etfs : list models.ETF) (m : gmap string json.value)
    (id : string) (data : json.value) :
  fold_left put etfs m !! id = Some data ->
  m !! id = Some data \/
  exists etf, In etf etfs /\ models.ID etf = id /\ models.Data etf = data.
Proof.
  revert m. induction etfs as [| etf etfs IH]; intros m H; [left; exact H |].
  simpl in H. apply IH in H as [H | (etf' & Hin & Hid & Hdata)].
  - unfold put in H. apply lookup_insert_Some in H as [[Hid Hdata] | [_ H]].
    + right. exists etf. split; [left; reflexivity | split; assumption].
    + left. exact H.
  - right. exists etf'. split; [right; exact Hin | split; assumption].
Qed.

(** A record that [buildETF] has made carries no times. *)
Lemma buildETF_zero_times U (doc : Document) (etf : models.ETF) :
  buildETF U doc = Ok etf ->
  models.CreatedAt etf = time.zero /\ models.UpdatedAt etf = time.zero.
Proof.
  intros Hbuilt. destruct (buildETF_Ok_inv _ _ _ Hbuilt) as (countries & _ & ->).
  split; reflexivity.
Qed.

Lemma stored_by_zero_times host env (path : string) (etf : models.ETF) :
  stored_by host env path = Some etf ->
  models.CreatedAt etf = time.zero /\ models.UpdatedAt etf = time.zero.
Proof.
  unfold stored_by, fetched. intros Hstored.
  destruct (http_Get env (host +:+ path)) as [resp | err]; [| discriminate].
  destruct (Body resp) as [htmlContent | err]; [| discriminate].
  destruct (NewDocumentFromReader env htmlContent) as [doc | err]; [| discriminate].
  cbn in Hstored.
  destruct (buildETF (Unmarshal env) doc) as [etf0 | err] eqn:Hbuilt;
    [| discriminate].
  destruct (db_faults env etf0); [discriminate |]. injection Hstored as ->.
  exact (buildETF_zero_times _ _ _ Hbuilt).
Qed.

(** X13: [UpdateData] never deletes a row.  Every identity that was in the
    table when it started is in the table when it returns, also when its
    page has gone or fails; and the document of every row of the table it
    leaves is either the one that was there or that of the record that the
    pipeline of one of the discovered paths has built and stored. *)
Theorem UpdateData_keeps_records host env (schedule : list Action)
    (w0 w' : World) (r : option error)
    (Hreturned : UpdateData host env schedule w0 = Some (r, w')) :
  (forall id, is_Some (store w0 !! id) -> is_Some (store w' !! id)) /\
  (forall id data,
     store w' !! id = Some data ->
     store w0 !! id = Some data \/
     exists fetchPaths path,
       getPaths env = Ok fetchPaths /\ In path fetchPaths /\
       stored_by host env path
         = Some {| models.ID := id; models.Data := data;
                   models.CreatedAt := time.zero;
                   models.UpdatedAt := time.zero |}).
Proof.
  apply UpdateData_inv in Hreturned
    as [(err & _ & _ & ->) | (fetchPaths & order & Hpaths & _ & Hperm & ->)].
  - rewrite store_logged_all.
    split; [intros id H; exact H | intros id data H; left; exact H].
  - rewrite pipelines_store, store_logged_all. split.
    + intros id. apply fold_put_keeps.
    + intros id data H. apply fold_put_origin in H as [H | (etf & Hin & Hid & Hdata)];
        [left; exact H | right].
      apply list_elem_of_In, list_elem_of_omap in Hin as (path & Hpath & Hstored).
      exists fetchPaths, path. split; [exact Hpaths |]. split.
      * apply list_elem_of_In. rewrite <- Hperm. exact Hpath.
      * rewrite Hstored. destruct (stored_by_zero_times _ _ _ _ Hstored).
        destruct etf. simpl in *. subst. reflexivity.
Qed.

Lemma UpdateData_keeps_records_witness :
  UpdateData "https://host" Inputs.two_paths Inputs.interleaved Inputs.empty_world
    = Some (None, world Inputs.drained) /\
  forall id data,
    store (world Inputs.drained) !! id = Some data ->
    exists fetchPaths path,
      getPaths Inputs.two_paths = Ok fetchPaths /\ In path fetchPaths /\
      stored_by "https://host" Inputs.two_paths path
        = Some {| models.ID := id; models.Data := data;
                  models.CreatedAt := time.zero; models.UpdatedAt := time.zero |}.
Proof.
  assert (Hupdate : UpdateData "https://host" Inputs.two_paths Inputs.interleaved
                      Inputs.empty_world = Some (None, world Inputs.drained))
    by (vm_compute; reflexivity).
  split; [exact Hupdate |]. intros id data H.
  destruct (proj2 (UpdateData_keeps_records _ _ _ _ _ _ Hupdate) id data H)
    as [Hold | Hnew]; [| exact Hnew].
  unfold store, Inputs.empty_world in Hold. simpl in Hold.
  rewrite fmap_empty, lookup_empty in Hold. discriminate.
Defined.

(** What one pipeline adds to the log and to the calls of [Upsert]. *)
Lemma updateETF_trace host env (path : string) (w : World) :
  exists es us,
    log (updateETF host env path w) = log w ++ es /\
    upserts (updateETF host env path w) = upserts w ++ us /\
    forallb is_error_entry es = true /\
    length es <= 1 /\ length us <= 1 /\ 1 <= length es + length us.
Proof.
  unfold updateETF. cbv zeta.
  destruct (http_Get env (host +:+ path)) as [resp | err];
    [| exists [LogError (Error err)], []; simpl; rewrite app_nil_r;
       repeat split; lia].
  destruct (Body resp) as [htmlContent | err];
    [| exists [LogError (Error err)], []; simpl; rewrite app_nil_r;
       repeat split; lia].
  destruct (NewDocumentFromReader env htmlContent) as [doc | err];
    [| exists [LogError (Error err)], []; simpl; rewrite app_nil_r;
       repeat split; lia].
  destruct (buildETF (Unmarshal env) doc) as [etf | err];
    [| eexists [LogError _], []; simpl; rewrite app_nil_r; repeat split; lia].
  pose proof (Upsert_store env etf w) as (Hups & Hlog & _).
  destruct (Upsert env etf w) as [[[] | e] w']; simpl in *.
  - exists [], [etf]. rewrite Hlog, Hups, app_nil_r. simpl. repeat split; lia.
  - eexists [LogError _], [etf]. rewrite Hlog, Hups. simpl. repeat split; lia.
Qed.

Lemma pipelines_trace host env (paths : list string) (w : World) :
  exists es us,
    log (pipelines host env paths w) = log w ++ es /\
    upserts (pipelines host env paths w) = upserts w ++ us /\
    forallb is_error_entry es = true /\
    length es <= length paths /\ length us <= length paths /\
    length paths <= length es + length us.
Proof.
  unfold pipelines. revert w. induction paths as [| path paths IH]; intros w.
  - exists [], []. simpl. rewrite !app_nil_r. repeat split; lia.
  - cbn [fold_left].
    destruct (updateETF_trace host env path w)
      as (es1 & us1 & Hlog1 & Hups1 & Herr1 & Hes1 & Hus1 & Hone).
    destruct (IH (updateETF host env path w))
      as (es & us & Hlog & Hups & Herr & Hes & Hus & Hall).
    exists (es1 ++ es), (us1 ++ us).
    rewrite Hlog, Hups, Hlog1, Hups1, <- !app_assoc, forallb_app, Herr1, Herr,
      !length_app.
    simpl. repeat split; lia.
Qed.

Lemma log_logged_all (entries : list LogEntry) (w : World) :
  log (logged_all entries w) = log w ++ entries /\
  upserts (logged_all entries w) = upserts w /\
  etfs (logged_all entries w) = etfs w.
Proof.
  revert w. induction entries as [| entry entries IH]; intros w; simpl.
  - rewrite app_nil_r. repeat split.
  - destruct (IH (logged entry w)) as (Hlog & Hups & Hrows).
    rewrite Hlog, Hups, Hrows. simpl. rewrite <- app_assoc. repeat split.
Qed.

(** What a session of [getPaths] logs: on its successful path the errors of
    [browser.Close] and of [pw.Stop], and else nothing. *)
Lemma getPaths_session_log (host : string) (b : Session) :
  (getPaths_session host b).2
    = (if is_Ok (getPaths_session host b).1.1
       then log_if "Could not close the browser: " (browser_Close b)
            ++ log_if "Could not stop Playwright: " (pw_Stop b)
       else []).
Proof.
  unfold getPaths_session.
  destruct (playwright_Run b); [reflexivity |].
  destruct (Chromium_Launch b); [reflexivity |].
  destruct (browser_NewPage b); [reflexivity |]. cbv zeta.
  destruct (page_Goto b (host +:+ etfFinerWithFilter)); [reflexivity |].
  destruct (page_WaitForLoadState b); [reflexivity |].
  destruct (page_InnerHTML b); reflexivity.
Qed.

(** X14: no item is dropped in silence.  After what [getPaths] has logged,
    a batch over n discovered paths adds to the log only error entries, at
    most n of them, makes at most n calls of [Upsert], and leaves for every
    path an error entry or an upsert call: the entries and the calls
    together are at least n.  When discovery fails the batch calls nothing
    and touches no row.  What [getPaths] logs, when the discovery is a
    browser session, is at most two error entries, for a browser that could
    not be closed and a Playwright that could not be stopped, and nothing
    when the session fails; so that the log of a batch grows by at most
    n + 2 entries. *)
Theorem UpdateData_accounts_for_every_path host env (schedule : list Action)
    (w0 w' : World) (r : option error)
    (Hreturned : UpdateData host env schedule w0 = Some (r, w')) :
  match getPaths env with
  | Err _ =>
      log w' = log w0 ++ getPaths_logged env /\
      upserts w' = upserts w0 /\ etfs w' = etfs w0
  | Ok fetchPaths =>
      exists es us,
        log w' = log w0 ++ getPaths_logged env ++ es /\
        upserts w' = upserts w0 ++ us /\
        forallb is_error_entry es = true /\
        length es <= length fetchPaths /\
        length us <= length fetchPaths /\
        length fetchPaths <= length es + length us
  end /\
  (forall b,
     browsed host b env ->
     forallb is_error_entry (getPaths_logged env) = true /\
     length (getPaths_logged env) <= 2 /\
     (is_Ok (getPaths env) = false -> getPaths_logged env = []) /\
     exists entries,
       log w' = log w0 ++ entries /\
       forallb is_error_entry entries = true /\
       length entries
         <= match getPaths env with
            | Ok fetchPaths => length fetchPaths + 2
            | Err _ => 0
            end).
Proof.
  assert (Hbatch :
    match getPaths env with
    | Err _ =>
        log w' = log w0 ++ getPaths_logged env /\
        upserts w' = upserts w0 /\ etfs w' = etfs w0
    | Ok fetchPaths =>
        exists es us,
          log w' = log w0 ++ getPaths_logged env ++ es /\
          upserts w' = upserts w0 ++ us /\
          forallb is_error_entry es = true /\
          length es <= length fetchPaths /\
          length us <= length fetchPaths /\
          length fetchPaths <= length es + length us
    end).
  { apply UpdateData_inv in Hreturned
      as [(err & -> & _ & ->) | (fetchPaths & order & -> & _ & Hperm & ->)].
    - apply log_logged_all.
    - rewrite <- (Permutation_length Hperm).
      destruct (pipelines_trace host env order (logged_all (getPaths_logged env) w0))
        as (es & us & Hlog & Hups & Hrest).
      destruct (log_logged_all (getPaths_logged env) w0) as (Hlog0 & Hups0 & _).
      exists es, us. rewrite Hlog, Hups, Hlog0, Hups0, <- app_assoc.
      split; [reflexivity |]. split; [reflexivity |]. exact Hrest. }
  split; [exact Hbatch |].
  intros b [Hlogged Hpaths].
  rewrite getPaths_session_log in Hlogged.
  assert (Hsession : forallb is_error_entry (getPaths_logged env) = true /\
                     length (getPaths_logged env) <= 2 /\
                     (is_Ok (getPaths env) = false -> getPaths_logged env = [])).
  { rewrite Hlogged.
    destruct ((getPaths_session host b).1.1) as [urls | err].
    - destruct Hpaths as (fetchPaths & -> & _). simpl.
      destruct (browser_Close b), (pw_Stop b); simpl;
        repeat split; try lia; discriminate.
    - simpl. repeat split; lia. }
  destruct Hsession as (Herrors & Hfew & Hnone).
  split; [exact Herrors |]. split; [exact Hfew |]. split; [exact Hnone |].
  destruct (getPaths env) as [fetchPaths | err].
  - destruct Hbatch as (es & us & Hlog & _ & Hes & Hlen & _).
    exists (getPaths_logged env ++ es). split; [exact Hlog |].
    rewrite forallb_app, Herrors, Hes, length_app. split; [reflexivity | lia].
  - destruct Hbatch as (Hlog & _). exists []. rewrite Hlog, (Hnone eq_refl).
    repeat split; simpl; lia.
Qed.

Lemma UpdateData_accounts_for_every_path_witness :
  exists w',
    UpdateData "https://host" unclosed_site Inputs.interleaved Inputs.empty_world
      = Some (None, w') /\
    browsed "https://host" unclosed unclosed_site /\
    length (getPaths_logged unclosed_site) = 2 /\
    exists es us,
      log w' = getPaths_logged unclosed_site ++ es /\ upserts w' = us /\
      2 <= length es + length us.
Proof.
  assert (Hupdate : exists w',
            UpdateData "https://host" unclosed_site Inputs.interleaved
              Inputs.empty_world = Some (None, w'))
    by (eexists; vm_compute; reflexivity).
  destruct Hupdate as [w' Hupdate]. exists w'. split; [exact Hupdate |].
  split.
  { assert (Hsession : (getPaths_session "https://host" unclosed).1.1
                       = Ok (getPaths_urls [anchor "/full"; anchor "/down"] ∅))
      by reflexivity.
    assert (Hhrefs : map cleanURL (hrefs [anchor "/full"; anchor "/down"])
                     = ["/full"; "/down"]) by reflexivity.
    unfold browsed. rewrite Hsession. split; [reflexivity |].
    exists ["/full"; "/down"]. split; [reflexivity |]. split.
    - apply NoDup_cons. split; [| apply NoDup_singleton].
      intros Hin. apply list_elem_of_singleton in Hin. discriminate Hin.
    - intros path. rewrite getPaths_urls_spec, Hhrefs.
      rewrite elem_of_union, elem_of_list_to_set, <- list_elem_of_In.
      split; [intros Hin; left; exact Hin |].
      intros [Hin | Hin]; [exact Hin |]. apply elem_of_empty in Hin. destruct Hin. }
  split; [reflexivity |].
  pose proof (proj1 (UpdateData_accounts_for_every_path _ _ _ _ _ _ Hupdate)) as H.
  change (getPaths unclosed_site) with (Ok (A:=list string) ["/full"; "/down"]) in H.
  destruct H as (es & us & Hlog & Hups & _ & _ & _ & Hall).
  exists es, us. simpl in Hlog, Hups, Hall. repeat split; assumption.
Defined.

(** ** The schedule and the table *)

Lemma fold_put_Permutation (etfs1 etfs2 : list models.ETF) :
  etfs1 ≡ₚ etfs2 ->
  NoDup (map models.ID etfs1) ->
  forall m, fold_left put etfs1 m = fold_left put etfs2 m.
Proof.
  induction 1 as [| etf l1 l2 Hperm IH | a b l | l1 l2 l3 H12 IH12 H23 IH23];
    intros Hnodup m.
  - reflexivity.
  - simpl. apply IH. inversion Hnodup; assumption.
  - simpl. f_equal. unfold put. apply insert_insert_ne.
    inversion Hnodup as [| ? ? Hnotin _]; subst.
    intros Heq. apply Hnotin. rewrite Heq. constructor.
  - rewrite IH12 by exact Hnodup. apply IH23.
    assert (Hmap : map models.ID l1 ≡ₚ map models.ID l2)
      by (apply Permutation_map; exact H12).
    rewrite <- Hmap. exact Hnodup.
Qed.

Lemma dom_fold_put (etfs : list models.ETF) (m : gmap string json.value) :
  dom (fold_left put etfs m) = dom m ∪ list_to_set (map models.ID etfs).
Proof.
  revert m. induction etfs as [| etf etfs IH]; intros m; simpl.
  - rewrite union_empty_r_L. reflexivity.
  - rewrite IH. unfold put. rewrite dom_insert_L.
    rewrite (comm_L (∪) {[ models.ID etf ]} (dom m)), (assoc_L (∪)). reflexivity.
Qed.

(** X15: the documents a batch leaves in the table do not hang on the
    schedule.  Two runs of [UpdateData] from the same world, under any two
    schedules, return the same error or nil and leave tables with the same
    identities; and when no two discovered paths store a record under the
    same identity they leave the same document under every identity.  (The
    times of the rows are those of the transactions, which the schedule
    orders.) *)
Theorem table_is_schedule_independent host env (schedule1 schedule2 : list Action)
    (w0 w1 w2 : World) (r1 r2 : option error)
    (Hrun1 : UpdateData host env schedule1 w0 = Some (r1, w1))
    (Hrun2 : UpdateData host env schedule2 w0 = Some (r2, w2)) :
  r1 = r2 /\
  dom (store w1) = dom (store w2) /\
  ((forall fetchPaths,
      getPaths env = Ok fetchPaths ->
      NoDup (map models.ID (omap (stored_by host env) fetchPaths))) ->
   store w1 = store w2).
Proof.
  apply UpdateData_inv in Hrun1
    as [(err1 & Hp1 & -> & ->) | (paths1 & order1 & Hp1 & -> & Hperm1 & ->)];
    apply UpdateData_inv in Hrun2
      as [(err2 & Hp2 & -> & ->) | (paths2 & order2 & Hp2 & -> & Hperm2 & ->)];
    try congruence.
  - replace err2 with err1 by congruence. repeat split.
  - assert (paths2 = paths1) by congruence. subst paths2.
    assert (Hperm : omap (stored_by host env) order1
                    ≡ₚ omap (stored_by host env) order2).
    { apply omap_Permutation. rewrite Hperm1, Hperm2. reflexivity. }
    split; [reflexivity |]. rewrite !pipelines_store. split.
    + rewrite !dom_fold_put. f_equal. apply set_eq. intros id.
      rewrite !elem_of_list_to_set, !list_elem_of_In.
      split; apply Permutation_in, Permutation_map;
        [exact Hperm | symmetry; exact Hperm].
    + intros Hdistinct. apply fold_put_Permutation; [exact Hperm |].
      assert (Hmap : map models.ID (omap (stored_by host env) order1)
                     ≡ₚ map models.ID (omap (stored_by host env) paths1))
        by (apply Permutation_map, omap_Permutation; exact Hperm1).
      rewrite Hmap. exact (Hdistinct paths1 Hp1).
Qed.

Lemma table_is_schedule_independent_witness :
  exists w1 w2,
    UpdateData "https://host" Inputs.two_paths Inputs.interleaved Inputs.empty_world
      = Some (None, w1) /\
    UpdateData "https://host" Inputs.two_paths one_by_one Inputs.empty_world
      = Some (None, w2) /\
    store w1 = store w2.
Proof.
  assert (H1 : exists w1, UpdateData "https://host" Inputs.two_paths
                            Inputs.interleaved Inputs.empty_world = Some (None, w1))
    by (eexists; vm_compute; reflexivity).
  assert (H2 : exists w2, UpdateData "https://host" Inputs.two_paths
                            one_by_one Inputs.empty_world = Some (None, w2))
    by (eexists; vm_compute; reflexivity).
  destruct H1 as [w1 H1]. destruct H2 as [w2 H2]. exists w1, w2.
  split; [exact H1 |]. split; [exact H2 |].
  apply (proj2 (proj2 (table_is_schedule_independent _ _ _ _ _ _ _ _ _ H1 H2))).
    intros fetchPaths Hpaths. injection Hpaths as <-.
    vm_compute. apply NoDup_cons. split; [apply not_elem_of_nil | apply NoDup_nil_2].
Defined.

(** ** The scheduler over many days *)

Lemma hours_slept_app (evs1 evs2 : list Event) :
  hours_slept (evs1 ++ evs2) = hours_slept evs1 + hours_slept evs2.
Proof.
  induction evs1 as [| e evs1 IH]; [reflexivity |].
  destruct e; simpl; rewrite IH; lia.
Qed.

Lemma calls_app (evs1 evs2 : list Event) :
  calls (evs1 ++ evs2) = calls evs1 + calls evs2.
Proof. unfold calls. rewrite List.filter_app, length_app. reflexivity. Qed.

(** The retry loop sleeps one hour after each failed attempt but the
    third. *)
Lemma retry_loop_sleeps (outcome : nat -> option error) (left i k : nat) :
  hours_slept (fst (retry_loop outcome left i k)) <= retries - 1 - i.
Proof.
  revert i k. induction left as [| left IH]; intros i k; simpl; [lia |].
  destruct (outcome k) as [err |]; simpl; [| lia].
  specialize (IH (S i) (S k)).
  destruct (retry_loop outcome left (S i) (S k)) as [rest k'].
  simpl in *. destruct (i <? 2)%nat eqn:Hi; simpl.
  - apply Nat.ltb_lt in Hi. unfold retries in *. lia.
  - unfold retries in *. lia.
Qed.

Lemma schedule_loop_bounds (outcome : nat -> option error) (ticks k : nat) :
  calls (schedule_loop outcome ticks k) <= 3 * ticks /\
  hours_slept (schedule_loop outcome ticks k) <= 2 * ticks.
Proof.
  revert k. induction ticks as [| ticks IH]; intros k; simpl.
  - unfold calls. simpl. lia.
  - unfold cycle.
    pose proof (retry_loop_calls outcome retries 0 k) as [Hcalls [Hrange _]].
    pose proof (retry_loop_sleeps outcome retries 0 k) as Hsleep.
    destruct (retry_loop outcome retries 0 k) as [evs k'].
    simpl in *. destruct (IH k') as [IHc IHs].
    change (Tick :: evs ++ schedule_loop outcome ticks k')
      with ([Tick] ++ evs ++ schedule_loop outcome ticks k').
    rewrite !calls_app, !hours_slept_app. unfold retries in *.
    change (calls [Tick]) with 0. change (hours_slept [Tick]) with 0. lia.
Qed.

Lemma schedule_loop_healthy (outcome : nat -> option error) (ticks k : nat) :
  (forall j, outcome j = None) ->
  calls (schedule_loop outcome ticks k) = ticks /\
  hours_slept (schedule_loop outcome ticks k) = 0.
Proof.
  intros Hgood. revert k. induction ticks as [| ticks IH]; intros k; simpl.
  - split; reflexivity.
  - unfold cycle, retries. simpl. rewrite Hgood. simpl.
    destruct (IH (S k)) as [IHc IHs]. unfold calls in *. simpl.
    rewrite IHc, IHs. split; reflexivity.
Qed.

(** X16: over any number of ticks [Run] calls [UpdateData] at most once at
    the start and three times a tick, and sleeps at most two hours a tick,
    far less than the 24 hours between ticks; when every update succeeds it
    makes exactly one call at the start and one a tick and never sleeps. *)
Theorem Run_is_bounded (outcome : nat -> option error) (ticks : nat) :
  calls (fst (Run outcome ticks)) <= 1 + 3 * ticks /\
  hours_slept (fst (Run outcome ticks)) <= 2 * ticks /\
  ((forall k, outcome k = None) ->
     calls (fst (Run outcome ticks)) = 1 + ticks /\
     hours_slept (fst (Run outcome ticks)) = 0).
Proof.
  unfold Run. destruct (outcome 0) as [err |] eqn:H0.
  - simpl. unfold calls. simpl. split; [lia |]. split; [lia |].
    intros Hgood. rewrite Hgood in H0. discriminate.
  - pose proof (schedule_loop_bounds outcome ticks 1) as [Hc Hs].
    cbn [fst]. rewrite calls_app, hours_slept_app.
    change (calls [CallUpdateData None; Info "Data update completed successfully";
                   NewTicker 24]) with 1.
    change (hours_slept [CallUpdateData None;
                         Info "Data update completed successfully"; NewTicker 24])
      with 0.
    split; [lia |]. split; [lia |].
    intros Hgood. destruct (schedule_loop_healthy outcome ticks 1 Hgood) as [Hc' Hs'].
    lia.
Qed.

Lemma Run_is_bounded_witness :
  let healthy : nat -> option error := fun _ => None in
  calls (fst (Run healthy 7)) = 8 /\ hours_slept (fst (Run healthy 7)) = 0.
Proof.
  intros healthy.
  destruct (Run_is_bounded healthy 7) as (_ & _ & Hgood).
  exact (Hgood (fun _ => eq_refl)).
Defined.

(** ** The API layer *)

Lemma WriteHeader_new (code : nat) (w : http.ResponseWriter) :
  http.status w = None ->
  http.WriteHeader code w
    = {| http.status := Some code; http.body := http.body w;
         http.broken := http.broken w |}.
Proof. unfold http.WriteHeader. intros ->. reflexivity. Qed.

Lemma WriteHeader_written (code : nat) (w : http.ResponseWriter) (c : nat) :
  http.status w = Some c -> http.WriteHeader code w = w.
Proof. unfold http.WriteHeader. intros ->. reflexivity. Qed.

(** After a status has been written, [WriteJSONResponse] adds the value to
    the body, or nothing at all when the connection is gone. *)
Lemma WriteJSONResponse_written (w : http.ResponseWriter) (c : nat)
    (v : json.value) :
  http.status w = Some c ->
  WriteJSONResponse w (Ok v)
    = match http.broken w with
      | Some _ => w
      | None => {| http.status := Some c; http.body := http.body w ++ [http.JSON v];
                   http.broken := None |}
      end.
Proof.
  intros Hc. unfold WriteJSONResponse, http.Write. cbv zeta.
  rewrite (WriteHeader_written _ w c Hc).
  destruct (http.broken w) as [err |] eqn:Hb.
  - unfold http.Error, http.Write. cbv zeta.
    rewrite !(WriteHeader_written _ w c Hc), Hb. reflexivity.
  - rewrite Hc. reflexivity.
Qed.

(** X17: the status a handler has written is final.  [WriteJSONResponse]
    never changes a status that is there: its two error paths, which call
    [http.Error] with 500, come after the handlers' [WriteHeader], so a
    marshalling or writing failure still answers with the handler's status,
    and a lost connection leaves the response as it was. *)
Theorem written_status_is_final (w : http.ResponseWriter) (c : nat)
    (data : Result json.value) (Hwritten : http.status w = Some c) :
  http.status (WriteJSONResponse w data) = Some c /\
  (forall err, http.broken w = Some err -> WriteJSONResponse w data = w) /\
  (forall code, http.status (http.Error w "Failed to marshal JSON" code) = Some c).
Proof.
  assert (Herror : forall msg code,
            http.status (http.Error w msg code) = Some c /\
            (forall err, http.broken w = Some err -> http.Error w msg code = w)).
  { intros msg code. unfold http.Error, http.Write. cbv zeta.
    rewrite !(WriteHeader_written _ w c Hwritten).
    destruct (http.broken w); simpl; split; try assumption; try reflexivity;
      intros; discriminate. }
  split; [| split].
  - destruct data as [v | e].
    + rewrite (WriteJSONResponse_written w c v Hwritten).
      destruct (http.broken w); [exact Hwritten | reflexivity].
    + apply Herror.
  - intros err Hb. destruct data as [v | e].
    + rewrite (WriteJSONResponse_written w c v Hwritten), Hb. reflexivity.
    + apply (proj2 (Herror _ _) err Hb).
  - intros code. apply Herror.
Qed.

Lemma written_status_is_final_witness :
  let w := http.WriteHeader http.StatusOK
             {| http.status := None; http.body := [];
                http.broken := Some (ErrNew "broken pipe") |} in
  http.status (WriteJSONResponse w (Ok json.Null)) = Some 200.
Proof.
  intros w.
  exact (proj1 (written_status_is_final w 200 (Ok json.Null) eq_refl)).
Defined.

(** X18: the token gate.  A request without an Authorization header, or
    with one that does not parse under the secret, or whose token is not
    valid, is answered 401 and the handler behind the gate is not run,
    whatever that handler is; a request with a valid token goes to the
    handler, with the user name of the token's claims in its context. *)
Theorem token_gate (api : Api) (jwtSecret : string) (w : http.ResponseWriter)
    (r : http.Request) :
  ((http.Authorization r = "" \/
    forall user, ParseWithClaims api (http.Authorization r) jwtSecret
                 <> Ok (user, true)) ->
   forall next,
     RequireTokenAuthentication api jwtSecret next w r
       = http.WriteHeader http.StatusUnauthorized w) /\
  (forall user,
     http.Authorization r <> "" ->
     ParseWithClaims api (http.Authorization r) jwtSecret = Ok (user, true) ->
     forall next,
       RequireTokenAuthentication api jwtSecret next w r
         = next w {| http.Authorization := http.Authorization r;
                     http.FormValue := http.FormValue r;
                     http.Vars := http.Vars r;
                     http.username := Some user |}).
Proof.
  unfold RequireTokenAuthentication. cbv zeta. split.
  - intros Hbad next.
    destruct (String.eqb (http.Authorization r) "") eqn:Hauth; [reflexivity |].
    destruct Hbad as [Hempty | Hinvalid].
    { rewrite Hempty in Hauth. discriminate. }
    destruct (ParseWithClaims api (http.Authorization r) jwtSecret)
      as [[user valid] | err]; [| reflexivity].
    destruct valid; [| reflexivity]. destruct (Hinvalid user eq_refl).
  - intros user Hauth Hvalid next.
    rewrite (eqb_empty_false _ Hauth), Hvalid. reflexivity.
Qed.

Lemma token_gate_witness :
  let api := {| users := []; read_fault := None; sha256 := fun s => s;
                UnmarshalETFData := fun _ => inl "no decoder";
                ParseWithClaims := fun _ _ => Err (ErrNew "signature is invalid");
                SignedString := fun _ _ _ => Err (ErrNew "no key");
                TimeFunc := 0%Z |} in
  let r := {| http.Authorization := "forged"; http.FormValue := fun _ => "";
              http.Vars := fun _ => "SPY"; http.username := None |} in
  RequireTokenAuthentication api "something"
    (GetETFDataHandler api Inputs.empty_world) http.fresh r
    = {| http.status := Some 401; http.body := []; http.broken := None |}.
Proof.
  intros api r.
  destruct (token_gate api "something" http.fresh r) as [Hreject _].
  rewrite Hreject; [reflexivity |].
  right. intros user. discriminate.
Defined.

(** X19: [GetETFDataHandler] on a response with no status yet.  An empty
    ticker is answered 400.  A ticker with no row is answered 500, as is
    every other failure of [GetETF] (a failed read, a payload that does not
    decode): there is no 404.  A ticker whose payload, in the JSONB form
    in which the table gives it, decodes is answered 200 with the record
    marshalled again. *)
Theorem GetETFDataHandler_status (api : Api) (db : World)
    (w : http.ResponseWriter) (r : http.Request)
    (Hnew : http.status w = None) :
  (http.Vars r "ticker" = "" ->
     GetETFDataHandler api db w r = http.WriteHeader 400 w) /\
  (http.Vars r "ticker" <> "" ->
     read_fault api = None ->
     store db !! http.Vars r "ticker" = None ->
     GetETFDataHandler api db w r = http.WriteHeader 500 w) /\
  (http.Vars r "ticker" <> "" ->
     (forall data, GetETF api (http.Vars r "ticker") db <> Ok data) ->
     GetETFDataHandler api db w r = http.WriteHeader 500 w) /\
  (forall payload data,
     http.Vars r "ticker" <> "" ->
     read_fault api = None ->
     store db !! http.Vars r "ticker" = Some payload ->
     UnmarshalETFData api (json.jsonb payload) = inr data ->
     http.broken w = None ->
     GetETFDataHandler api db w r
       = {| http.status := Some 200;
            http.body := http.body w ++ [http.JSON (models.ToJson data)];
            http.broken := None |}).
Proof.
  unfold GetETFDataHandler. cbv zeta. split; [| split; [| split]].
  - intros ->. reflexivity.
  - intros Hticker Hfault Hrow. rewrite (eqb_empty_false _ Hticker).
    unfold store in Hrow. rewrite lookup_fmap in Hrow.
    unfold GetETF, GetByID. rewrite Hfault.
    destruct (etfs db !! http.Vars r "ticker"); [discriminate | reflexivity].
  - intros Hticker Hfail. rewrite (eqb_empty_false _ Hticker).
    destruct (GetETF api (http.Vars r "ticker") db) as [data | err];
      [destruct (Hfail data eq_refl) | reflexivity].
  - intros payload data Hticker Hfault Hrow Hdecode Hline.
    rewrite (eqb_empty_false _ Hticker).
    unfold store in Hrow. rewrite lookup_fmap in Hrow.
    unfold GetETF, GetByID. rewrite Hfault.
    destruct (etfs db !! http.Vars r "ticker") as [row |]; [| discriminate].
    injection Hrow as <-. simpl. rewrite Hdecode.
    rewrite (WriteHeader_new _ w Hnew).
    unfold http.Write. cbn. rewrite Hline. reflexivity.
Qed.

Lemma GetETFDataHandler_status_witness :
  let api := {| users := []; read_fault := None; sha256 := fun s => s;
                UnmarshalETFData := fun _ => inl "no decoder";
                ParseWithClaims := fun _ _ => Err (ErrNew "signature is invalid");
                SignedString := fun _ _ _ => Err (ErrNew "no key");
                TimeFunc := 0%Z |} in
  let r := {| http.Authorization := ""; http.FormValue := fun _ => "";
              http.Vars := fun _ => "QQQ"; http.username := None |} in
  GetETFDataHandler api Inputs.empty_world http.fresh r
    = {| http.status := Some 500; http.body := []; http.broken := None |}.
Proof.
  intros api r.
  destruct (GetETFDataHandler_status api Inputs.empty_world http.fresh r eq_refl)
    as (_ & Hmissing & _).
  rewrite Hmissing; [reflexivity | discriminate | reflexivity | reflexivity].
Defined.




Lemma UserExists_row (api : Api) (username password : string) :
  read_fault api = None ->
  UserExists api username password
    = Ok (bool_decide ((username, toHash api password) ∈ users api)).
Proof.
  intros Hfault. unfold UserExists, Database_UserExists. rewrite Hfault. f_equal.
  induction (users api) as [| [u p] rows IH]; [reflexivity |].
  cbn [existsb fst snd]. rewrite IH. clear IH.
  destruct (String.eqb_spec u username) as [Hu | Hu];
    destruct (String.eqb_spec p (toHash api password)) as [Hp | Hp];
    cbn [andb orb].
  - subst. symmetry. apply bool_decide_eq_true. left.
  - apply bool_decide_ext. rewrite elem_of_cons. split; [tauto |].
    intros [Heq | Hin]; [congruence | exact Hin].
  - apply bool_decide_ext. rewrite elem_of_cons. split; [tauto |].
    intros [Heq | Hin]; [congruence | exact Hin].
  - apply bool_decide_ext. rewrite elem_of_cons. split; [tauto |].
    intros [Heq | Hin]; [congruence | exact Hin].
Qed.

(** X21: [LoginHandler] on a response with no status yet.  It answers 200
    only when the users table has a row with the user name of the form and
    the hex digest of the form's password, and the token was signed with an
    expiry 24 hours ahead; then the body is that token.  With no such row
    the answer is 401, and the signing is not looked at. *)
Theorem LoginHandler_status (api : Api) (jwtSecret : string)
    (w : http.ResponseWriter) (r : http.Request)
    (Hnew : http.status w = None) :
  let username := http.FormValue r "username" in
  let password := http.FormValue r "password" in
  (http.status (LoginHandler api jwtSecret w r) = Some 200 ->
     read_fault api = None /\
     (username, toHash api password) ∈ users api /\
     exists token,
       SignedString api username (TimeFunc api + 86400)%Z jwtSecret = Ok token) /\
  (read_fault api = None ->
   (username, toHash api password) ∉ users api ->
     LoginHandler api jwtSecret w r = http.WriteHeader 401 w) /\
  (forall token,
     read_fault api = None ->
     (username, toHash api password) ∈ users api ->
     SignedString api username (TimeFunc api + 86400)%Z jwtSecret = Ok token ->
     http.broken w = None ->
     LoginHandler api jwtSecret w r
       = {| http.status := Some 200;
            http.body := http.body w ++ [http.JSON (json.Str token)];
            http.broken := None |}).
Proof.
  intros username password. unfold LoginHandler, generateToken. cbv zeta.
  fold username password.
  change (24 * 3600)%Z with 86400%Z.
  split; [| split].
  - destruct (read_fault api) as [err |] eqn:Hfault.
    { unfold UserExists, Database_UserExists. rewrite Hfault.
      rewrite (WriteHeader_new _ w Hnew). discriminate. }
    rewrite (UserExists_row api _ _ Hfault).
    destruct (bool_decide_reflect ((username, toHash api password) ∈ users api))
      as [Hrow | Hrow]; cbn [negb].
    2: { rewrite (WriteHeader_new _ w Hnew). discriminate. }
    destruct (SignedString api username (TimeFunc api + 86400)%Z jwtSecret)
      as [token | err] eqn:Hsign.
    2: { rewrite (WriteHeader_new _ w Hnew). discriminate. }
    intros _. split; [reflexivity |]. split; [exact Hrow |].
    exists token. reflexivity.
  - intros Hfault Hrow. rewrite (UserExists_row api _ _ Hfault).
    rewrite (bool_decide_eq_false_2 _ Hrow). reflexivity.
  - intros token Hfault Hrow Hsign Hline.
    rewrite (UserExists_row api _ _ Hfault).
    rewrite (bool_decide_eq_true_2 _ Hrow). cbn [negb]. rewrite Hsign.
    rewrite (WriteHeader_new _ w Hnew).
    unfold WriteJSONResponse, http.Write. cbn. rewrite Hline. reflexivity.
Qed.

Lemma LoginHandler_status_witness :
  let api := {| users := [("admin", "70617373")]; read_fault := None;
                sha256 := fun s => s;
                UnmarshalETFData := fun _ => inl "no decoder";
                ParseWithClaims := fun _ _ => Err (ErrNew "signature is invalid");
                SignedString := fun user _ _ => Ok ("token-of-" +:+ user);
                TimeFunc := 0%Z |} in
  let r := {| http.Authorization := "";
              http.FormValue := fun key => if String.eqb key "username" then "admin"
                                           else "guess";
              http.Vars := fun _ => ""; http.username := None |} in
  LoginHandler api "something" http.fresh r
    = {| http.status := Some 401; http.body := []; http.broken := None |}.
Proof.
  intros api r.
  destruct (LoginHandler_status api "something" http.fresh r eq_refl)
    as (_ & Hreject & _).
  rewrite Hreject; [reflexivity | reflexivity |].
  vm_compute. intros Hin. apply list_elem_of_singleton in Hin. discriminate.
Defined.
